(** * BirdNET MQTT Stream Deck plugin: a shallow embedding of the detection pipeline

    The plugin (one Node.js file plus the property inspector) receives
    species detections over MQTT and drives Stream Deck tiles.  This file
    embeds the stateful core of that file:

    - the payload normalizer ([parsePayload], [getJsonPath], [extractConfidence],
      [extractImageUrl], [extractOccurrence], [extractDate]);
    - the rolling one-hour counter ([recordDetection], [pruneDetections],
      [getDetectionsLastHour]);
    - the rarity classifier ([getCommonality]);
    - the daily aggregate ([updateDailyBirds], [pruneOldDays], [getTodayBirds]);
    - the per-context rotation ([startRotation], [stopRotation], [rotateOnce]);
    - the image cache ([fetchImageData] and the settlement of its promise);
    - the line layout of a title ([splitName], [truncateToFit]) and the
      escaping of its text ([escapeXml]);
    - the broker URL ([buildMqttUrl]);
    - the handler of MQTT messages, which drives the above
      ([forEachContext], [updateImageContexts]);
    - the queue of log lines ([sendLogMessage], [flushPendingLogs]).

    JavaScript numbers are IEEE-754 binary64 values and are modelled by Rocq's
    primitive floats, so [Math.max], [<=], [*] and [-] are the operations the
    program runs.  Values obtained from [JSON.parse] are modelled by [JsVal].
    Strings are sequences of bytes holding the UTF-8 form of the JavaScript
    string; where the code counts and cuts code units (the line layout), a
    text is the list of its UTF-16 code units.  Wall-clock reads ([Date.now()], today's ISO date) are explicit
    arguments.  An exception is the [Throw] completion. *)

From Stdlib Require Import Floats ZArith Lia Bool List String Ascii.
From Stdlib Require Import Sorted Permutation DecimalString.
From stdpp Require Import base gmap strings list fin_maps.

Set Warnings "-inexact-float,-register-all".
Local Open Scope Z_scope.

(* ===================================================================== *)
(** * Part I: definitions                                                 *)
(* ===================================================================== *)

(** ** JavaScript numbers *)

Module JsNum.

(** [Number.isNaN]. *)
Definition isNaN (x : float) : bool := PrimFloat.is_nan x.

(** [Number.isFinite] on a number. *)
Definition isFinite (x : float) : bool :=
  negb (PrimFloat.is_nan x) && negb (PrimFloat.is_infinity x).

(** [ToBoolean] on a number: [+0], [-0] and [NaN] are falsy. *)
Definition truthy (x : float) : bool :=
  negb (PrimFloat.is_zero x || PrimFloat.is_nan x).

(** Is the number the negative zero? *)
Definition is_neg_zero (x : float) : bool :=
  PrimFloat.is_zero x && PrimFloat.get_sign x.

(** [Math.max] of two numbers: [NaN] if either is [NaN]; [+0] is larger
    than [-0]. *)
Definition Math_max (a b : float) : float :=
  match PrimFloat.compare a b with
  | FNotComparable => PrimFloat.nan
  | FLt => b
  | FGt => a
  | FEq => if is_neg_zero a then b else a
  end.

(** [Math.min] of two numbers: [NaN] if either is [NaN]; [-0] is smaller
    than [+0]. *)
Definition Math_min (a b : float) : float :=
  match PrimFloat.compare a b with
  | FNotComparable => PrimFloat.nan
  | FLt => a
  | FGt => b
  | FEq => if is_neg_zero a then a else b
  end.

(** The image of [Math.min] on the specification of binary64. *)
Definition sf_min (x y : spec_float) : spec_float :=
  match SFcompare x y with
  | None => S754_nan
  | Some Lt => x
  | Some Gt => y
  | Some Eq => match x with S754_zero true => x | _ => y end
  end.

(** The JavaScript relational operators on two numbers. *)
Definition le (a b : float) : bool := PrimFloat.leb a b.
Definition lt (a b : float) : bool := PrimFloat.ltb a b.

(** The number with integer value [z] (exact for [|z| < 2^53], rounded to
    nearest-even otherwise). *)
Definition of_Z (z : Z) : float :=
  SF2Prim (binary_normalize prec emax z 0 false).

(** The number nearest to [m * 10^e] (ties to even), negated when [neg]:
    the value of a decimal literal with digits [m] and exponent [e].
    Literals whose exponent is far outside the binary64 range are
    answered without building the power of ten. *)
Definition of_decimal (neg : bool) (m : Z) (e : Z) : float :=
  let s :=
    match m with
    | Z0 => S754_zero neg
    | Zneg _ => S754_nan
    | Zpos p =>
        if 400 <? e then S754_infinity neg
        else if e + Z.log2 m <? -1200 then S754_zero neg
        else if 0 <=? e then binary_round prec emax neg (Pos.mul p (Z.to_pos (10 ^ e))) 0
        else
          let '(q, e', l) := SFdiv_core_binary prec emax m 0 (10 ^ (- e)) 0 in
          binary_round_aux prec emax neg q e' l
    end in
  SF2Prim s.

End JsNum.

(** ** Strings *)

Module JsStr.

Definition code (c : ascii) : Z := Z.of_N (N_of_ascii c).

Definition chars (s : string) : list ascii := list_ascii_of_string s.
Definition of_chars (l : list ascii) : string := string_of_list_ascii l.

(** White space and line terminators of ECMAScript ([String.prototype.trim]),
    in their UTF-8 form: TAB, LF, VT, FF, CR, SP; U+00A0; U+1680,
    U+2000..U+200A, U+2028, U+2029, U+202F, U+205F, U+3000, U+FEFF. *)
Definition ws1 (a : ascii) : bool :=
  let a := code a in ((9 <=? a) && (a <=? 13)) || (a =? 32).

Definition ws2 (a b : ascii) : bool :=
  (code a =? 194) && (code b =? 160).

Definition ws3 (a b c : ascii) : bool :=
  let a := code a in let b := code b in let c := code c in
  ((a =? 225) && (b =? 154) && (c =? 128))
  || ((a =? 226) && (b =? 128) &&
      (((128 <=? c) && (c <=? 138)) || (c =? 168) || (c =? 169) || (c =? 175)))
  || ((a =? 226) && (b =? 129) && (c =? 159))
  || ((a =? 227) && (b =? 128) && (c =? 128))
  || ((a =? 239) && (b =? 187) && (c =? 191)).

Fixpoint trimStart_chars (l : list ascii) : list ascii :=
  match l with
  | [] => []
  | a :: r =>
      if ws1 a then trimStart_chars r
      else match r with
           | b :: r' =>
               if ws2 a b then trimStart_chars r'
               else match r' with
                    | c :: r'' => if ws3 a b c then trimStart_chars r'' else l
                    | [] => l
                    end
           | [] => l
           end
  end.

(** The same scan on the reversed string: the bytes of a multi-byte white
    space arrive last byte first. *)
Fixpoint trimEnd_rev (l : list ascii) : list ascii :=
  match l with
  | [] => []
  | a :: r =>
      if ws1 a then trimEnd_rev r
      else match r with
           | b :: r' =>
               if ws2 b a then trimEnd_rev r'
               else match r' with
                    | c :: r'' => if ws3 c b a then trimEnd_rev r'' else l
                    | [] => l
                    end
           | [] => l
           end
  end.

Definition trim_chars (l : list ascii) : list ascii :=
  List.rev (trimEnd_rev (List.rev (trimStart_chars l))).

(** [String.prototype.trim]. *)
Definition trim (s : string) : string := of_chars (trim_chars (chars s)).

(** [s.length > 0] / [ToBoolean(s)]: a string is truthy when non-empty. *)
Definition nonempty (s : string) : bool :=
  match s with EmptyString => false | String _ _ => true end.

(** [String.prototype.split] on a one-character separator. *)
Fixpoint split_chars (sep : ascii) (cur : list ascii) (l : list ascii) : list (list ascii) :=
  match l with
  | [] => [List.rev cur]
  | c :: r =>
      if Ascii.eqb c sep then List.rev cur :: split_chars sep [] r
      else split_chars sep (c :: cur) r
  end.

Definition split (sep : ascii) (s : string) : list string :=
  List.map of_chars (split_chars sep [] (chars s)).

Definition is_digit (c : ascii) : bool := (48 <=? code c) && (code c <=? 57).
Definition digit_val (c : ascii) : Z := code c - 48.

(** Value of a run of decimal digits. *)
Definition digits_val (l : list ascii) : Z :=
  fold_left (fun acc c => 10 * acc + digit_val c) l 0.

Definition hex_val (c : ascii) : option Z :=
  let a := code c in
  if (48 <=? a) && (a <=? 57) then Some (a - 48)
  else if (65 <=? a) && (a <=? 70) then Some (a - 55)
  else if (97 <=? a) && (a <=? 102) then Some (a - 87)
  else None.

(** Value of a run of digits in radix [r]; [None] when the run is empty or
    holds a character that is no digit of that radix. *)
Definition radix_val (r : Z) (l : list ascii) : option Z :=
  match l with
  | [] => None
  | _ =>
      fold_left (fun acc c =>
                   match acc, hex_val c with
                   | Some v, Some d => if d <? r then Some (r * v + d) else None
                   | _, _ => None
                   end) l (Some 0)
  end.

(** The longest prefix of decimal digits and what follows it. *)
Fixpoint span_digits (l : list ascii) : list ascii * list ascii :=
  match l with
  | c :: r => if is_digit c then let '(d, r') := span_digits r in (c :: d, r') else ([], l)
  | [] => ([], [])
  end.

End JsStr.

(** ** Decimal literals *)

Module DecLit.
Import JsStr.

(** The parts of a decimal literal: integer digits, whether a dot was
    present, fraction digits, and the exponent (0 when absent). *)
Record t := mk { int_part : list ascii; dot : bool; frac_part : list ascii; exponent : Z }.

Definition is_e (c : ascii) : bool := (code c =? 101) || (code c =? 69).

(** What follows [e]/[E]: an optional sign and at least one digit, up to
    the end of the literal. *)
Definition scan_exponent (l : list ascii) : option Z :=
  let '(neg, r) :=
    match l with
    | c :: r' => if code c =? 43 then (false, r')
                 else if code c =? 45 then (true, r') else (false, l)
    | [] => (false, l)
    end in
  match span_digits r with
  | (d :: ds, []) => Some (if neg then - digits_val (d :: ds) else digits_val (d :: ds))
  | _ => None
  end.

Definition scan (l : list ascii) : option t :=
  let '(ip, r1) := span_digits l in
  let '(hasdot, fp, r2) :=
    match r1 with
    | c :: r => if code c =? 46 then let '(f, r') := span_digits r in (true, f, r')
                else (false, [], r1)
    | [] => (false, [], r1)
    end in
  match r2 with
  | [] => Some (mk ip hasdot fp 0)
  | c :: r =>
      if is_e c then
        match scan_exponent r with
        | Some e => Some (mk ip hasdot fp e)
        | None => None
        end
      else None
  end.

(** The number denoted: digits [int_part ++ frac_part] scaled by
    [10^(exponent - |frac_part|)]. *)
Definition value (neg : bool) (d : t) : float :=
  JsNum.of_decimal neg (digits_val (int_part d ++ frac_part d))
                   (exponent d - Z.of_nat (length (frac_part d))).

Definition nonnil (l : list ascii) : bool := match l with [] => false | _ => true end.

(** JSON: [int] is [0] or starts with a non-zero digit; a dot is followed
    by at least one digit. *)
Definition json_ok (d : t) : bool :=
  match int_part d with
  | [] => false
  | c :: r => ((negb (code c =? 48)) || negb (nonnil r))
              && (negb (dot d) || nonnil (frac_part d))
  end.

(** ECMAScript [StrUnsignedDecimalLiteral]: digits on at least one side of
    the dot. *)
Definition str_ok (d : t) : bool := nonnil (int_part d) || nonnil (frac_part d).

End DecLit.

(** ** Values produced by [JSON.parse] *)

Inductive JsVal : Type :=
| JUndefined
| JNull
| JBool (b : bool)
| JNum (n : float)
| JStr (s : string)
| JArr (elems : list JsVal)
| JObj (props : list (string * JsVal)).

(** A setting as the property inspector writes it: a string, a number or a
    boolean; [null] or [undefined] when it is absent.  Settings that hold
    arrays or objects are outside the model. *)
Inductive Scalar : Type :=
| SUndefined
| SNull
| SBool (b : bool)
| SNum (n : float)
| SStr (s : string).

(** A completion: a value, or a thrown exception. *)
Inductive completion (A : Type) : Type :=
| Normal (a : A)
| Throw.
Arguments Normal {A} a.
Arguments Throw {A}.

#[global] Instance completion_ret : MRet completion := @Normal.
#[global] Instance completion_bind : MBind completion :=
  fun A B f c => match c with Normal a => f a | Throw => Throw end.

(** [try { return ... } catch (err) { }]: the block either returned a result,
    fell through, or threw; in the last two cases control goes on. *)
Definition try_catch {A} (block : completion (option A)) : option A :=
  match block with
  | Normal r => r
  | Throw => None
  end.

Module Js.
Import JsStr.

(** [ToBoolean]. *)
Definition truthy (v : JsVal) : bool :=
  match v with
  | JUndefined | JNull => false
  | JBool b => b
  | JNum n => JsNum.truthy n
  | JStr s => nonempty s
  | JArr _ | JObj _ => true
  end.

(** [ToBoolean] on a setting. *)
Definition scalar_truthy (v : Scalar) : bool :=
  match v with
  | SUndefined | SNull => false
  | SBool b => b
  | SNum n => JsNum.truthy n
  | SStr s => nonempty s
  end.

(** [typeof v === "object"] (true of [null]). *)
Definition typeof_object (v : JsVal) : bool :=
  match v with
  | JNull | JArr _ | JObj _ => true
  | _ => false
  end.


Definition typeof_string (v : JsVal) : bool :=
  match v with JStr _ => true | _ => false end.

Definition isArray (v : JsVal) : bool :=
  match v with JArr _ => true | _ => false end.

(** [a ?? b], [a || b], [a && b]; the right operand is a completion because
    it is only evaluated when selected. *)
Definition nullish (v : JsVal) : bool :=
  match v with JUndefined | JNull => true | _ => false end.

Definition coalesce (a : JsVal) (b : completion JsVal) : completion JsVal :=
  if nullish a then b else Normal a.
Definition or_else (a : JsVal) (b : completion JsVal) : completion JsVal :=
  if truthy a then Normal a else b.
Definition and_then (a : JsVal) (b : completion JsVal) : completion JsVal :=
  if truthy a then b else Normal a.

(** The own property [k] of an object built by [JSON.parse]: a later
    duplicate key overwrites an earlier one. *)
Fixpoint own_prop (props : list (string * JsVal)) (k : string) : JsVal :=
  match props with
  | [] => JUndefined
  | (k', v) :: rest =>
      match own_prop rest k with
      | JUndefined => if String.eqb k' k then v else JUndefined
      | later => later
      end
  end.

(** A canonical array index: ["0"], or digits without a leading zero. *)
Definition array_index (k : string) : option Z :=
  match chars k with
  | [] => None
  | c :: r =>
      if forallb is_digit (c :: r) && ((negb (code c =? 48)) || negb (DecLit.nonnil r))
      then Some (digits_val (c :: r))
      else None
  end.

(** Property read [v[k]] / [v.k].  Reading from [undefined] or [null]
    throws a TypeError.  Objects and arrays answer with their own
    properties; members inherited from a prototype are not part of the
    model, and the program reads none of them from a primitive. *)
Definition get (v : JsVal) (k : string) : completion JsVal :=
  match v with
  | JUndefined | JNull => Throw
  | JObj props => Normal (own_prop props k)
  | JArr elems =>
      if String.eqb k "length" then Normal (JNum (JsNum.of_Z (Z.of_nat (length elems))))
      else match array_index k with
           | Some i =>
               if i <? Z.of_nat (length elems)
               then Normal (nth (Z.to_nat i) elems JUndefined)
               else Normal JUndefined
           | None => Normal JUndefined
           end
  | JBool _ | JNum _ | JStr _ => Normal JUndefined
  end.

(** [StringToNumber]: white space is trimmed; the empty string is [+0];
    [Infinity] with an optional sign; a signed decimal literal; an unsigned
    binary, octal or hexadecimal integer literal; anything else is [NaN]. *)
Definition Infinity_chars : list ascii := chars "Infinity".

Definition chars_eqb (a b : list ascii) : bool :=
  String.eqb (of_chars a) (of_chars b).

Definition StrDecimalLiteral (l : list ascii) : float :=
  let '(neg, r) :=
    match l with
    | c :: r' => if code c =? 43 then (false, r')
                 else if code c =? 45 then (true, r') else (false, l)
    | [] => (false, l)
    end in
  if chars_eqb r Infinity_chars
  then (if neg then PrimFloat.neg_infinity else PrimFloat.infinity)
  else match DecLit.scan r with
       | Some d => if DecLit.str_ok d then DecLit.value neg d else PrimFloat.nan
       | None => PrimFloat.nan
       end.

Definition radix_literal (r : Z) (digits : list ascii) : float :=
  match radix_val r digits with
  | Some v => JsNum.of_Z v
  | None => PrimFloat.nan
  end.

Definition StringToNumber (s : string) : float :=
  match trim_chars (chars s) with
  | [] => PrimFloat.zero
  | c0 :: c1 :: r =>
      if code c0 =? 48 then
        if (code c1 =? 120) || (code c1 =? 88) then radix_literal 16 r
        else if (code c1 =? 111) || (code c1 =? 79) then radix_literal 8 r
        else if (code c1 =? 98) || (code c1 =? 66) then radix_literal 2 r
        else StrDecimalLiteral (c0 :: c1 :: r)
      else StrDecimalLiteral (c0 :: c1 :: r)
  | l => StrDecimalLiteral l
  end.

(** [Number(v)] of a setting. *)
Definition Number_ (v : Scalar) : float :=
  match v with
  | SUndefined => PrimFloat.nan
  | SNull => PrimFloat.zero
  | SBool b => if b then 1%float else 0%float
  | SNum n => n
  | SStr s => StringToNumber s
  end.

(** Does the object have the own property [k]? *)
Definition has_own (props : list (string * JsVal)) (k : string) : bool :=
  existsb (fun p => String.eqb (fst p) k) props.

End Js.

(** ** [JSON.parse] *)

Module Json.
Import JsStr.

Inductive token :=
| TLBrace | TRBrace | TLBrack | TRBrack | TColon | TComma
| TStr (s : string) | TNum (n : float) | TTrue | TFalse | TNull.

(** A piece of a string literal: a source byte, or the UTF-16 code unit of
    a [\uXXXX] escape. *)
Inductive sitem := SByte (c : ascii) | SUnit (u : Z).

Definition byte (z : Z) : ascii := ascii_of_N (Z.to_N z).

(** UTF-8 form of a code point (a lone surrogate is written like any other
    three-byte code point). *)
Definition utf8 (cp : Z) : list ascii :=
  if cp <? 128 then [byte cp]
  else if cp <? 2048 then [byte (192 + cp / 64); byte (128 + cp mod 64)]
  else if cp <? 65536 then
    [byte (224 + cp / 4096); byte (128 + (cp / 64) mod 64); byte (128 + cp mod 64)]
  else
    [byte (240 + cp / 262144); byte (128 + (cp / 4096) mod 64);
     byte (128 + (cp / 64) mod 64); byte (128 + cp mod 64)].

Definition is_high (u : Z) : bool := (55296 <=? u) && (u <=? 56319).
Definition is_low (u : Z) : bool := (56320 <=? u) && (u <=? 57343).

(** Bytes of a string literal from its pieces; an escaped surrogate pair is
    one code point. *)
Fixpoint decode (items : list sitem) : list ascii :=
  match items with
  | [] => []
  | SByte c :: rest => c :: decode rest
  | SUnit u :: rest =>
      match rest with
      | SUnit v :: rest' =>
          if is_high u && is_low v
          then utf8 (65536 + (u - 55296) * 1024 + (v - 56320)) ++ decode rest'
          else utf8 u ++ decode rest
      | _ => utf8 u ++ decode rest
      end
  end.

Inductive lex_state :=
| LIdle
| LNumber (buf : list ascii)
| LWord (buf : list ascii)
| LString (acc : list sitem)
| LEscape (acc : list sitem)
| LUnicode (acc : list sitem) (hex : list Z).

Definition number_token (buf : list ascii) : option token :=
  let l := List.rev buf in
  let '(neg, r) :=
    match l with
    | c :: r' => if code c =? 45 then (true, r') else (false, l)
    | [] => (false, l)
    end in
  match DecLit.scan r with
  | Some d => if DecLit.json_ok d then Some (TNum (DecLit.value neg d)) else None
  | None => None
  end.

Definition word_token (buf : list ascii) : option token :=
  let w := of_chars (List.rev buf) in
  if String.eqb w "true" then Some TTrue
  else if String.eqb w "false" then Some TFalse
  else if String.eqb w "null" then Some TNull
  else None.

Definition is_number_char (c : ascii) : bool :=
  is_digit c || (code c =? 43) || (code c =? 45) || (code c =? 46) || DecLit.is_e c.

Definition is_lower (c : ascii) : bool := (97 <=? code c) && (code c <=? 122).

(** One character read between tokens; the result is the next state and the
    token completed, if any. *)
Definition idle_step (c : ascii) : option (lex_state * list token) :=
  let a := code c in
  if (a =? 32) || (a =? 9) || (a =? 10) || (a =? 13) then Some (LIdle, [])
  else if a =? 123 then Some (LIdle, [TLBrace])
  else if a =? 125 then Some (LIdle, [TRBrace])
  else if a =? 91 then Some (LIdle, [TLBrack])
  else if a =? 93 then Some (LIdle, [TRBrack])
  else if a =? 58 then Some (LIdle, [TColon])
  else if a =? 44 then Some (LIdle, [TComma])
  else if a =? 34 then Some (LString [], [])
  else if (a =? 45) || is_digit c then Some (LNumber [c], [])
  else if is_lower c then Some (LWord [c], [])
  else None.

Definition escape_step (acc : list sitem) (c : ascii) : option lex_state :=
  let a := code c in
  if (a =? 34) || (a =? 92) || (a =? 47) then Some (LString (SByte c :: acc))
  else if a =? 98 then Some (LString (SByte (byte 8) :: acc))
  else if a =? 102 then Some (LString (SByte (byte 12) :: acc))
  else if a =? 110 then Some (LString (SByte (byte 10) :: acc))
  else if a =? 114 then Some (LString (SByte (byte 13) :: acc))
  else if a =? 116 then Some (LString (SByte (byte 9) :: acc))
  else if a =? 117 then Some (LUnicode acc [])
  else None.

Definition lex_step (st : lex_state) (c : ascii) : option (lex_state * list token) :=
  match st with
  | LIdle => idle_step c
  | LNumber buf =>
      if is_number_char c then Some (LNumber (c :: buf), [])
      else match number_token buf, idle_step c with
           | Some t, Some (st', ts) => Some (st', t :: ts)
           | _, _ => None
           end
  | LWord buf =>
      if is_lower c then Some (LWord (c :: buf), [])
      else match word_token buf, idle_step c with
           | Some t, Some (st', ts) => Some (st', t :: ts)
           | _, _ => None
           end
  | LString acc =>
      if code c =? 34 then Some (LIdle, [TStr (of_chars (decode (List.rev acc)))])
      else if code c =? 92 then Some (LEscape acc, [])
      else if code c <? 32 then None
      else Some (LString (SByte c :: acc), [])
  | LEscape acc =>
      match escape_step acc c with
      | Some st' => Some (st', [])
      | None => None
      end
  | LUnicode acc hex =>
      match hex_val c with
      | Some d =>
          match hex with
          | [d2; d1; d0] => Some (LString (SUnit (((d0 * 16 + d1) * 16 + d2) * 16 + d) :: acc), [])
          | _ => Some (LUnicode acc (d :: hex), [])
          end
      | None => None
      end
  end.

Fixpoint lex (st : lex_state) (l : list ascii) : option (list token) :=
  match l with
  | [] =>
      match st with
      | LIdle => Some []
      | LNumber buf => match number_token buf with Some t => Some [t] | None => None end
      | LWord buf => match word_token buf with Some t => Some [t] | None => None end
      | _ => None
      end
  | c :: r =>
      match lex_step st c with
      | Some (st', ts) =>
          match lex st' r with
          | Some rest => Some (ts ++ rest)
          | None => None
          end
      | None => None
      end
  end.

(** The parser is a stack machine over the tokens.  A frame is a container
    under construction that waits for its next value. *)
Inductive frame :=
| FArr (acc : list JsVal)
| FObj (acc : list (string * JsVal)) (key : string).

Inductive parse_state :=
| PValue (stack : list frame)
| PArrFirst (stack : list frame)
| PObjFirst (stack : list frame)
| PArrNext (acc : list JsVal) (stack : list frame)
| PObjNext (acc : list (string * JsVal)) (stack : list frame)
| PKey (acc : list (string * JsVal)) (stack : list frame)
| PColon (acc : list (string * JsVal)) (key : string) (stack : list frame)
| PDone (v : JsVal).

(** A finished value goes to the frame waiting for it. *)
Definition plug (v : JsVal) (stack : list frame) : parse_state :=
  match stack with
  | [] => PDone v
  | FArr acc :: st => PArrNext (v :: acc) st
  | FObj acc k :: st => PObjNext ((k, v) :: acc) st
  end.

Definition value_step (stack : list frame) (t : token) : option parse_state :=
  match t with
  | TStr s => Some (plug (JStr s) stack)
  | TNum n => Some (plug (JNum n) stack)
  | TTrue => Some (plug (JBool true) stack)
  | TFalse => Some (plug (JBool false) stack)
  | TNull => Some (plug JNull stack)
  | TLBrack => Some (PArrFirst stack)
  | TLBrace => Some (PObjFirst stack)
  | _ => None
  end.

Definition parse_step (st : parse_state) (t : token) : option parse_state :=
  match st with
  | PValue stack => value_step stack t
  | PArrFirst stack =>
      match t with
      | TRBrack => Some (plug (JArr []) stack)
      | _ => value_step (FArr [] :: stack) t
      end
  | PObjFirst stack =>
      match t with
      | TRBrace => Some (plug (JObj []) stack)
      | TStr k => Some (PColon [] k stack)
      | _ => None
      end
  | PArrNext acc stack =>
      match t with
      | TComma => Some (PValue (FArr acc :: stack))
      | TRBrack => Some (plug (JArr (List.rev acc)) stack)
      | _ => None
      end
  | PObjNext acc stack =>
      match t with
      | TComma => Some (PKey acc stack)
      | TRBrace => Some (plug (JObj (List.rev acc)) stack)
      | _ => None
      end
  | PKey acc stack =>
      match t with
      | TStr k => Some (PColon acc k stack)
      | _ => None
      end
  | PColon acc k stack =>
      match t with
      | TColon => Some (PValue (FObj acc k :: stack))
      | _ => None
      end
  | PDone _ => None
  end.

Fixpoint parse_tokens (st : parse_state) (ts : list token) : option JsVal :=
  match ts with
  | [] => match st with PDone v => Some v | _ => None end
  | t :: r =>
      match parse_step st t with
      | Some st' => parse_tokens st' r
      | None => None
      end
  end.

(** [JSON.parse(text)]: the value, or a SyntaxError. *)
Definition parse (text : string) : completion JsVal :=
  match lex LIdle (chars text) with
  | Some ts =>
      match parse_tokens (PValue []) ts with
      | Some v => Normal v
      | None => Throw
      end
  | None => Throw
  end.

End Json.

(** ** Records of the plugin *)

(** The detection built by [parsePayload]. *)
Module Detection.
Record t := mk {
  name : string;
  confidence : option float;
  imageUrl : option string;
  occurrence : option float;
  detectionDate : option string
}.
End Detection.

(** A record of today's species map.  A field that is [null] or [undefined]
    in the program is [None]: the program only asks such a field whether it
    is a number, or uses it on the left of [??]. *)
Module Bird.
Record t := mk {
  name : string;
  occurrence : option float;
  confidence : option float;
  lastSeen : Z
}.
End Bird.

(** The settings object: [DEFAULTS] overlaid with what the host delivers.
    Only the fields read by the pipeline appear.  The property inspector
    stores strings, numbers and booleans; a field is any primitive value
    here (an array or an object as a setting is not modelled). *)
Record Settings := {
  payloadKey : Scalar;
  rotationSeconds : Scalar;
  epicOccurrenceThreshold : Scalar;
  rareOccurrenceThreshold : Scalar;
  uncommonOccurrenceThreshold : Scalar;
  rareHoldMultiplier : Scalar
}.

Module DEFAULTS.
Definition payloadKey : string := "CommonName".
Definition rotationSeconds : float := 4%float.
Definition epicOccurrenceThreshold : float := 0.1%float.
Definition rareOccurrenceThreshold : float := 0.4%float.
Definition uncommonOccurrenceThreshold : float := 0.7%float.
Definition rareHoldMultiplier : float := 2%float.
End DEFAULTS.

(** [{ ...DEFAULTS }], the settings before the host delivers any. *)
Definition default_settings : Settings := {|
  payloadKey := SStr DEFAULTS.payloadKey;
  rotationSeconds := SNum DEFAULTS.rotationSeconds;
  epicOccurrenceThreshold := SNum DEFAULTS.epicOccurrenceThreshold;
  rareOccurrenceThreshold := SNum DEFAULTS.rareOccurrenceThreshold;
  uncommonOccurrenceThreshold := SNum DEFAULTS.uncommonOccurrenceThreshold;
  rareHoldMultiplier := SNum DEFAULTS.rareHoldMultiplier
|}.

(** The two clock reads of the program: [Date.now()] in milliseconds and
    [new Date().toISOString().slice(0, 10)]. *)
Record Clock := { Date_now : Z; todayKey : string }.

(** The tiers of [getCommonality] with their colour and glyph. *)
Inductive Label := Unknown | Common | Uncommon | Rare | Epic.

Record Commonality := { label : Label; color : string; shape : string }.

(** A JavaScript [Map] whose iteration order is observed: the entries in
    insertion order, one per key. *)
Module OrderedMap.
Section Ops.
Context {V : Type}.

Fixpoint get (m : list (string * V)) (k : string) : option V :=
  match m with
  | [] => None
  | (k', v) :: r => if String.eqb k' k then Some v else get r k
  end.

(** [set] keeps the position of a key already present and appends a
    new one. *)
Fixpoint set (m : list (string * V)) (k : string) (v : V) : list (string * V) :=
  match m with
  | [] => [(k, v)]
  | (k', v') :: r => if String.eqb k' k then (k, v) :: r else (k', v') :: set r k v
  end.

Definition values (m : list (string * V)) : list V := List.map snd m.
Definition keys (m : list (string * V)) : list string := List.map fst m.
End Ops.
End OrderedMap.

(** [Array.prototype.sort(comparefn)]: a stable sort; [a] goes after [b]
    exactly when [comparefn(a, b) > 0] (a [NaN] result counts as [0]). *)
Module JsArray.
Section Sort.
Context {A : Type} (comparefn : A -> A -> float).

Fixpoint insert (x : A) (l : list A) : list A :=
  match l with
  | [] => [x]
  | y :: r => if JsNum.lt 0%float (comparefn x y) then y :: insert x r else x :: l
  end.

Definition sort (l : list A) : list A := fold_right insert [] l.
End Sort.
End JsArray.

(** What a tile is asked to show.  [formatTitle] lays the trimmed name out on
    up to three lines for the renderer; the layout is not modelled, the
    display keeps the text that is laid out. *)
Record Display := {
  text : string;
  shown_confidence : option float;
  count : nat;
  shown_occurrence : option float;
  rare : bool
}.

Inductive Output :=
| setTitle (context : string) (title : string)
| setImageTitle (context : string) (display : Display) (variant : string).

(** Rotation state of one context.  [timer] is the pending timeout, known
    by the delay it was armed with; [_lastRareHold] is absent, hence falsy,
    until the first tick. *)
Record RotationState := {
  index : nat;
  timer : option float;
  _lastRareHold : bool
}.

(** The module-level state the pipeline works on. *)
Record World := {
  settings : Settings;
  detectionTimestamps : list Z;
  dailyBirds : gmap string (list (string * Bird.t));
  cacheSaveTimer : bool;
  rotationState : gmap string RotationState
}.

(** ** Host functions outside the model *)

(** [Number.prototype.toString], reached through [String(value)]. *)
Class Host := { Number_toString : float -> string }.

Section Program.
Context `{Host}.
Import JsStr.

(** *** Conversions *)

Definition join (sep : string) (l : list string) : string :=
  match l with
  | [] => EmptyString
  | x :: r => fold_left (fun acc y => String.append (String.append acc sep) y) r x
  end.

Fixpoint sequence {A} (l : list (completion A)) : completion (list A) :=
  match l with
  | [] => Normal []
  | c :: r => x ← c; xs ← sequence r; Normal (x :: xs)
  end.

(** [String(v)].  An array joins its elements with commas, [null] and
    [undefined] elements giving the empty string.  An object gives
    ["[object Object]"], unless it has an own property [toString]: that
    property, which is no function, hides [Object.prototype.toString] and
    the conversion throws a TypeError. *)
Fixpoint String_ (v : JsVal) : completion string :=
  match v with
  | JUndefined => Normal "undefined"
  | JNull => Normal "null"
  | JBool b => Normal (if b then "true" else "false")
  | JNum n => Normal (Number_toString n)
  | JStr s => Normal s
  | JArr elems =>
      parts ← sequence (List.map (fun e => match e with
                                           | JUndefined | JNull => Normal EmptyString
                                           | _ => String_ e
                                           end) elems);
      Normal (join "," parts)
  | JObj props => if Js.has_own props "toString" then Throw else Normal "[object Object]"
  end.

(** [Number(x) || d]. *)
Definition number_or (x : Scalar) (d : float) : float :=
  if JsNum.truthy (Js.Number_ x) then Js.Number_ x else d.

(** [Number.isFinite(Number(x)) ? Number(x) : d]. *)
Definition finite_or (x : Scalar) (d : float) : float :=
  if JsNum.isFinite (Js.Number_ x) then Js.Number_ x else d.

(** *** Payload normalizer *)

Fixpoint walk_path (parts : list string) (current : JsVal) : completion JsVal :=
  match parts with
  | [] => Normal current
  | part :: rest =>
      if negb (Js.truthy current) || negb (Js.typeof_object current)
      then Normal JUndefined
      else next ← Js.get current part; walk_path rest next
  end.

(** [getJsonPath(obj, path)].  [path] is [settings.payloadKey]; when it is
    not a string, [path.split] is not a function and the call throws. *)
Definition getJsonPath (obj : JsVal) (path : Scalar) : completion JsVal :=
  match path with
  | SStr p => walk_path (List.filter nonempty (List.map trim (split "." p))) obj
  | _ => Throw
  end.

(** [json[outer] && (json[outer][k1] || json[outer][k2])]. *)
Definition nested_either (json : JsVal) (outer k1 k2 : string) : completion JsVal :=
  o ← Js.get json outer;
  Js.and_then o (a ← Js.get o k1; Js.or_else a (Js.get o k2)).

(** The common tail of [extractConfidence] and [extractOccurrence]. *)
Definition numeric_field (value : JsVal) : option float :=
  match value with
  | JNum n => Some n
  | JStr s =>
      let parsed := Js.StringToNumber s in
      if JsNum.isNaN parsed then None else Some parsed
  | _ => None
  end.

Definition extractConfidence (json : JsVal) : completion (option float) :=
  if negb (Js.truthy json) || negb (Js.typeof_object json) then Normal None
  else
    a ← Js.get json "Confidence";
    value ← Js.coalesce a
               (b ← Js.get json "confidence";
                Js.coalesce b
                  (c ← nested_either json "attributes" "confidence" "Confidence";
                   Js.coalesce c (nested_either json "event" "confidence" "Confidence")));
    Normal (numeric_field value).

(** The common tail of [extractImageUrl] and [extractDate]. *)
Definition trimmed_string (value : JsVal) : option string :=
  match value with
  | JStr s => if nonempty (trim s) then Some (trim s) else None
  | _ => None
  end.

Definition extractImageUrl (json : JsVal) : completion (option string) :=
  if negb (Js.truthy json) || negb (Js.typeof_object json) then Normal None
  else
    bi ← Js.get json "BirdImage";
    u1 ← Js.and_then bi
            (a ← Js.get bi "URL";
             Js.or_else a (b ← Js.get bi "Url"; Js.or_else b (Js.get bi "url")));
    url ← Js.or_else u1
             (bi' ← Js.get json "birdImage";
              u2 ← Js.and_then bi' (a ← Js.get bi' "URL"; Js.or_else a (Js.get bi' "url"));
              Js.or_else u2
                (c ← Js.get json "imageUrl";
                 Js.or_else c
                   (d ← Js.get json "image_url";
                    Js.or_else d (Js.get json "image"))));
    Normal (trimmed_string url).

Definition extractOccurrence (json : JsVal) : completion (option float) :=
  if negb (Js.truthy json) || negb (Js.typeof_object json) then Normal None
  else
    a ← Js.get json "occurrence";
    value ← Js.coalesce a (Js.get json "Occurrence");
    Normal (numeric_field value).

Definition extractDate (json : JsVal) : completion (option string) :=
  if negb (Js.truthy json) || negb (Js.typeof_object json) then Normal None
  else
    a ← Js.get json "Date";
    value ← Js.or_else a (Js.get json "date");
    Normal (trimmed_string value).

(** The property names tried in order by the heuristic of [parsePayload]. *)
Definition name_aliases : list string :=
  ["CommonName"; "ScientificName"; "SpeciesCode"; "common_name"; "commonName";
   "species"; "scientific_name"; "scientificName"; "label"; "name"; "bird_name";
   "detection"].

Fixpoint get_all (json : JsVal) (ks : list string) : completion (list JsVal) :=
  match ks with
  | [] => Normal []
  | k :: r => v ← Js.get json k; vs ← get_all json r; Normal (v :: vs)
  end.

(** The [candidates] array. *)
Definition candidates (json : JsVal) : completion (list JsVal) :=
  direct ← get_all json name_aliases;
  fromAttributes ← nested_either json "attributes" "common_name" "species";
  fromEvent ← nested_either json "event" "common_name" "species";
  results ← Js.get json "results";
  fromResults ←
    (if Js.isArray results
     then first ← Js.get results "0";
          Js.and_then first
            (a ← Js.get first "common_name"; Js.or_else a (Js.get first "species"))
     else Normal (JBool false));
  Normal (direct ++ [fromAttributes; fromEvent; fromResults]).

(** [typeof value === "string" && value.trim().length > 0]. *)
Definition usable_name (value : JsVal) : bool :=
  match value with
  | JStr s => nonempty (trim s)
  | _ => false
  end.

(** The first [try] block of [parsePayload]: the configured field path. *)
Definition by_payloadKey (s : Settings) (text : string) : completion (option Detection.t) :=
  json ← Json.parse text;
  value ← getJsonPath json (payloadKey s);
  if Js.truthy value then
    confidence ← extractConfidence json;
    imageUrl ← extractImageUrl json;
    occurrence ← extractOccurrence json;
    detectionDate ← extractDate json;
    name ← String_ value;
    Normal (Some (Detection.mk name confidence imageUrl occurrence detectionDate))
  else Normal None.

(** The second [try] block: the well-known aliases. *)
Definition by_aliases (text : string) : completion (option Detection.t) :=
  json ← Json.parse text;
  confidence ← extractConfidence json;
  imageUrl ← extractImageUrl json;
  occurrence ← extractOccurrence json;
  detectionDate ← extractDate json;
  cs ← candidates json;
  match List.find usable_name cs with
  | Some (JStr found) =>
      Normal (Some (Detection.mk found confidence imageUrl occurrence detectionDate))
  | _ => Normal None
  end.

(** [parsePayload(payload)]; [payload] is the message body as text. *)
Definition parsePayload (s : Settings) (payload : string) : option Detection.t :=
  let text := trim payload in
  if negb (nonempty text) then None
  else
    match (if Js.scalar_truthy (payloadKey s) then try_catch (by_payloadKey s text) else None) with
    | Some d => Some d
    | None =>
        match try_catch (by_aliases text) with
        | Some d => Some d
        | None => Some (Detection.mk text None None None None)
        end
    end.

(** *** Rolling counter *)

Definition hour_ms : Z := 60 * 60 * 1000.

(** The loop of [pruneDetections]: shift while the head is older than the
    cutoff. *)
Fixpoint pruneDetections (now : Z) (ts : list Z) : list Z :=
  match ts with
  | [] => []
  | t :: r => if t <? now - hour_ms then pruneDetections now r else ts
  end.

Definition recordDetection (now : Z) (ts : list Z) : list Z :=
  pruneDetections now (ts ++ [now]).

(** [getDetectionsLastHour()]: the pruned array and its length. *)
Definition getDetectionsLastHour (now : Z) (ts : list Z) : list Z * nat :=
  let ts' := pruneDetections now ts in (ts', length ts').

(** *** Rarity classifier *)

Definition epicCutoff (s : Settings) : float :=
  JsNum.Math_max 0%float
    (JsNum.Math_min 1%float (finite_or (epicOccurrenceThreshold s) DEFAULTS.epicOccurrenceThreshold)).

Definition rareCutoff (s : Settings) : float :=
  JsNum.Math_max (epicCutoff s)
    (JsNum.Math_min 1%float (finite_or (rareOccurrenceThreshold s) DEFAULTS.rareOccurrenceThreshold)).

Definition uncommonCutoff (s : Settings) : float :=
  JsNum.Math_max (rareCutoff s)
    (JsNum.Math_min 1%float
       (finite_or (uncommonOccurrenceThreshold s) DEFAULTS.uncommonOccurrenceThreshold)).

(** [getCommonality(occurrence)]; the argument is a number or absent. *)
Definition getCommonality (s : Settings) (occurrence : option float) : Commonality :=
  match occurrence with
  | None => {| label := Unknown; color := "#9ca3af"; shape := "hex" |}
  | Some o =>
      if JsNum.isNaN o then {| label := Unknown; color := "#9ca3af"; shape := "hex" |}
      else if JsNum.le o (epicCutoff s) then {| label := Epic; color := "#7c3aed"; shape := "star" |}
      else if JsNum.le o (rareCutoff s) then {| label := Rare; color := "#f59e0b"; shape := "diamond" |}
      else if JsNum.le o (uncommonCutoff s)
           then {| label := Uncommon; color := "#38bdf8"; shape := "square" |}
      else {| label := Common; color := "#22c55e"; shape := "circle" |}
  end.

(** *** Daily aggregate *)

(** [scheduleCacheSave()]: arm the save timer unless one is pending. *)
Definition scheduleCacheSave (w : World) : World :=
  if cacheSaveTimer w then w
  else {| settings := settings w;
          detectionTimestamps := detectionTimestamps w;
          dailyBirds := dailyBirds w;
          cacheSaveTimer := true;
          rotationState := rotationState w |}.

Definition with_dailyBirds (w : World) (db : gmap string (list (string * Bird.t))) : World :=
  {| settings := settings w;
     detectionTimestamps := detectionTimestamps w;
     dailyBirds := db;
     cacheSaveTimer := cacheSaveTimer w;
     rotationState := rotationState w |}.

(** [pruneOldDays(todayKey)]: delete every key other than [todayKey]. *)
Definition pruneOldDays (todayKey : string) (db : gmap string (list (string * Bird.t)))
  : gmap string (list (string * Bird.t)) :=
  filter (fun kv => fst kv = todayKey) db.

(** [detection.detectionDate || new Date().toISOString().slice(0, 10)]. *)
Definition dateKey_of (clock : Clock) (detection : Detection.t) : string :=
  match Detection.detectionDate detection with
  | Some d => if nonempty d then d else todayKey clock
  | None => todayKey clock
  end.

(** The record written for a detection, given the record already stored
    for that name ([dayMap.get(key) || {}]). *)
Definition merged_record (clock : Clock) (detection : Detection.t) (existing : option Bird.t)
  : Bird.t :=
  let existing_occurrence := match existing with Some e => Bird.occurrence e | None => None end in
  let existing_confidence := match existing with Some e => Bird.confidence e | None => None end in
  let occurrence :=
    match Detection.occurrence detection with
    | Some o => Some o
    | None => existing_occurrence
    end in
  let confidence :=
    match Detection.confidence detection with
    | Some c => Some c
    | None => existing_confidence
    end in
  {| Bird.name := Detection.name detection;
     Bird.occurrence :=
       match occurrence with
       | Some o => Some (JsNum.Math_min o (match existing_occurrence with
                                           | Some e => e
                                           | None => o
                                           end))
       | None => None
       end;
     Bird.confidence := confidence;
     Bird.lastSeen := Date_now clock |}.

Definition updateDailyBirds (clock : Clock) (detection : Detection.t) (w : World) : World :=
  let dateKey := dateKey_of clock detection in
  let db1 :=
    match dailyBirds w !! dateKey with
    | Some _ => dailyBirds w
    | None => <[dateKey := []]> (dailyBirds w)
    end in
  let dayMap := default [] (db1 !! dateKey) in
  let key := Detection.name detection in
  if negb (nonempty key) then with_dailyBirds w db1
  else
    let record := merged_record clock detection (OrderedMap.get dayMap key) in
    let db2 := <[dateKey := OrderedMap.set dayMap key record]> db1 in
    scheduleCacheSave (with_dailyBirds w (pruneOldDays dateKey db2)).

(** The comparator of [getTodayBirds]: a missing occurrence sorts as 1. *)
Definition occ_key (b : Bird.t) : float :=
  match Bird.occurrence b with Some o => o | None => 1%float end.

Definition by_occurrence (a b : Bird.t) : float :=
  PrimFloat.sub (occ_key a) (occ_key b).

Definition getTodayBirds (clock : Clock) (w : World) : list Bird.t :=
  match dailyBirds w !! todayKey clock with
  | None => []
  | Some dayMap => JsArray.sort by_occurrence (OrderedMap.values dayMap)
  end.

(** *** Rotation *)

(** Without the line layout, [formatTitle] keeps the trimmed name, drops a
    [NaN] confidence or occurrence, and sets [rare] by comparing the
    occurrence with the configured threshold. *)
Definition not_NaN (x : option float) : option float :=
  match x with
  | Some v => if JsNum.isNaN v then None else Some v
  | None => None
  end.

Definition formatTitle (s : Settings) (name : string) (confidence : option float)
           (n : nat) (occurrence : option float) : Display :=
  {| text := trim name;
     shown_confidence := not_NaN confidence;
     count := n;
     shown_occurrence := not_NaN occurrence;
     rare := match not_NaN occurrence with
             | Some o => JsNum.le o (Js.Number_ (rareOccurrenceThreshold s))
             | None => false
             end |}.

Definition with_rotation (w : World) (ts : list Z) (rs : gmap string RotationState) : World :=
  {| settings := settings w;
     detectionTimestamps := ts;
     dailyBirds := dailyBirds w;
     cacheSaveTimer := cacheSaveTimer w;
     rotationState := rs |}.

(** The delay computed at the end of [rotateOnce]. *)
Definition delayMs (s : Settings) (lastRareHold : bool) : float :=
  let seconds := number_or (rotationSeconds s) DEFAULTS.rotationSeconds in
  let holdMultiplier := number_or (rareHoldMultiplier s) DEFAULTS.rareHoldMultiplier in
  JsNum.Math_max 1%float
    (PrimFloat.mul (PrimFloat.mul seconds 1000%float)
                   (if lastRareHold then holdMultiplier else 1%float)).

(** The placeholder title: [Waiting], a line feed, three dots. *)
Definition waiting_title : string :=
  String.append "Waiting" (String (ascii_of_nat 10) "...").

(** [rotateOnce(context)]: the display calls made and the state left. *)
Definition rotateOnce (clock : Clock) (context : string) (w : World) : World * list Output :=
  match rotationState w !! context with
  | None => (w, [])
  | Some state =>
      let birds := getTodayBirds clock w in
      let '(idx, hold, ts, out) :=
        match birds with
        | [] => (index state, false, detectionTimestamps w, [setTitle context waiting_title])
        | first :: _ =>
            let i := if (length birds <=? index state)%nat then 0%nat else index state in
            let bird := nth i birds first in
            let '(ts, n) := getDetectionsLastHour (Date_now clock) (detectionTimestamps w) in
            let display :=
              formatTitle (settings w) (Bird.name bird) (Bird.confidence bird) n
                          (Bird.occurrence bird) in
            let threshold :=
              number_or (rareOccurrenceThreshold (settings w)) DEFAULTS.rareOccurrenceThreshold in
            let hold :=
              match Bird.occurrence bird with
              | Some o => JsNum.le o threshold
              | None => false
              end in
            (S i, hold, ts, [setImageTitle context display "today"])
        end in
      let state' := {| index := idx;
                       timer := Some (delayMs (settings w) hold);
                       _lastRareHold := hold |} in
      (with_rotation w ts (<[context := state']> (rotationState w)), out)
  end.

(** [startRotation(context, immediate)]. *)
Definition startRotation (clock : Clock) (context : string) (immediate : bool) (w : World)
  : World * list Output :=
  if negb (nonempty context) then (w, [])
  else
    let state :=
      match rotationState w !! context with
      | Some st => st
      | None => {| index := 0; timer := None; _lastRareHold := false |}
      end in
    let cleared := {| index := index state; timer := None; _lastRareHold := _lastRareHold state |} in
    if immediate then
      rotateOnce clock context
        (with_rotation w (detectionTimestamps w) (<[context := cleared]> (rotationState w)))
    else
      let armed := {| index := index state; timer := Some 50%float;
                      _lastRareHold := _lastRareHold state |} in
      (with_rotation w (detectionTimestamps w) (<[context := armed]> (rotationState w)), []).

(** [stopRotation(context)]. *)
Definition stopRotation (context : string) (w : World) : World :=
  with_rotation w (detectionTimestamps w) (delete context (rotationState w)).

(** *** Image cache *)

(** How a promise settled. *)
Inductive Settled :=
| Fulfilled (dataUri : string)
| Rejected (reason : string).

(** What the network answers to [fetch(url)]: the request fails; or a
    response arrives, whose body is read ([base64] is the base64 text of
    its bytes) or fails to be read. *)
Inductive Body :=
| Bytes (base64 : string)
| BodyError (reason : string).

Inductive Response :=
| NetworkError (reason : string)
| Http (ok : bool) (status : string) (contentType : option string) (body : Body).

(** The two maps of the cache and the promises around them: [requests]
    lists the calls made to [fetch], oldest first; a promise is a number
    and [settled] records how it settled. *)
Record ImageState := {
  imageCache : gmap string string;
  imageInFlight : gmap string nat;
  requests : list string;
  settled : gmap nat Settled;
  next_promise : nat
}.

(** A new promise that is already settled ([Promise.resolve],
    [Promise.reject]). *)
Definition settled_promise (r : Settled) (st : ImageState) : nat * ImageState :=
  (next_promise st,
   {| imageCache := imageCache st;
      imageInFlight := imageInFlight st;
      requests := requests st;
      settled := <[next_promise st := r]> (settled st);
      next_promise := S (next_promise st) |}).

(** [fetchImageData(url)]: the promise returned.  [fetch_available] is
    [typeof fetch === "function"]. *)
Definition fetchImageData (fetch_available : bool) (url : string) (st : ImageState)
  : nat * ImageState :=
  match imageCache st !! url with
  | Some dataUri => settled_promise (Fulfilled dataUri) st
  | None =>
      match imageInFlight st !! url with
      | Some promise => (promise, st)
      | None =>
          if negb fetch_available then settled_promise (Rejected "fetch not available") st
          else
            (next_promise st,
             {| imageCache := imageCache st;
                imageInFlight := <[url := next_promise st]> (imageInFlight st);
                requests := requests st ++ [url];
                settled := settled st;
                next_promise := S (next_promise st) |})
      end
  end.

(** The [then] callbacks of [fetchImageData] on a response: the data URI
    to cache and fulfil with, or the reason of the rejection. *)
Definition on_response (r : Response) : Settled :=
  match r with
  | NetworkError reason => Rejected reason
  | Http ok status contentType body =>
      if negb ok then Rejected (String.append "http " status)
      else
        match body with
        | BodyError reason => Rejected reason
        | Bytes base64 =>
            let contentType :=
              match contentType with
              | Some c => if nonempty c then c else "image/jpeg"
              | None => "image/jpeg"
              end in
            Fulfilled (String.append "data:"
                         (String.append contentType (String.append ";base64," base64)))
        end
  end.

(** The request in flight for [url] completes with response [r]: on
    success the data URI is cached; in every case the [finally] callback
    deletes the in-flight entry and the promise settles. *)
Definition settle (url : string) (r : Response) (st : ImageState) : ImageState :=
  match imageInFlight st !! url with
  | None => st
  | Some promise =>
      let outcome := on_response r in
      {| imageCache :=
           match outcome with
           | Fulfilled dataUri => <[url := dataUri]> (imageCache st)
           | Rejected _ => imageCache st
           end;
         imageInFlight := delete url (imageInFlight st);
         requests := requests st;
         settled := <[promise := outcome]> (settled st);
         next_promise := next_promise st |}
  end.

(** Calls and completions as they interleave on the event loop. *)
Inductive ImageEvent :=
| Call (url : string)
| Settle (url : string) (r : Response).

Definition image_step (fetch_available : bool) (st : ImageState) (e : ImageEvent) : ImageState :=
  match e with
  | Call url => snd (fetchImageData fetch_available url st)
  | Settle url r => settle url r st
  end.

Definition image_run (fetch_available : bool) (st : ImageState) (es : list ImageEvent)
  : ImageState :=
  fold_left (image_step fetch_available) es st.

End Program.

(** ** A host *)

(** [Number.prototype.toString] as ECMAScript defines it: the shortest
    decimal digits [s] (with [k] digits) and the exponent [n] such that
    [s * 10^(n-k)] reads back as the number, laid out in positional or in
    exponent notation. *)
Module NodeHost.

(** Is [num/den < 10^n]? *)
Definition below_pow10 (num den n : Z) : bool :=
  if 0 <=? n then num <? 10 ^ n * den else num * 10 ^ (- n) <? den.

(** The least [n] in [lo, lo + fuel) with [num/den < 10^n]. *)
Fixpoint find_exponent (fuel : nat) (num den n : Z) : Z :=
  match fuel with
  | O => n
  | S f => if below_pow10 num den n then n else find_exponent f num den (n + 1)
  end.

(** The [k]-digit candidates next to [num/den * 10^(k-n)] that read back as
    [x], the nearer first. *)
Definition candidates (x : float) (num den n k : Z) : list (Z * Z) :=
  let sh := k - n in
  let '(a, b) := if 0 <=? sh then (num * 10 ^ sh, den) else (num, den * 10 ^ (- sh)) in
  let lo := a / b in
  let r := a mod b in
  let norm s := if s =? 10 ^ k then (10 ^ (k - 1), n + 1) else (s, n) in
  let reads s := let '(s', n') := norm s in
                 PrimFloat.Leibniz.eqb (JsNum.of_decimal false s' (n' - k)) x in
  let first_hi := (b <? 2 * r) || ((b =? 2 * r) && Z.odd lo) in
  let order := if first_hi then [lo + 1; lo] else [lo; lo + 1] in
  List.map norm (List.filter reads order).

Fixpoint shortest (fuel : nat) (x : float) (num den n k : Z) : Z * Z * Z :=
  match fuel with
  | O => (0, 1, n)
  | S f =>
      match candidates x num den n k with
      | (s, n') :: _ => (s, k, n')
      | [] => shortest f x num den n (k + 1)
      end
  end.

Definition digits (z : Z) : string :=
  DecimalString.NilZero.string_of_uint (N.to_uint (Z.to_N z)).

Fixpoint zeros (n : nat) : string :=
  match n with O => EmptyString | S m => String "0" (zeros m) end.

Definition layout (s k n : Z) : string :=
  let ds := digits s in
  if (k <=? n) && (n <=? 21) then String.append ds (zeros (Z.to_nat (n - k)))
  else if (0 <? n) && (n <=? 21) then
    String.append (substring 0 (Z.to_nat n) ds)
      (String.append "." (substring (Z.to_nat n) (Z.to_nat (k - n)) ds))
  else if (-6 <? n) && (n <=? 0) then
    String.append "0." (String.append (zeros (Z.to_nat (- n))) ds)
  else
    let e := n - 1 in
    let exp := String.append (if 0 <=? e then "e+" else "e-") (digits (Z.abs e)) in
    if k =? 1 then String.append ds exp
    else String.append (substring 0 1 ds)
           (String.append "." (String.append (substring 1 (Z.to_nat (k - 1)) ds) exp)).

Definition Number_toString (x : float) : string :=
  match Prim2SF x with
  | S754_nan => "NaN"
  | S754_zero _ => "0"
  | S754_infinity s => if s then "-Infinity" else "Infinity"
  | S754_finite sg m e =>
      let '(num, den) := if 0 <=? e then (Z.pos m * 2 ^ e, 1) else (Z.pos m, 2 ^ (- e)) in
      let guess := ((Z.log2 (Z.pos m) + e) * 30103) / 100000 - 2 in
      let n := find_exponent 8 num den guess in
      let '(s, k, n') := shortest 17 (PrimFloat.abs x) num den n 1 in
      String.append (if sg then "-" else EmptyString) (layout s k n')
  end.

Definition host : Host := Build_Host Number_toString.

End NodeHost.

(** ** Runs of the components *)

Section Runs.
Import JsStr.

(** *** The rolling counter over a history of calls *)

Inductive CounterCall :=
| record_at (now : Z)
| count_at (now : Z).

Definition call_time (c : CounterCall) : Z :=
  match c with record_at t => t | count_at t => t end.

Definition counter_step (ts : list Z) (c : CounterCall) : list Z :=
  match c with
  | record_at t => recordDetection t ts
  | count_at t => fst (getDetectionsLastHour t ts)
  end.

(** The array after the calls, starting from the empty array. *)
Definition counter_run (calls : list CounterCall) : list Z :=
  fold_left counter_step calls [].

(** The timestamps recorded by the calls, oldest first. *)
Definition recorded (calls : list CounterCall) : list Z :=
  flat_map (fun c => match c with record_at t => [t] | count_at _ => [] end) calls.

Definition nondecreasing (l : list Z) : Prop := StronglySorted Z.le l.

(** How many timestamps lie in the closed interval [[t - 1h, t]]. *)
Definition in_last_hour (t : Z) (l : list Z) : nat :=
  length (List.filter (fun r => (t - hour_ms <=? r) && (r <=? t)) l).

(** The window as the specification words it: the half-open interval
    [(t - 3,600,000, t]]. *)
Definition in_half_open_hour (t : Z) (l : list Z) : nat :=
  length (List.filter (fun r => (t - hour_ms <? r) && (r <=? t)) l).

Definition rolling_window_as_specified (calls : list CounterCall) (t : Z) : Prop :=
  nondecreasing (List.map call_time calls ++ [t]) ->
  snd (getDetectionsLastHour t (counter_run calls)) = in_half_open_hour t (recorded calls).

(** The array is always a suffix of what was recorded; what is missing was
    older than an hour at some earlier call. *)
Definition counter_inv (calls : list CounterCall) (ts : list Z) : Prop :=
  exists old,
    recorded calls = old ++ ts /\
    forall t, Forall (fun c => c <= t) (List.map call_time calls) ->
              Forall (fun x => x < t - hour_ms) old.

(** *** The rarity tiers in order *)

Definition rarity_rank (l : Label) : nat :=
  match l with
  | Unknown | Common => 0
  | Uncommon => 1
  | Rare => 2
  | Epic => 3
  end.

(** *** The daily aggregate *)

(** The record stored for [name] under [dateKey]. *)
Definition stored (w : World) (dateKey name : string) : option Bird.t :=
  match dailyBirds w !! dateKey with
  | Some dayMap => OrderedMap.get dayMap name
  | None => None
  end.

(** The occurrence stored for [name] under [dateKey]; [None] when there is
    no record or the record has no occurrence. *)
Definition stored_occurrence (w : World) (dateKey name : string) : option float :=
  match stored w dateKey name with
  | Some b => Bird.occurrence b
  | None => None
  end.

(** *** Consecutive ticks of one context *)

Fixpoint run_ticks (clocks : list Clock) (context : string) (w : World) : World * list Output :=
  match clocks with
  | [] => (w, [])
  | clock :: rest =>
      let '(w1, out1) := rotateOnce clock context w in
      let '(w2, out2) := run_ticks rest context w1 in
      (w2, out1 ++ out2)
  end.

(** The tile update that shows bird [b], whatever the rolling count is. *)
Definition shows (s : Settings) (context : string) (out : Output) (b : Bird.t) : Prop :=
  exists n, out = setImageTitle context
                    (formatTitle s (Bird.name b) (Bird.confidence b) n (Bird.occurrence b))
                    "today".

(** Where a tick starts reading the list: the stored index, wrapped to 0
    when it has reached the length. *)
Definition start_index (state : RotationState) (n : nat) : nat :=
  if (n <=? index state)%nat then 0%nat else index state.

(** The list read cyclically from position [k]. *)
Definition rotate_from (k : nat) (birds : list Bird.t) : list Bird.t :=
  skipn k birds ++ firstn k birds.

(** Ascending order of occurrence, a missing occurrence counting as 1. *)
Definition occ_le (a b : Bird.t) : Prop := JsNum.le (occ_key a) (occ_key b) = true.

(** The bird shown by tick [j] when the first tick starts at position [k]. *)
Definition cycle (birds : list Bird.t) (first : Bird.t) (k : nat) (ticks : nat) : list Bird.t :=
  List.map (fun j => nth ((k + j) mod length birds) birds first) (seq 0 ticks).

Definition ascending (keys : list float) : Prop :=
  StronglySorted (fun a b => JsNum.le a b = true) keys.

Definition shown_text (o : Output) : string :=
  match o with
  | setImageTitle _ d _ => text d
  | setTitle _ t => t
  end.

Definition shown_key (o : Output) : float :=
  match o with
  | setImageTitle _ d _ => match shown_occurrence d with Some x => x | None => 1%float end
  | setTitle _ _ => 1%float
  end.

(** The cycle as the specification words it: the first [N] ticks show every
    species once, in ascending order of occurrence, and tick [N+1] shows
    what the first tick showed. *)
Definition rotation_cycle_as_specified (clock : Clock) (context : string) (w : World) : Prop :=
  let birds := getTodayBirds clock w in
  let n := length birds in
  (1 <= n)%nat ->
  is_Some (rotationState w !! context) ->
  let outs := snd (run_ticks (repeat clock (S n)) context w) in
  Permutation (List.map shown_text (firstn n outs))
              (List.map (fun b => trim (Bird.name b)) birds)
  /\ ascending (List.map shown_key (firstn n outs))
  /\ option_map shown_text (nth_error outs n) = option_map shown_text (nth_error outs 0).



(** *** Histories of the image cache *)

(** An event that is not the completion of the request for [url]. *)
Definition not_settling (url : string) (e : ImageEvent) : Prop :=
  match e with
  | Call _ => True
  | Settle u _ => u <> url
  end.

(** How often [fetch] was called for [url]. *)
Definition requests_for (url : string) (st : ImageState) : nat :=
  count_occ string_dec (requests st) url.

End Runs.

(** ** Sample data *)

Module Sample.

(** A JSON text written with apostrophes in place of double quotes. *)
Definition json (s : string) : string :=
  JsStr.of_chars (List.map (fun c => if Ascii.eqb c "'"%char then ascii_of_nat 34 else c)
                           (JsStr.chars s)).

Definition blue_jay_payload : string :=
  json "{'CommonName':'Blue Jay','Confidence':0.87,'occurrence':0.05}".

Definition clock : Clock := {| Date_now := 1700000000000; todayKey := "2023-11-14" |}.

Definition bird (name : string) (occurrence : float) : Bird.t :=
  {| Bird.name := name; Bird.occurrence := Some occurrence;
     Bird.confidence := Some 0.9%float; Bird.lastSeen := 1700000000000 |}.

(** Two species seen today, for a context whose rotation index is [i]. *)
Definition two_birds (s : Settings) (i : nat) : World :=
  {| settings := s;
     detectionTimestamps := [];
     dailyBirds := {[ "2023-11-14" := [("Wren", bird "Wren" 0.5%float);
                                        ("Osprey", bird "Osprey" 0.1%float)] ]};
     cacheSaveTimer := false;
     rotationState := {[ "tile" := {| index := i; timer := None; _lastRareHold := false |} ]} |}.



(** Thresholds configured out of order: epic 0.9, rare the text "0.2",
    uncommon 5. *)
Definition out_of_order : Settings :=
  {| payloadKey := payloadKey default_settings;
     rotationSeconds := rotationSeconds default_settings;
     epicOccurrenceThreshold := SNum 0.9%float;
     rareOccurrenceThreshold := SStr "0.2";
     uncommonOccurrenceThreshold := SNum 5%float;
     rareHoldMultiplier := rareHoldMultiplier default_settings |}.

Definition detection (name : string) (occurrence : option float) (date : option string)
  : Detection.t :=
  {| Detection.name := name; Detection.confidence := Some 0.8%float;
     Detection.imageUrl := None; Detection.occurrence := occurrence;
     Detection.detectionDate := date |}.

Definition empty_world : World :=
  {| settings := default_settings;
     detectionTimestamps := [];
     dailyBirds := ∅;
     cacheSaveTimer := false;
     rotationState := ∅ |}.

Definition no_images : ImageState :=
  {| imageCache := ∅; imageInFlight := ∅; requests := []; settled := ∅; next_promise := 0 |}.

End Sample.

(* ===================================================================== *)
(** * Part I, continued: the code around the pipeline                     *)
(* ===================================================================== *)

(** ** Strings as UTF-16 code units *)

(** The line layout of a title counts and cuts code units ([length],
    [slice]), so the text it works on is a list of code units. *)
Module U16.

Definition t := list Z.

(** The code units of a text written in ASCII. *)
Definition of_ascii (s : string) : t := List.map JsStr.code (JsStr.chars s).

Definition length (s : t) : Z := Z.of_nat (List.length s).

(** [ToBoolean(s)]. *)
Definition nonempty (s : t) : bool :=
  match s with [] => false | _ :: _ => true end.

(** White space and line terminators: what [trim] strips and [\s]
    matches. *)
Definition is_ws (u : Z) : bool :=
  ((9 <=? u) && (u <=? 13)) || (u =? 32) || (u =? 160) || (u =? 5760)
  || ((8192 <=? u) && (u <=? 8202)) || (u =? 8232) || (u =? 8233)
  || (u =? 8239) || (u =? 8287) || (u =? 12288) || (u =? 65279).

Fixpoint trimStart (s : t) : t :=
  match s with
  | [] => []
  | u :: r => if is_ws u then trimStart r else s
  end.

(** [String.prototype.trim]. *)
Definition trim (s : t) : t := List.rev (trimStart (List.rev (trimStart s))).

(** [s.split(/\s+/)]: the pieces between the maximal runs of white space;
    a run at either end leaves an empty piece there.  [gap] tells that the
    unit before was white space; [cur] is the piece being read,
    reversed. *)
Fixpoint split_ws_from (gap : bool) (cur : t) (s : t) : list t :=
  match s with
  | [] => [List.rev cur]
  | u :: r =>
      if is_ws u
      then (if gap then split_ws_from true [] r
            else List.rev cur :: split_ws_from true [] r)
      else split_ws_from false (u :: cur) r
  end.

Definition split_ws (s : t) : list t := split_ws_from false [] s.

(** [l.slice(0, e)] of a string or an array: a negative [e] counts from
    the end. *)
Definition slice0 {A} (l : list A) (e : Z) : list A :=
  let len := Z.of_nat (List.length l) in
  let to := if e <? 0 then Z.max (len + e) 0 else Z.min e len in
  firstn (Z.to_nat to) l.

(** [lines.join(sep)]. *)
Definition join (sep : t) (l : list t) : t :=
  match l with
  | [] => []
  | x :: r => fold_left (fun acc y => acc ++ sep ++ y) r x
  end.

End U16.

(** ** The line layout of a title *)

Section Layout.
Import U16.

(** [truncateToFit(text, maxLen)]. *)
Definition truncateToFit (text : U16.t) (maxLen : Z) : U16.t :=
  if U16.length text <=? maxLen then text
  else if maxLen <=? 3 then slice0 text maxLen
  else slice0 text (maxLen - 3) ++ of_ascii "...".

(** One turn of the loop of [splitName] on [word]. *)
Definition place_word (maxLen : Z) (lines : list U16.t) (current word : U16.t)
  : list U16.t * U16.t :=
  let next := trim (current ++ of_ascii " " ++ word) in
  if U16.length next <=? maxLen then (lines, next)
  else if nonempty current
       then (lines ++ [current],
             if U16.length word <=? maxLen then word else truncateToFit word maxLen)
       else (lines ++ [truncateToFit word maxLen], []).

(** The loop of [splitName]: it stops at the end of the words, or as soon
    as [lines.length === maxLines]. *)
Fixpoint split_loop (maxLen maxLines : Z) (words : list U16.t)
         (lines : list U16.t) (current : U16.t) : list U16.t * U16.t :=
  match words with
  | [] => (lines, current)
  | word :: rest =>
      let '(lines', current') := place_word maxLen lines current word in
      if Z.of_nat (List.length lines') =? maxLines then (lines', current')
      else split_loop maxLen maxLines rest lines' current'
  end.

(** [splitName(text, maxLen, maxLines)], the two bounds being integers
    (the program passes 12 and 3).  The last step rewrites
    [lines[maxLines - 1]]; were that index negative, the line read there
    would be [undefined] and [truncateToFit] would throw on its
    [length]. *)
Definition splitName (text : U16.t) (maxLen maxLines : Z) : completion (list U16.t) :=
  if negb (nonempty text) then Normal []
  else
    let words := split_ws text in
    let '(lines0, current) := split_loop maxLen maxLines words [] [] in
    let lines :=
      if (Z.of_nat (List.length lines0) <? maxLines) && nonempty current
      then lines0 ++ [current] else lines0 in
    if maxLines <? Z.of_nat (List.length lines) then Normal (slice0 lines maxLines)
    else if (Z.of_nat (List.length lines) =? maxLines) && (0 <? Z.of_nat (List.length words))
    then
      let allText := join (of_ascii " ") lines in
      if U16.length allText <? U16.length text
      then
        if 0 <=? maxLines - 1 then
          match lines !! Z.to_nat (maxLines - 1) with
          | Some last =>
              Normal (<[Z.to_nat (maxLines - 1) := truncateToFit last maxLen]> lines)
          | None => Throw
          end
        else Throw
      else Normal lines
    else Normal lines.

(** The three lines [formatTitle] puts in the display: [line1], [line2],
    [line3]; a missing line is the empty string. *)
Definition formatTitle_lines (name : U16.t) : completion (U16.t * U16.t * U16.t) :=
  nameLines ← splitName (trim name) 12 3;
  Normal (nth 0 nameLines [], nth 1 nameLines [], nth 2 nameLines []).

End Layout.

(** ** Escaping for SVG text *)

Section Xml.
Import U16.

(** [s.replace(/c/g, by)] for one character [c]. *)
Definition replace_all (c : Z) (by_ : U16.t) (s : U16.t) : U16.t :=
  flat_map (fun u => if u =? c then by_ else [u]) s.

(** [escapeXml(text)]: five replacements, one after the other.  The
    renderers pass strings, for which [String(text)] is [text]. *)
Definition escapeXml (text : U16.t) : U16.t :=
  replace_all 39 (of_ascii "&apos;")
    (replace_all 34 (of_ascii "&quot;")
       (replace_all 62 (of_ascii "&gt;")
          (replace_all 60 (of_ascii "&lt;")
             (replace_all 38 (of_ascii "&amp;") text)))).

(** What one code unit becomes. *)
Definition escaped_unit (u : Z) : U16.t :=
  if u =? 38 then of_ascii "&amp;"
  else if u =? 60 then of_ascii "&lt;"
  else if u =? 62 then of_ascii "&gt;"
  else if u =? 34 then of_ascii "&quot;"
  else if u =? 39 then of_ascii "&apos;"
  else [u].

(** The characters with a meaning in XML text and attribute values, the
    ampersand apart: [<], [>], the double quote and the apostrophe. *)
Definition markup (u : Z) : bool :=
  (u =? 60) || (u =? 62) || (u =? 34) || (u =? 39).

End Xml.

(** ** The broker URL *)

(** The connection settings read by [buildMqttUrl]. *)
Record MqttSettings := {
  mqttHost : Scalar;
  mqttPort : Scalar;
  mqttTls : Scalar
}.

Section Mqtt.
Context `{Host}.
Import JsStr.

(** A setting as a JavaScript value. *)
Definition scalar_value (v : Scalar) : JsVal :=
  match v with
  | SUndefined => JUndefined
  | SNull => JNull
  | SBool b => JBool b
  | SNum n => JNum n
  | SStr s => JStr s
  end.

(** [s.startsWith(p)]. *)
Definition startsWith (s p : string) : bool := String.prefix p s.

(** [s.replace(/^mqtts?:\/\//, "")]. *)
Definition without_scheme (s : string) : string :=
  if startsWith s "mqtts://" then substring 8 (String.length s - 8) s
  else if startsWith s "mqtt://" then substring 7 (String.length s - 7) s
  else s.

(** [s.split(sep)[0]]. *)
Definition first_piece (sep : ascii) (s : string) : string :=
  hd EmptyString (split sep s).

(** [buildMqttUrl(currentSettings)].  A host setting that is truthy and no
    string has no [trim] method: the call throws. *)
Definition buildMqttUrl (currentSettings : MqttSettings) : completion string :=
  rawHost ← match mqttHost currentSettings with
            | SStr s => Normal (trim s)
            | v => if Js.scalar_truthy v then Throw else Normal EmptyString
            end;
  let protocol :=
    if startsWith rawHost "mqtts://" then "mqtts"
    else if startsWith rawHost "mqtt://" then "mqtt"
    else if Js.scalar_truthy (mqttTls currentSettings) then "mqtts" else "mqtt" in
  let hostNoProto := without_scheme rawHost in
  let first := first_piece ":" (first_piece "/" hostNoProto) in
  let hostOnly := if nonempty first then first else "localhost" in
  port ← String_ (scalar_value (mqttPort currentSettings));
  Normal (String.append protocol
            (String.append "://" (String.append hostOnly (String.append ":" port)))).

(** The characters of [s] are all other than [c]. *)
Definition free_of (c : ascii) (s : string) : Prop :=
  Forall (fun a => a <> c) (chars s).

End Mqtt.

(** ** The message handler *)

(** The action a tile was created for. *)
Definition ACTION_TEXT : string := "com.pillowfresco.birdnetmqtt.lastdetection".
Definition ACTION_IMAGE : string := "com.pillowfresco.birdnetmqtt.image".
Definition ACTION_BORDER : string := "com.pillowfresco.birdnetmqtt.border".
Definition ACTION_TODAY : string := "com.pillowfresco.birdnetmqtt.today".

(** The state the handler of MQTT messages works on: the pipeline state,
    the tiles on the deck ([contexts], a [Map] from context to action, in
    insertion order), the latest detection and image URL, the image cache,
    and the [then] callbacks that [updateImageContexts] has attached to
    promises of [fetchImageData] (the promise, the tile asked for if one
    was, the occurrence to mark). *)
Record Plugin := {
  world : World;
  contexts : list (string * string);
  latestDetection : option Detection.t;
  latestImageUrl : option string;
  images : ImageState;
  image_jobs : list (nat * option string * option float)
}.

(** The clock as one run of the handler reads it: in [updateDailyBirds],
    in [recordDetection], in the [getDetectionsLastHour] of the handler,
    and in the tick of each rotating tile. *)
Record Reads := {
  at_update : Clock;
  at_record : Z;
  at_count : Z;
  at_tick : string -> Clock
}.

Section Handler.
Context `{Host}.
Import JsStr.

(** [forEachContext(action, callback)]: the tiles visited, in order;
    [None] is the [null] that selects every tile. *)
Definition forEachContext (action : option string) (contexts : list (string * string))
  : list (string * string) :=
  List.filter (fun ca => match action with
                         | None => true
                         | Some a => if nonempty a then String.eqb (snd ca) a else true
                         end) contexts.

(** [forEachContext(ACTION_TODAY, context => startRotation(context, true))]
    over the tiles [cs]. *)
Fixpoint start_all (reads : Reads) (cs : list string) (w : World) : World * list Output :=
  match cs with
  | [] => (w, [])
  | c :: rest =>
      let '(w1, out1) := startRotation (at_tick reads c) c true w in
      let '(w2, out2) := start_all reads rest w1 in
      (w2, out1 ++ out2)
  end.

(** [updateImageContexts(imageUrl, specificContext, occurrence)] up to the
    call of [fetchImageData]; what its [then] callback will draw is left
    to the callback. *)
Definition updateImageContexts (fetch_available : bool) (imageUrl : string)
           (specificContext : option string) (occurrence : option float) (p : Plugin) : Plugin :=
  if negb (nonempty imageUrl) then p
  else
    let specific := match specificContext with Some c => nonempty c | None => false end in
    let hasImageContext :=
      match forEachContext (Some ACTION_IMAGE) (contexts p) with [] => false | _ :: _ => true end in
    if negb specific && negb hasImageContext then p
    else
      let '(promise, st) := fetchImageData fetch_available imageUrl (images p) in
      {| world := world p;
         contexts := contexts p;
         latestDetection := latestDetection p;
         latestImageUrl := latestImageUrl p;
         images := st;
         image_jobs := image_jobs p ++ [(promise, specificContext, occurrence)] |}.

(** The first [if] of the handler: a detection with a name. *)
Definition on_detection (reads : Reads) (isRetained : bool) (detection : Detection.t) (p : Plugin)
  : Plugin * list Output :=
  let w1 := updateDailyBirds (at_update reads) detection (world p) in
  let url :=
    match Detection.imageUrl detection with
    | Some u => if nonempty u then Some u else latestImageUrl p
    | None => latestImageUrl p
    end in
  let ts2 :=
    if isRetained then detectionTimestamps w1
    else recordDetection (at_record reads) (detectionTimestamps w1) in
  let '(ts3, n) := getDetectionsLastHour (at_count reads) ts2 in
  let w3 := with_rotation w1 ts3 (rotationState w1) in
  let display :=
    formatTitle (settings w3) (Detection.name detection) (Detection.confidence detection) n
                (Detection.occurrence detection) in
  let out_text :=
    List.map (fun ca => setImageTitle (fst ca) display "text")
             (forEachContext (Some ACTION_TEXT) (contexts p)) in
  let out_border :=
    List.map (fun ca => setImageTitle (fst ca) display "border")
             (forEachContext (Some ACTION_BORDER) (contexts p)) in
  let '(w4, out_today) :=
    if isRetained then (w3, [])
    else start_all reads (List.map fst (forEachContext (Some ACTION_TODAY) (contexts p))) w3 in
  ({| world := w4;
      contexts := contexts p;
      latestDetection := Some detection;
      latestImageUrl := url;
      images := images p;
      image_jobs := image_jobs p |},
   out_text ++ out_border ++ out_today).

(** The handler of [mqttClient.on("message", ...)]; [isRetained] is
    [Boolean(packet && packet.retain)].  The lines it logs are not part of
    the result. *)
Definition on_message (reads : Reads) (fetch_available : bool) (isRetained : bool)
           (payload : string) (p : Plugin) : Plugin * list Output :=
  let detection := parsePayload (settings (world p)) payload in
  let '(p1, out) :=
    match detection with
    | Some d => if nonempty (Detection.name d) then on_detection reads isRetained d p else (p, [])
    | None => (p, [])
    end in
  let p2 :=
    match detection with
    | Some d =>
        match Detection.imageUrl d with
        | Some u =>
            if nonempty u && negb isRetained
            then updateImageContexts fetch_available u None (Detection.occurrence d) p1
            else p1
        | None => p1
        end
    | None => p1
    end in
  (p2, out).

End Handler.

(** The tiles of one action, in the order they were added. *)
Definition tiles (action : string) (p : Plugin) : list string :=
  List.map fst (List.filter (fun ca => String.eqb (snd ca) action) (contexts p)).

(** The count a message shows: the length of the array after the handler
    has recorded the detection, unless retained, and pruned. *)
Definition count_shown (reads : Reads) (isRetained : bool) (p : Plugin) : nat :=
  snd (getDetectionsLastHour (at_count reads)
         (if isRetained then detectionTimestamps (world p)
          else recordDetection (at_record reads) (detectionTimestamps (world p)))).

(** A deck to run the handler on. *)
Module SampleDeck.

(** A deck with one tile of each action. *)
Definition plugin : Plugin :=
  {| world := Sample.two_birds default_settings 0;
     contexts := [("t1", ACTION_TEXT); ("i1", ACTION_IMAGE); ("tile", ACTION_TODAY);
                  ("b1", ACTION_BORDER)];
     latestDetection := None;
     latestImageUrl := None;
     images := Sample.no_images;
     image_jobs := [] |}.

Definition reads : Reads :=
  {| at_update := Sample.clock;
     at_record := 1700000000000;
     at_count := 1700000000001;
     at_tick := fun _ => Sample.clock |}.

Definition payload : string :=
  Sample.json "{'CommonName':'Osprey','occurrence':0.1,'BirdImage':{'URL':'http://x/o.jpg'}}".

Definition detection : Detection.t :=
  Detection.mk "Osprey" None (Some "http://x/o.jpg") (Some 0.1%float) None.

End SampleDeck.

(** ** The queue of log lines *)

(** Log lines wait in [pendingLogs] while the socket to the deck is not
    open; [sentLogs] lists the lines sent to it as [logMessage] events. *)
Record LogState := {
  pendingLogs : list string;
  sentLogs : list string
}.

Section Logs.

(** [sendLogMessage(message)]; [open] is
    [websocket && websocket.readyState === WebSocket.OPEN]. *)
Definition sendLogMessage (open : bool) (message : string) (st : LogState) : LogState :=
  if negb open
  then {| pendingLogs := pendingLogs st ++ [message]; sentLogs := sentLogs st |}
  else {| pendingLogs := pendingLogs st; sentLogs := sentLogs st ++ [message] |}.

(** [flushPendingLogs()]: the loop shifts and sends every pending line. *)
Fixpoint flush_loop (pending : list string) (sent : list string) : LogState :=
  match pending with
  | [] => {| pendingLogs := []; sentLogs := sent |}
  | message :: rest => flush_loop rest (sent ++ [message])
  end.

Definition flushPendingLogs (open : bool) (st : LogState) : LogState :=
  if negb open then st else flush_loop (pendingLogs st) (sentLogs st).

Inductive LogEvent :=
| Log (open : bool) (message : string)
| Flush (open : bool).

Definition log_step (st : LogState) (e : LogEvent) : LogState :=
  match e with
  | Log open message => sendLogMessage open message st
  | Flush open => flushPendingLogs open st
  end.

Definition log_run (es : list LogEvent) : LogState :=
  fold_left log_step es {| pendingLogs := []; sentLogs := [] |}.

(** The lines logged by the events, oldest first. *)
Definition logged (es : list LogEvent) : list string :=
  flat_map (fun e => match e with Log _ message => [message] | Flush _ => [] end) es.

End Logs.

(** ** Runs of the aggregate, the rotation and the image cache *)

Section MoreRuns.
Import JsStr.

(** A history of upserts: each detection with the clock read by its
    [updateDailyBirds] call, oldest first. *)
Definition upserts (w : World) (run : list (Clock * Detection.t)) : World :=
  fold_left (fun w cd => updateDailyBirds (fst cd) (snd cd) w) run w.

(** The occurrence [updateDailyBirds] stores for a detection that observes
    [o], given the stored one: [Math.min(o, existing.occurrence ?? o)]. *)
Definition min_step (acc : option float) (o : float) : option float :=
  Some (JsNum.Math_min o (match acc with Some e => e | None => o end)).

(** The stored occurrence after the observations [os], oldest first. *)
Definition running_min (prior : option float) (os : list float) : option float :=
  fold_left min_step os prior.

(** The occurrences the detections of a history observe. *)
Definition observed (run : list (Clock * Detection.t)) : list float :=
  flat_map (fun cd => match Detection.occurrence (snd cd) with
                      | Some o => [o]
                      | None => []
                      end) run.

(** A detection of species [name] filed under [dateKey]. *)
Definition sighting_of (dateKey name : string) (cd : Clock * Detection.t) : Prop :=
  Detection.name (snd cd) = name /\ dateKey_of (fst cd) (snd cd) = dateKey.

(** A day map as [updateDailyBirds] builds it: one entry per name, each
    record filed under its own, non-empty, name. *)
Definition day_wf (dayMap : list (string * Bird.t)) : Prop :=
  NoDup (List.map fst dayMap)
  /\ Forall (fun kv => Bird.name (snd kv) = fst kv /\ nonempty (fst kv) = true) dayMap.

Definition aggregate_wf (w : World) : Prop :=
  forall k dayMap, dailyBirds w !! k = Some dayMap -> day_wf dayMap.

(** The species names of a day in the order of the [Map], that is, in the
    order they were first stored; no names for a day that is not kept. *)
Definition day_names (w : World) (dateKey : string) : list string :=
  List.map fst (default [] (dailyBirds w !! dateKey)).

(** The tile an output is sent to. *)
Definition output_context (o : Output) : string :=
  match o with
  | setTitle c _ => c
  | setImageTitle c _ _ => c
  end.

(** The image cache between events: nothing cached is in flight; the
    promises in flight are pending and differ from one URL to the next;
    every promise that is in flight or settled was handed out earlier. *)
Definition image_inv (st : ImageState) : Prop :=
  (forall url dataUri, imageCache st !! url = Some dataUri -> imageInFlight st !! url = None)
  /\ (forall url p, imageInFlight st !! url = Some p ->
                    settled st !! p = None /\ (p < next_promise st)%nat)
  /\ (forall u1 u2 p, imageInFlight st !! u1 = Some p -> imageInFlight st !! u2 = Some p -> u1 = u2)
  /\ (forall p r, settled st !! p = Some r -> (p < next_promise st)%nat).

End MoreRuns.

(** ** Shapes used by the proofs *)

(** A byte string that the scan of [trim] leaves alone at its start: its
    first one, two and three bytes are no white space. *)
Definition starts_clean (l : list ascii) : Prop :=
  match l with
  | [] => True
  | a :: r =>
      JsStr.ws1 a = false
      /\ match r with
         | [] => True
         | b :: r' =>
             JsStr.ws2 a b = false
             /\ match r' with [] => True | c :: _ => JsStr.ws3 a b c = false end
         end
  end.

(** The same at its end, the bytes being read last first. *)
Definition ends_clean (l : list ascii) : Prop :=
  match l with
  | [] => True
  | a :: r =>
      JsStr.ws1 a = false
      /\ match r with
         | [] => True
         | b :: r' =>
             JsStr.ws2 b a = false
             /\ match r' with [] => True | c :: _ => JsStr.ws3 c b a = false end
         end
  end.

(** A line that fits and is not empty. *)
Definition fits (maxLen : Z) (line : U16.t) : Prop :=
  1 <= U16.length line <= maxLen.

(** A word: not empty, no white space in it. *)
Definition word_ok (w : U16.t) : Prop :=
  w <> [] /\ Forall (fun u => U16.is_ws u = false) w.

(** A text that [trim] leaves alone: empty, or with no white space at
    either end. *)
Definition tight (s : U16.t) : Prop :=
  s = []
  \/ (exists u r, s = u :: r /\ U16.is_ws u = false)
     /\ (exists r u, s = r ++ [u] /\ U16.is_ws u = false).

(** The state of the loop of [splitName] after the pieces [done]: the
    lines pushed and the line being filled are the words read so far, cut
    where too long, in groups. *)
Definition packed (maxLen : Z) (done : list U16.t) (lines : list U16.t) (current : U16.t)
  : Prop :=
  exists groups g,
    lines = List.map (U16.join (U16.of_ascii " ")) groups
    /\ Forall (fun g => g <> []) groups
    /\ current = U16.join (U16.of_ascii " ") g
    /\ U16.length current <= maxLen
    /\ Forall word_ok (concat groups ++ g)
    /\ concat groups ++ g =
         List.map (fun w => truncateToFit w maxLen) (List.filter U16.nonempty done).

(* ===================================================================== *)
(** * Part II: properties                                                 *)
(* ===================================================================== *)

(** ** Facts about binary64 arithmetic *)

Module SpecFloatFacts.

(** The comparison of [SpecFloat] is a total preorder away from [NaN]. *)

Ltac cmp_cases :=
  repeat match goal with
         | |- context [Z.compare ?a ?b] =>
             destruct (Z.compare_spec a b); simpl; try lia; subst
         | |- context [Pos.compare_cont Eq ?a ?b] =>
             rewrite (Pos.compare_cont_spec a b Eq); simpl
         | |- context [Pos.compare ?a ?b] =>
             destruct (Pos.compare_spec a b); simpl; try lia; subst
         end.

Lemma SFcompare_swap x y :
  SFcompare y x = match SFcompare x y with Some c => Some (CompOpp c) | None => None end.
Proof.
  destruct x as [[]|[]| |[] mx ex], y as [[]|[]| |[] my ey]; simpl; try reflexivity.
  all: rewrite (Z.compare_antisym ey ex); destruct (ey ?= ex)%Z; simpl; try reflexivity.
  all: rewrite (Pos.compare_cont_antisym mx my Eq); simpl; try reflexivity.
  all: destruct (Pos.compare_cont Eq mx my); reflexivity.
Qed.

Lemma SFcompare_refl x : x <> S754_nan -> SFcompare x x = Some Eq.
Proof.
  destruct x as [[]|[]| |[] m e]; simpl; try congruence.
  all: intros _; rewrite Z.compare_refl, Pos.compare_cont_refl; reflexivity.
Qed.

Lemma SFcompare_None x y : SFcompare x y = None <-> x = S754_nan \/ y = S754_nan.
Proof.
  destruct x as [[]|[]| |[] mx ex], y as [[]|[]| |[] my ey]; simpl;
    split; intros Hc; try discriminate; try (destruct Hc; discriminate); auto.
Qed.

(** [SFleb] is transitive. *)
Lemma SFleb_trans x y z : SFleb x y = true -> SFleb y z = true -> SFleb x z = true.
Proof.
  unfold SFleb.
  destruct x as [[]|[]| |[] mx ex], y as [[]|[]| |[] my ey], z as [[]|[]| |[] mz ez];
    simpl; try congruence.
  all: destruct (Z.compare_spec ex ey); try congruence;
       destruct (Z.compare_spec ey ez); try congruence;
       destruct (Z.compare_spec ex ez); try congruence; try lia; subst.
  all: rewrite ?Pos.compare_cont_spec; simpl;
       destruct (Pos.compare_spec mx my); simpl; try congruence;
       destruct (Pos.compare_spec my mz); simpl; try congruence;
       destruct (Pos.compare_spec mx mz); simpl; try congruence; lia.
Qed.

(** Two numbers that compare equal are the same number, or two zeros. *)
Lemma SFcompare_Eq x y :
  SFcompare x y = Some Eq -> x = y \/ exists s t, x = S754_zero s /\ y = S754_zero t.
Proof.
  destruct x as [sx|sx| |sx mx ex], y as [sy|sy| |sy my ey]; simpl; try discriminate;
    try (destruct sx; discriminate); try (destruct sy; discriminate).
  - eauto.
  - destruct sx, sy; try discriminate; auto.
  - destruct sx, sy; try discriminate; destruct (Z.compare_spec ex ey); try discriminate;
      subst; rewrite Pos.compare_cont_spec; simpl;
      destruct (Pos.compare_spec mx my); simpl; try discriminate; subst; auto.
Qed.


Lemma sf_min_comm x y : JsNum.sf_min x y = JsNum.sf_min y x.
Proof.
  unfold JsNum.sf_min. rewrite (SFcompare_swap x y).
  destruct (SFcompare x y) as [[]|] eqn:E; simpl; try reflexivity.
  destruct (SFcompare_Eq _ _ E) as [->|(s & t & -> & ->)]; [reflexivity|].
  destruct s, t; reflexivity.
Qed.

Lemma sf_min_assoc x y z : JsNum.sf_min x (JsNum.sf_min y z) = JsNum.sf_min (JsNum.sf_min x y) z.
Proof.
  unfold JsNum.sf_min.
  destruct x as [[]|[]| |[] mx ex], y as [[]|[]| |[] my ey], z as [[]|[]| |[] mz ez];
    simpl; try reflexivity; cmp_cases; reflexivity.
Qed.
(** Rounding: a positive significand stays positive. *)


Lemma digits2_pos_bounds (m : positive) :
  2 ^ (Z.pos (digits2_pos m) - 1) <= Z.pos m < 2 ^ Z.pos (digits2_pos m).
Proof.
  induction m as [m IH|m IH|]; simpl digits2_pos.
  - rewrite Pos2Z.inj_succ. replace (Z.succ (Z.pos (digits2_pos m)) - 1) with (Z.succ (Z.pos (digits2_pos m) - 1)) by lia.
    rewrite !Z.pow_succ_r by lia. lia.
  - rewrite Pos2Z.inj_succ. replace (Z.succ (Z.pos (digits2_pos m)) - 1) with (Z.succ (Z.pos (digits2_pos m) - 1)) by lia.
    rewrite !Z.pow_succ_r by lia. lia.
  - simpl. lia.
Qed.

Lemma shr_1_m mrs : 0 <= shr_m mrs -> shr_m (shr_1 mrs) = shr_m mrs / 2.
Proof.
  destruct mrs as [m r s]. cbn [shr_m]. intros Hm.
  destruct m as [|[p|p|]|p]; cbn [shr_1 shr_m]; try lia; try reflexivity.
  - apply Z.div_unique with 1; lia.
  - apply Z.div_unique with 0; lia.
Qed.

Lemma iter_shr_1_m p : forall mrs, 0 <= shr_m mrs ->
  shr_m (SpecFloat.iter_pos shr_1 p mrs) = shr_m mrs / 2 ^ Z.pos p.
Proof.
  induction p as [p IH|p IH|]; intros mrs Hm; cbn [SpecFloat.iter_pos].
  - assert (H1 : 0 <= shr_m (shr_1 mrs)) by (rewrite shr_1_m by assumption; apply Z.div_pos; lia).
    assert (H2 : 0 <= shr_m (SpecFloat.iter_pos shr_1 p (shr_1 mrs))) by (rewrite IH by assumption; apply Z.div_pos; lia).
    rewrite IH, IH, shr_1_m by assumption.
    rewrite !Z.div_div by lia. f_equal.
    rewrite Pos2Z.inj_xI, Z.pow_add_r, Z.pow_mul_r, Z.pow_1_r by lia.
    replace (2 ^ 2) with 4 by reflexivity.
    rewrite <- Z.pow_add_r by lia. replace (Z.pos p + Z.pos p) with (2 * Z.pos p) by lia.
    rewrite Z.pow_mul_r by lia. replace (2 ^ 2) with 4 by reflexivity. lia.
  - assert (H2 : 0 <= shr_m (SpecFloat.iter_pos shr_1 p mrs)) by (rewrite IH by assumption; apply Z.div_pos; lia).
    rewrite IH, IH by assumption.
    rewrite !Z.div_div by lia. f_equal.
    rewrite <- Z.pow_add_r by lia. f_equal. lia.
  - rewrite shr_1_m by assumption. reflexivity.
Qed.

Lemma shr_record_of_loc_m m l : shr_m (shr_record_of_loc m l) = m.
Proof. destruct l as [|[]]; reflexivity. Qed.


Lemma round_nearest_even_bounds m l :
  m <= round_nearest_even m l <= m + 1.
Proof. destruct l as [|[]]; simpl; try destruct (Z.even m); lia. Qed.


Lemma Zdigits2_pos m : 0 < m -> 0 < Zdigits2 m.
Proof. destruct m; simpl; lia. Qed.

(** Shifting to the format's exponent keeps a positive significand positive
    as long as the exponent is not too far below the subnormal range. *)
Lemma shr_fexp_pos m e l :
  0 < m -> -1074 - e < Zdigits2 m ->
  0 < shr_m (fst (shr_fexp prec emax m e l)) /\ -1074 <= snd (shr_fexp prec emax m e l).
Proof.
  intros Hm He. unfold shr_fexp, shr.
  destruct m as [|p|p]; try lia. cbn [Zdigits2] in *.
  pose proof (digits2_pos_bounds p) as Hd.
  unfold fexp, SpecFloat.emin, prec, emax.
  destruct (Z.max (Z.pos (digits2_pos p) + e - 53) (3 - 1024 - 53) - e) as [|n|n] eqn:En;
    cbn [fst snd]; rewrite ?iter_shr_1_m; rewrite ?shr_record_of_loc_m; try lia.
  split; [|lia].
  apply Z.div_str_pos. split; [apply Z.pow_pos_nonneg; lia|].
  etransitivity; [|apply Hd].
  apply Z.pow_le_mono_r; lia.
Qed.

Lemma binary_round_aux_pos s m e l :
  0 < m -> -1074 - e < Zdigits2 m ->
  binary_round_aux prec emax s m e l = S754_infinity s \/
  exists m' e', binary_round_aux prec emax s m e l = S754_finite s m' e'.
Proof.
  intros Hm He. unfold binary_round_aux.
  destruct (shr_fexp_pos m e l Hm He) as [H1 H1'].
  destruct (shr_fexp prec emax m e l) as [mrs1 e1]. cbn [fst snd] in H1, H1'.
  pose proof (round_nearest_even_bounds (shr_m mrs1) (loc_of_shr_record mrs1)) as Hr.
  assert (Hm1 : 0 < round_nearest_even (shr_m mrs1) (loc_of_shr_record mrs1)) by lia.
  pose proof (Zdigits2_pos _ Hm1) as Hd1.
  destruct (shr_fexp_pos _ e1 loc_Exact Hm1 ltac:(lia)) as [H2 _].
  destruct (shr_fexp prec emax _ e1 loc_Exact) as [mrs2 e2]. cbn [fst] in H2.
  destruct (shr_m mrs2); try lia.
  destruct (e2 <=? emax - prec); eauto.
Qed.

Lemma pos_iter_xO m d : Z.pos (Pos.iter xO m d) = Z.pos m * 2 ^ Z.pos d.
Proof.
  induction d as [|d IH] using Pos.peano_ind.
  - simpl. lia.
  - rewrite Pos.iter_succ, Pos2Z.inj_xO, IH, Pos2Z.inj_succ, Z.pow_succ_r by lia. lia.
Qed.

Lemma shl_align_low m e e' :
  e' <= e -> Z.pos (fst (shl_align m e e')) = Z.pos m * 2 ^ (e - e') /\ snd (shl_align m e e') = e'.
Proof.
  intros He. unfold shl_align.
  destruct (e' - e) as [|d|d] eqn:Ed; cbn [fst snd]; try lia.
  - replace (e - e') with 0 by lia. simpl. lia.
  - rewrite pos_iter_xO. replace (e - e') with (Z.pos d) by lia. lia.
Qed.

Lemma shl_align_snd_ge m e e' lo :
  lo <= e -> lo <= e' -> lo <= snd (shl_align m e e').
Proof. unfold shl_align. destruct (e' - e); cbn [snd]; lia. Qed.

Lemma bounded_inv m e :
  bounded prec emax m e = true ->
  -1074 <= e /\ Z.pos (digits2_pos m) <= 53 /\ (-1074 < e -> Z.pos (digits2_pos m) = 53).
Proof.
  unfold bounded, canonical_mantissa, fexp, SpecFloat.emin, prec, emax.
  intros H. apply andb_prop in H as [H _]. apply Z.eqb_eq in H. lia.
Qed.

Lemma binary_round_sign s m e :
  -1074 <= e ->
  binary_round prec emax s m e = S754_infinity s \/
  exists m' e', binary_round prec emax s m e = S754_finite s m' e'.
Proof.
  intros He. unfold binary_round.
  pose proof (shl_align_snd_ge m e (fexp prec emax (Z.pos (digits2_pos m) + e)) (-1074) He) as Hs.
  destruct (shl_align m e _) as [mz ez]. cbn [snd] in Hs.
  apply binary_round_aux_pos; [lia|].
  assert (-1074 <= ez) by (apply Hs; unfold fexp, SpecFloat.emin, prec, emax; lia).
  cbn [Zdigits2]. lia.
Qed.

Lemma binary_normalize_gt0 d e :
  -1074 <= e ->
  SFltb (S754_zero false) (binary_normalize prec emax d e false) = (0 <? d).
Proof.
  intros He. destruct d as [|p|p]; simpl binary_normalize.
  - reflexivity.
  - destruct (binary_round_sign false p e He) as [-> | (m' & e' & ->)]; reflexivity.
  - destruct (binary_round_sign true p e He) as [-> | (m' & e' & ->)]; reflexivity.
Qed.

Lemma aligned_compare mx ex my ey :
  bounded prec emax mx ex = true -> bounded prec emax my ey = true ->
  (Z.pos mx * 2 ^ (ex - Z.min ex ey) ?= Z.pos my * 2 ^ (ey - Z.min ex ey)) =
  match ex ?= ey with Eq => Pos.compare_cont Eq mx my | c => c end.
Proof.
  intros Hx Hy. apply bounded_inv in Hx as (Hx1 & Hx2 & Hx3), Hy as (Hy1 & Hy2 & Hy3).
  pose proof (digits2_pos_bounds mx) as Dx. pose proof (digits2_pos_bounds my) as Dy.
  destruct (Z.compare_spec ex ey) as [E|E|E].
  - subst. rewrite Z.min_id, Z.sub_diag. simpl. rewrite !Pos.mul_1_r. reflexivity.
  - rewrite Z.min_l, Z.sub_diag, Z.mul_1_r by lia. apply Z.compare_lt_iff.
    rewrite (Hy3 ltac:(lia)) in Dy.
    assert (2 ^ 1 <= 2 ^ (ey - ex)) by (apply Z.pow_le_mono_r; lia).
    assert (2 ^ Z.pos (digits2_pos mx) <= 2 ^ 53) by (apply Z.pow_le_mono_r; lia).
    change (2 ^ (53 - 1)) with 4503599627370496 in Dy.
    change (2 ^ 53) with 9007199254740992 in *. change (2 ^ 1) with 2 in *. nia.
  - rewrite Z.min_r, Z.sub_diag, Z.mul_1_r by lia. apply Z.compare_gt_iff.
    rewrite (Hx3 ltac:(lia)) in Dx.
    assert (2 ^ 1 <= 2 ^ (ex - ey)) by (apply Z.pow_le_mono_r; lia).
    assert (2 ^ Z.pos (digits2_pos my) <= 2 ^ 53) by (apply Z.pow_le_mono_r; lia).
    change (2 ^ (53 - 1)) with 4503599627370496 in Dx.
    change (2 ^ 53) with 9007199254740992 in *. change (2 ^ 1) with 2 in *. nia.
Qed.

Lemma SFsub_gt0 x y :
  valid_binary x = true -> valid_binary y = true ->
  x <> S754_nan -> y <> S754_nan ->
  SFltb (S754_zero false) (SFsub prec emax x y) = SFltb y x.
Proof.
  intros Vx Vy Nx Ny.
  destruct x as [sx|sx| |sx mx ex], y as [sy|sy| |sy my ey]; try congruence;
    try (destruct sx, sy; reflexivity); try (destruct sx; reflexivity);
    try (destruct sy; reflexivity).
  cbn [SFsub]. simpl in Vx, Vy.
  pose proof (bounded_inv _ _ Vx) as (Hx1 & _). pose proof (bounded_inv _ _ Vy) as (Hy1 & _).
  rewrite binary_normalize_gt0 by lia.
  destruct (shl_align_low mx ex (Z.min ex ey) ltac:(lia)) as [-> _].
  destruct (shl_align_low my ey (Z.min ex ey) ltac:(lia)) as [-> _].
  pose proof (aligned_compare mx ex my ey Vx Vy) as Hc.
  assert (Hpx : 0 < Z.pos mx * 2 ^ (ex - Z.min ex ey)) by (apply Z.mul_pos_pos; [lia|apply Z.pow_pos_nonneg; lia]).
  assert (Hpy : 0 < Z.pos my * 2 ^ (ey - Z.min ex ey)) by (apply Z.mul_pos_pos; [lia|apply Z.pow_pos_nonneg; lia]).
  unfold SFltb, SFcompare.
  assert (Ha : Pos.compare_cont Eq my mx = CompOpp (Pos.compare_cont Eq mx my))
    by (symmetry; apply (Pos.compare_cont_antisym mx my Eq)).
  rewrite (Z.compare_antisym ex ey), Ha.
  destruct sx, sy; cbn [cond_Zopp];
    destruct (Z.compare_spec (Z.pos mx * 2 ^ (ex - Z.min ex ey)) (Z.pos my * 2 ^ (ey - Z.min ex ey))) as [E|E|E];
    destruct (ex ?= ey); simpl CompOpp; try rewrite <- Hc; simpl CompOpp;
    try (apply Z.ltb_lt; lia); try (apply Z.ltb_ge; lia); try discriminate.
Qed.

End SpecFloatFacts.


Module JsNumFacts.
Import SpecFloatFacts.

Lemma compare_cases a b :
  match PrimFloat.compare a b with
  | FEq => SFcompare (Prim2SF a) (Prim2SF b) = Some Eq
  | FLt => SFcompare (Prim2SF a) (Prim2SF b) = Some Lt
  | FGt => SFcompare (Prim2SF a) (Prim2SF b) = Some Gt
  | FNotComparable => SFcompare (Prim2SF a) (Prim2SF b) = None
  end.
Proof. rewrite FloatAxioms.compare_spec. destruct (SFcompare _ _) as [[]|]; reflexivity. Qed.

Lemma isNaN_spec x : JsNum.isNaN x = true <-> Prim2SF x = S754_nan.
Proof.
  unfold JsNum.isNaN, PrimFloat.is_nan. rewrite FloatAxioms.eqb_spec. unfold SFeqb.
  split.
  - intros Hn. destruct (SFcompare_None (Prim2SF x) (Prim2SF x)) as [H1 _].
    destruct (SFcompare (Prim2SF x) (Prim2SF x)) as [[]|] eqn:E; try discriminate.
    + pose proof (SFcompare_swap (Prim2SF x) (Prim2SF x)) as Hs. rewrite E in Hs. discriminate.
    + pose proof (SFcompare_swap (Prim2SF x) (Prim2SF x)) as Hs. rewrite E in Hs. discriminate.
    + destruct (H1 eq_refl); assumption.
  - intros ->. reflexivity.
Qed.

Lemma isNaN_false x : JsNum.isNaN x = false <-> Prim2SF x <> S754_nan.
Proof.
  split.
  - intros Hf Hn. apply isNaN_spec in Hn. congruence.
  - intros Hn. destruct (JsNum.isNaN x) eqn:E; [|reflexivity].
    apply isNaN_spec in E. contradiction.
Qed.

Lemma isNaN_eq x : JsNum.isNaN x = true -> x = PrimFloat.nan.
Proof. intros Hn. apply Prim2SF_inj. apply isNaN_spec in Hn. rewrite Hn. reflexivity. Qed.

Lemma le_spec x y : JsNum.le x y = SFleb (Prim2SF x) (Prim2SF y).
Proof. apply FloatAxioms.leb_spec. Qed.

Lemma lt_spec x y : JsNum.lt x y = SFltb (Prim2SF x) (Prim2SF y).
Proof. apply FloatAxioms.ltb_spec. Qed.

Lemma le_not_nan x y : JsNum.le x y = true -> JsNum.isNaN x = false /\ JsNum.isNaN y = false.
Proof.
  rewrite le_spec, !isNaN_false. unfold SFleb. intros Hl.
  split; intros Hn; rewrite Hn in Hl; simpl in Hl; try discriminate.
  destruct (Prim2SF x); discriminate.
Qed.

Lemma lt_not_nan x y : JsNum.lt x y = true -> JsNum.isNaN x = false /\ JsNum.isNaN y = false.
Proof.
  rewrite lt_spec, !isNaN_false. unfold SFltb. intros Hl.
  split; intros Hn; rewrite Hn in Hl; simpl in Hl; try discriminate.
  destruct (Prim2SF x); discriminate.
Qed.

Lemma le_refl x : JsNum.isNaN x = false -> JsNum.le x x = true.
Proof.
  rewrite le_spec, isNaN_false. intros Hn. unfold SFleb. rewrite SFcompare_refl by assumption.
  reflexivity.
Qed.

Lemma le_trans x y z : JsNum.le x y = true -> JsNum.le y z = true -> JsNum.le x z = true.
Proof. rewrite !le_spec. apply SFleb_trans. Qed.

Lemma lt_le x y : JsNum.lt x y = true -> JsNum.le x y = true.
Proof.
  rewrite lt_spec, le_spec. unfold SFltb, SFleb.
  destruct (SFcompare _ _) as [[]|]; congruence.
Qed.

(** Away from [NaN], [x <= y] is the negation of [y < x]. *)
Lemma le_iff_not_lt x y :
  JsNum.isNaN x = false -> JsNum.isNaN y = false -> JsNum.le x y = negb (JsNum.lt y x).
Proof.
  rewrite !isNaN_false, le_spec, lt_spec. intros Hx Hy. unfold SFleb, SFltb.
  rewrite (SFcompare_swap (Prim2SF x) (Prim2SF y)).
  destruct (SFcompare (Prim2SF x) (Prim2SF y)) as [[]|] eqn:E; try reflexivity.
  apply SFcompare_None in E. tauto.
Qed.

Lemma le_total x y :
  JsNum.isNaN x = false -> JsNum.isNaN y = false -> JsNum.le x y = true \/ JsNum.le y x = true.
Proof.
  intros Hx Hy. rewrite (le_iff_not_lt x y Hx Hy).
  destruct (JsNum.lt y x) eqn:E; [right; apply lt_le; assumption | left; reflexivity].
Qed.

Lemma lt_le_trans x y z : JsNum.lt x y = true -> JsNum.le y z = true -> JsNum.lt x z = true.
Proof.
  intros Hxy Hyz.
  destruct (lt_not_nan _ _ Hxy) as [Nx Ny]. destruct (le_not_nan _ _ Hyz) as [_ Nz].
  destruct (JsNum.lt x z) eqn:E; [reflexivity|].
  assert (Hzx : JsNum.le z x = true) by (rewrite le_iff_not_lt, E by assumption; reflexivity).
  pose proof (le_trans _ _ _ Hyz Hzx) as Hyx.
  rewrite le_iff_not_lt, Hxy in Hyx by assumption. discriminate.
Qed.

(** [Math.max] and [Math.min] away from [NaN]. *)

Lemma Math_max_cases a b :
  JsNum.isNaN a = false -> JsNum.isNaN b = false ->
  JsNum.Math_max a b = a \/ JsNum.Math_max a b = b.
Proof.
  intros Ha Hb. unfold JsNum.Math_max. pose proof (compare_cases a b) as Hc.
  destruct (PrimFloat.compare a b); auto.
  - destruct (JsNum.is_neg_zero a); auto.
  - apply SFcompare_None in Hc. apply isNaN_false in Ha, Hb. tauto.
Qed.

Lemma Math_min_cases a b :
  JsNum.isNaN a = false -> JsNum.isNaN b = false ->
  JsNum.Math_min a b = a \/ JsNum.Math_min a b = b.
Proof.
  intros Ha Hb. unfold JsNum.Math_min. pose proof (compare_cases a b) as Hc.
  destruct (PrimFloat.compare a b); auto.
  - destruct (JsNum.is_neg_zero a); auto.
  - apply SFcompare_None in Hc. apply isNaN_false in Ha, Hb. tauto.
Qed.

Lemma Math_max_not_nan a b :
  JsNum.isNaN a = false -> JsNum.isNaN b = false -> JsNum.isNaN (JsNum.Math_max a b) = false.
Proof. intros Ha Hb. destruct (Math_max_cases a b Ha Hb) as [-> | ->]; assumption. Qed.

Lemma Math_min_not_nan a b :
  JsNum.isNaN a = false -> JsNum.isNaN b = false -> JsNum.isNaN (JsNum.Math_min a b) = false.
Proof. intros Ha Hb. destruct (Math_min_cases a b Ha Hb) as [-> | ->]; assumption. Qed.

Lemma Math_max_ge a b :
  JsNum.isNaN a = false -> JsNum.isNaN b = false ->
  JsNum.le a (JsNum.Math_max a b) = true /\ JsNum.le b (JsNum.Math_max a b) = true.
Proof.
  intros Ha Hb. unfold JsNum.Math_max. pose proof (compare_cases a b) as Hc.
  pose proof (SFcompare_swap (Prim2SF a) (Prim2SF b)) as Hs.
  rewrite !le_spec. unfold SFleb.
  destruct (PrimFloat.compare a b); rewrite Hc in Hs; simpl in Hs.
  - destruct (JsNum.is_neg_zero a); rewrite ?Hc, ?Hs, ?SFcompare_refl by (apply isNaN_false; assumption); auto.
  - rewrite ?Hc, ?Hs, ?SFcompare_refl by (apply isNaN_false; assumption); auto.
  - rewrite ?Hc, ?Hs, ?SFcompare_refl by (apply isNaN_false; assumption); auto.
  - apply SFcompare_None in Hc. apply isNaN_false in Ha, Hb. tauto.
Qed.

Lemma Math_min_le a b :
  JsNum.isNaN a = false -> JsNum.isNaN b = false ->
  JsNum.le (JsNum.Math_min a b) a = true /\ JsNum.le (JsNum.Math_min a b) b = true.
Proof.
  intros Ha Hb. unfold JsNum.Math_min. pose proof (compare_cases a b) as Hc.
  pose proof (SFcompare_swap (Prim2SF a) (Prim2SF b)) as Hs.
  rewrite !le_spec. unfold SFleb.
  destruct (PrimFloat.compare a b); rewrite Hc in Hs; simpl in Hs.
  - destruct (JsNum.is_neg_zero a); rewrite ?Hc, ?Hs, ?SFcompare_refl by (apply isNaN_false; assumption); auto.
  - rewrite ?Hc, ?Hs, ?SFcompare_refl by (apply isNaN_false; assumption); auto.
  - rewrite ?Hc, ?Hs, ?SFcompare_refl by (apply isNaN_false; assumption); auto.
  - apply SFcompare_None in Hc. apply isNaN_false in Ha, Hb. tauto.
Qed.

Lemma Math_max_lub a b c :
  JsNum.le a c = true -> JsNum.le b c = true -> JsNum.le (JsNum.Math_max a b) c = true.
Proof.
  intros Ha Hb. destruct (le_not_nan _ _ Ha) as [Na _]. destruct (le_not_nan _ _ Hb) as [Nb _].
  destruct (Math_max_cases a b Na Nb) as [-> | ->]; assumption.
Qed.

Lemma Prim2SF_zero x :
  PrimFloat.is_zero x = true -> Prim2SF x = S754_zero (PrimFloat.get_sign x).
Proof.
  intros Hz.
  assert (Hn : PrimFloat.is_nan x = false).
  { destruct (PrimFloat.is_nan x) eqn:En; [|reflexivity].
    apply (isNaN_spec x) in En. unfold PrimFloat.is_zero in Hz.
    rewrite FloatAxioms.eqb_spec, En in Hz. discriminate. }
  unfold Prim2SF. rewrite Hn, Hz. reflexivity.
Qed.

Lemma is_zero_spec x :
  PrimFloat.is_zero x = match Prim2SF x with S754_zero _ => true | _ => false end.
Proof.
  unfold PrimFloat.is_zero. rewrite FloatAxioms.eqb_spec.
  change (Prim2SF 0%float) with (S754_zero false).
  destruct (Prim2SF x) as [[]|[]| |[] m e]; reflexivity.
Qed.

Lemma is_neg_zero_spec x : JsNum.is_neg_zero x = true <-> Prim2SF x = S754_zero true.
Proof.
  unfold JsNum.is_neg_zero. split.
  - intros Hz. apply andb_prop in Hz as [Hz Hs].
    rewrite (Prim2SF_zero x Hz), Hs. reflexivity.
  - intros Hx. assert (Hz : PrimFloat.is_zero x = true) by (rewrite is_zero_spec, Hx; reflexivity).
    rewrite Hz. pose proof (Prim2SF_zero x Hz) as Hx'. rewrite Hx in Hx'.
    injection Hx' as <-. reflexivity.
Qed.

Lemma Math_min_spec a b :
  Prim2SF (JsNum.Math_min a b) = JsNum.sf_min (Prim2SF a) (Prim2SF b).
Proof.
  unfold JsNum.Math_min, JsNum.sf_min. pose proof (compare_cases a b) as Hc.
  destruct (PrimFloat.compare a b); rewrite Hc; try reflexivity.
  destruct (JsNum.is_neg_zero a) eqn:E.
  - apply is_neg_zero_spec in E. rewrite E. reflexivity.
  - destruct (Prim2SF a) as [[]| | |] eqn:Ea; try reflexivity.
    apply is_neg_zero_spec in Ea. congruence.
Qed.

(** [Math.min] is commutative, associative and idempotent on all numbers. *)
Lemma Math_min_comm a b : JsNum.Math_min a b = JsNum.Math_min b a.
Proof. apply Prim2SF_inj. rewrite !Math_min_spec. apply sf_min_comm. Qed.

Lemma Math_min_assoc a b c :
  JsNum.Math_min a (JsNum.Math_min b c) = JsNum.Math_min (JsNum.Math_min a b) c.
Proof. apply Prim2SF_inj. rewrite !Math_min_spec. apply sf_min_assoc. Qed.

Lemma Math_min_idem a : JsNum.Math_min a a = a.
Proof.
  apply Prim2SF_inj. rewrite Math_min_spec. unfold JsNum.sf_min.
  destruct (Prim2SF a) as [[]|[]| |[] m e] eqn:Ea; simpl; try reflexivity;
    rewrite Z.compare_refl, Pos.compare_cont_refl; reflexivity.
Qed.

(** The sign of a difference: [a - b > 0] exactly when [a > b], for all
    numbers ([NaN] included: both sides are false). *)
Lemma sub_gt0 a b : JsNum.lt 0%float (PrimFloat.sub a b) = JsNum.lt b a.
Proof.
  rewrite !lt_spec, FloatAxioms.sub_spec.
  change (Prim2SF 0%float) with (S754_zero false).
  destruct (JsNum.isNaN a) eqn:Na.
  { apply isNaN_spec in Na. rewrite Na. unfold SFltb. simpl.
    destruct (Prim2SF b); reflexivity. }
  destruct (JsNum.isNaN b) eqn:Nb.
  { apply isNaN_spec in Nb. rewrite Nb. unfold SFltb. simpl.
    destruct (Prim2SF a); reflexivity. }
  apply SFsub_gt0; try apply Prim2SF_valid; apply isNaN_false; assumption.
Qed.

(** Truthiness of a number on its [spec_float] image. *)
Lemma truthy_spec x :
  JsNum.truthy x = match Prim2SF x with S754_zero _ | S754_nan => false | _ => true end.
Proof.
  unfold JsNum.truthy. rewrite is_zero_spec.
  destruct (Prim2SF x) as [s|s| |s m e] eqn:Ex; simpl.
  - reflexivity.
  - assert (Hn : JsNum.isNaN x = false) by (apply isNaN_false; congruence).
    unfold JsNum.isNaN in Hn. rewrite Hn. reflexivity.
  - assert (Hn : JsNum.isNaN x = true) by (apply isNaN_spec; assumption).
    unfold JsNum.isNaN in Hn. rewrite Hn. reflexivity.
  - assert (Hn : JsNum.isNaN x = false) by (apply isNaN_false; congruence).
    unfold JsNum.isNaN in Hn. rewrite Hn. reflexivity.
Qed.

Lemma truthy_not_nan x : JsNum.truthy x = true -> JsNum.isNaN x = false.
Proof.
  rewrite truthy_spec. intros Ht. apply isNaN_false. intros Hn. rewrite Hn in Ht. discriminate.
Qed.



End JsNumFacts.

(** ** Rolling counter *)

Section RollingCounter.

(** [pruneDetections] removes a prefix of entries older than the cutoff. *)
Lemma pruneDetections_split now ts :
  exists old, ts = old ++ pruneDetections now ts /\ Forall (fun x => x < now - hour_ms) old.
Proof.
  induction ts as [|t r (old & Hr & Hold)]; simpl.
  - exists []. split; [reflexivity | constructor].
  - destruct (Z.ltb_spec t (now - hour_ms)) as [Hlt|Hge].
    + exists (t :: old). split; [simpl; congruence | constructor; assumption].
    + exists []. split; [reflexivity | constructor].
Qed.

(** What is left starts with an entry inside the window. *)
Lemma pruneDetections_head now ts t r :
  pruneDetections now ts = t :: r -> now - hour_ms <= t.
Proof.
  induction ts as [|x l IH]; simpl; [discriminate|].
  destruct (Z.ltb_spec x (now - hour_ms)) as [Hlt|Hge]; [assumption|].
  intros [= -> _]. assumption.
Qed.

Lemma recorded_app calls c :
  recorded (calls ++ [c]) = recorded calls ++ match c with record_at t => [t] | count_at _ => [] end.
Proof. unfold recorded. rewrite flat_map_app. simpl. rewrite app_nil_r. reflexivity. Qed.

Lemma counter_run_app calls c :
  counter_run (calls ++ [c]) = counter_step (counter_run calls) c.
Proof. unfold counter_run. rewrite fold_left_app. reflexivity. Qed.

Lemma counter_run_inv calls : counter_inv calls (counter_run calls).
Proof.
  induction calls as [|c calls IH] using rev_ind.
  - exists []. split; [reflexivity | intros; constructor].
  - destruct IH as (old & Hrec & Hold). unfold counter_inv.
    rewrite counter_run_app, recorded_app.
    destruct c as [now|now]; simpl; unfold recordDetection.
    + destruct (pruneDetections_split now (counter_run calls ++ [now])) as (d & Hd & Hdold).
      exists (old ++ d). split.
      * rewrite Hrec, <- !app_assoc. f_equal. exact Hd.
      * intros t Ht. rewrite List.map_app in Ht. apply Forall_app in Ht as [Ht1 Ht2].
        apply Forall_app. split; [apply Hold; assumption|].
        inversion Ht2; subst. simpl in *.
        eapply List.Forall_impl; [|exact Hdold]. simpl. intros; lia.
    + destruct (pruneDetections_split now (counter_run calls)) as (d & Hd & Hdold).
      exists (old ++ d). split.
      * rewrite app_nil_r, Hrec, <- app_assoc. f_equal. exact Hd.
      * intros t Ht. rewrite List.map_app in Ht. apply Forall_app in Ht as [Ht1 Ht2].
        apply Forall_app. split; [apply Hold; assumption|].
        inversion Ht2; subst. simpl in *.
        eapply List.Forall_impl; [|exact Hdold]. simpl. intros; lia.
Qed.

Lemma recorded_times calls t :
  Forall (fun c => c <= t) (List.map call_time calls) -> Forall (fun r => r <= t) (recorded calls).
Proof.
  induction calls as [|c calls IH]; simpl; intros Hc; [constructor|].
  inversion Hc; subst. unfold recorded in *. simpl.
  apply Forall_app. split; [|apply IH; assumption].
  destruct c; simpl in *; repeat constructor; assumption.
Qed.

Lemma recorded_sorted calls :
  nondecreasing (List.map call_time calls) -> nondecreasing (recorded calls).
Proof.
  unfold nondecreasing. induction calls as [|c calls IH]; simpl; intros Hs; [constructor|].
  apply StronglySorted_inv in Hs as [Hs Hc].
  destruct c as [t|t]; simpl in *; [|apply IH; assumption].
  constructor; [apply IH; assumption|].
  clear IH Hs. induction calls as [|c calls IH]; simpl; [constructor|].
  inversion Hc; subst. destruct c; simpl in *; [constructor|]; auto.
Qed.

Lemma filter_none {A} (f : A -> bool) l : Forall (fun x => f x = false) l -> List.filter f l = [].
Proof. induction 1 as [|x l Hx _ IH]; simpl; [reflexivity|]. rewrite Hx. exact IH. Qed.

Lemma filter_all {A} (f : A -> bool) l : Forall (fun x => f x = true) l -> List.filter f l = l.
Proof. induction 1 as [|x l Hx _ IH]; simpl; [reflexivity|]. rewrite Hx, IH. reflexivity. Qed.

(** C3 (as amended): after any history of [recordDetection] and
    [getDetectionsLastHour] calls made at non-decreasing times, a count at a
    time [t] no earlier than those calls is the number of recorded
    timestamps in the closed interval from [t - 3,600,000] to [t]: an entry
    exactly one hour old is still counted. *)
Theorem rolling_count_closed_window (calls : list CounterCall) (t : Z) :
  nondecreasing (List.map call_time calls ++ [t]) ->
  snd (getDetectionsLastHour t (counter_run calls)) = in_last_hour t (recorded calls).
Proof.
  intros Hs. unfold nondecreasing in Hs.
  assert (Hcalls : StronglySorted Z.le (List.map call_time calls)).
  { clear -Hs. induction (List.map call_time calls) as [|x l IH]; [constructor|].
    simpl in Hs. apply StronglySorted_inv in Hs as [Hs Hx].
    constructor; [apply IH; assumption|]. apply Forall_app in Hx as [Hx _]. exact Hx. }
  assert (Ht : Forall (fun c => c <= t) (List.map call_time calls)).
  { clear -Hs. induction (List.map call_time calls) as [|x l IH]; [constructor|].
    simpl in Hs. apply StronglySorted_inv in Hs as [Hs Hx].
    constructor; [|apply IH; assumption].
    apply Forall_app in Hx as [_ Hx]. inversion Hx; assumption. }
  destruct (counter_run_inv calls) as (old & Hrec & Hold).
  specialize (Hold t Ht).
  destruct (pruneDetections_split t (counter_run calls)) as (d & Hd & Hdold).
  pose proof (recorded_times calls t Ht) as Hle.
  pose proof (recorded_sorted calls Hcalls) as Hsorted.
  unfold getDetectionsLastHour, in_last_hour. cbn [snd].
  rewrite Hrec, Hd in Hle, Hsorted |- *.
  rewrite <- Hd at 1.
  rewrite !List.filter_app.
  rewrite (filter_none _ old), (filter_none _ d); simpl.
  - f_equal. symmetry. apply filter_all.
    apply Forall_app in Hle as [_ Hle]. apply Forall_app in Hle as [_ Hle].
    unfold nondecreasing in Hsorted.
    destruct (pruneDetections t (counter_run calls)) as [|x r] eqn:Ep; [constructor|].
    pose proof (pruneDetections_head _ _ _ _ Ep) as Hx.
    assert (Hsuf : StronglySorted Z.le (x :: r)).
    { clear -Hsorted. induction old as [|o old IH]; simpl in Hsorted.
      - induction d as [|y d IHd]; simpl in Hsorted; [assumption|].
        apply StronglySorted_inv in Hsorted as [Hsorted _]. auto.
      - apply StronglySorted_inv in Hsorted as [Hsorted _]. auto. }
    apply StronglySorted_inv in Hsuf as [_ Hxr].
    rewrite List.Forall_forall in Hle, Hxr. apply List.Forall_forall. intros y Hy.
    apply andb_true_intro. split; [apply Z.leb_le | apply Z.leb_le; apply Hle; assumption].
    destruct Hy as [<- | Hy]; [lia|]. specialize (Hxr y Hy). lia.
  - eapply List.Forall_impl; [|exact Hdold]. simpl. intros a Ha.
    apply andb_false_intro1. apply Z.leb_gt. assumption.
  - eapply List.Forall_impl; [|exact Hold]. simpl. intros a Ha.
    apply andb_false_intro1. apply Z.leb_gt. assumption.
Qed.

(** An entry recorded at time 0 is counted at time 3,600,000. *)
Lemma rolling_count_closed_window_witness :
  nondecreasing (List.map call_time [record_at 0; count_at 1800000; record_at 1800000] ++ [3600000])
  /\ snd (getDetectionsLastHour 3600000
            (counter_run [record_at 0; count_at 1800000; record_at 1800000])) = 2%nat.
Proof.
  assert (Hs : nondecreasing
                 (List.map call_time [record_at 0; count_at 1800000; record_at 1800000] ++ [3600000])).
  { unfold nondecreasing. simpl. repeat constructor; lia. }
  split; [exact Hs|].
  rewrite (rolling_count_closed_window _ _ Hs). reflexivity.
Defined.

(** C3 as stated fails: the half-open window leaves out the entry that is
    exactly 3,600,000 ms old, the program counts it. *)
Lemma rolling_window_counterexample :
  ~ rolling_window_as_specified [record_at 0] 3600000.
Proof.
  unfold rolling_window_as_specified. intros Hc.
  assert (Hs : nondecreasing (List.map call_time [record_at 0] ++ [3600000])).
  { unfold nondecreasing. simpl. repeat constructor; lia. }
  specialize (Hc Hs). vm_compute in Hc. discriminate.
Qed.

End RollingCounter.

(** ** Rarity classifier *)

Section RarityClassifier.
Import JsNumFacts.

Lemma finite_or_not_nan x d :
  JsNum.isNaN d = false -> JsNum.isNaN (finite_or x d) = false.
Proof.
  intros Hd. unfold finite_or, JsNum.isFinite.
  destruct (PrimFloat.is_nan (Js.Number_ x)) eqn:E; simpl; [assumption|].
  destruct (negb (PrimFloat.is_infinity (Js.Number_ x))); [exact E | assumption].
Qed.

(** Clamping a number from above by 1. *)
Lemma clamp_le_1 x :
  JsNum.isNaN x = false ->
  JsNum.isNaN (JsNum.Math_min 1%float x) = false /\ JsNum.le (JsNum.Math_min 1%float x) 1%float = true.
Proof.
  intros Hx. split.
  - apply Math_min_not_nan; [reflexivity | assumption].
  - apply Math_min_le; [reflexivity | assumption].
Qed.

Lemma epicCutoff_bounds s :
  JsNum.le 0%float (epicCutoff s) = true /\ JsNum.le (epicCutoff s) 1%float = true.
Proof.
  unfold epicCutoff.
  destruct (clamp_le_1 (finite_or (epicOccurrenceThreshold s) DEFAULTS.epicOccurrenceThreshold))
    as [Hn Hl]; [apply finite_or_not_nan; reflexivity|].
  split.
  - apply Math_max_ge; [reflexivity | assumption].
  - apply Math_max_lub; [reflexivity | assumption].
Qed.

Lemma rareCutoff_bounds s :
  JsNum.le (epicCutoff s) (rareCutoff s) = true /\ JsNum.le (rareCutoff s) 1%float = true.
Proof.
  unfold rareCutoff. destruct (epicCutoff_bounds s) as [H0 H1].
  destruct (clamp_le_1 (finite_or (rareOccurrenceThreshold s) DEFAULTS.rareOccurrenceThreshold))
    as [Hn Hl]; [apply finite_or_not_nan; reflexivity|].
  split.
  - apply Math_max_ge; [apply (le_not_nan _ _ H1) | assumption].
  - apply Math_max_lub; assumption.
Qed.

Lemma uncommonCutoff_bounds s :
  JsNum.le (rareCutoff s) (uncommonCutoff s) = true /\ JsNum.le (uncommonCutoff s) 1%float = true.
Proof.
  unfold uncommonCutoff. destruct (rareCutoff_bounds s) as [H0 H1].
  destruct (clamp_le_1 (finite_or (uncommonOccurrenceThreshold s) DEFAULTS.uncommonOccurrenceThreshold))
    as [Hn Hl]; [apply finite_or_not_nan; reflexivity|].
  split.
  - apply Math_max_ge; [apply (le_not_nan _ _ H1) | assumption].
  - apply Math_max_lub; assumption.
Qed.

(** A rarer reading never gets a more common tier. *)
Lemma getCommonality_monotone s o1 o2 :
  JsNum.le o1 o2 = true ->
  (rarity_rank (label (getCommonality s (Some o2)))
   <= rarity_rank (label (getCommonality s (Some o1))))%nat.
Proof.
  intros Hle. destruct (le_not_nan _ _ Hle) as [N1 N2].
  unfold getCommonality. rewrite N1, N2.
  destruct (JsNum.le o2 (epicCutoff s)) eqn:E2.
  { rewrite (le_trans _ _ _ Hle E2). simpl. lia. }
  destruct (JsNum.le o1 (epicCutoff s)) eqn:E1.
  { destruct (JsNum.le o2 (rareCutoff s)), (JsNum.le o2 (uncommonCutoff s)); simpl; lia. }
  destruct (JsNum.le o2 (rareCutoff s)) eqn:R2.
  { rewrite (le_trans _ _ _ Hle R2). simpl. lia. }
  destruct (JsNum.le o1 (rareCutoff s)) eqn:R1.
  { destruct (JsNum.le o2 (uncommonCutoff s)); simpl; lia. }
  destruct (JsNum.le o2 (uncommonCutoff s)) eqn:U2.
  { rewrite (le_trans _ _ _ Hle U2). simpl. lia. }
  destruct (JsNum.le o1 (uncommonCutoff s)); simpl; lia.
Qed.

(** C4: whatever the three configured thresholds are, the cutoffs that
    [getCommonality] uses satisfy [0 <= epic' <= rare' <= uncommon' <= 1];
    every number that is not NaN then gets the tier of the first cutoff it
    does not exceed, and the tiers never invert: a reading at or below
    another never gets a more common tier. *)
Theorem cutoffs_monotone_and_tiers_ordered (s : Settings) :
  (JsNum.le 0%float (epicCutoff s) = true
   /\ JsNum.le (epicCutoff s) (rareCutoff s) = true
   /\ JsNum.le (rareCutoff s) (uncommonCutoff s) = true
   /\ JsNum.le (uncommonCutoff s) 1%float = true)
  /\ (forall o, JsNum.isNaN o = false ->
        label (getCommonality s (Some o)) =
          if JsNum.le o (epicCutoff s) then Epic
          else if JsNum.le o (rareCutoff s) then Rare
          else if JsNum.le o (uncommonCutoff s) then Uncommon
          else Common)
  /\ (forall o1 o2, JsNum.le o1 o2 = true ->
        (rarity_rank (label (getCommonality s (Some o2)))
         <= rarity_rank (label (getCommonality s (Some o1))))%nat).
Proof.
  split; [|split].
  - pose proof (epicCutoff_bounds s). pose proof (rareCutoff_bounds s).
    pose proof (uncommonCutoff_bounds s). tauto.
  - intros o Ho. unfold getCommonality. rewrite Ho.
    destruct (JsNum.le o (epicCutoff s)); [reflexivity|].
    destruct (JsNum.le o (rareCutoff s)); [reflexivity|].
    destruct (JsNum.le o (uncommonCutoff s)); reflexivity.
  - apply getCommonality_monotone.
Qed.

End RarityClassifier.

(** Thresholds configured out of order (epic 0.9, rare the text "0.2",
    uncommon 5): the cutoffs used are 0.9, 0.9 and 1, and a reading of 0.5
    is Epic like a reading of 0.05. *)
Lemma cutoffs_monotone_and_tiers_ordered_witness :
  (JsNum.le 0%float (epicCutoff Sample.out_of_order) = true
   /\ JsNum.le (epicCutoff Sample.out_of_order) (rareCutoff Sample.out_of_order) = true
   /\ JsNum.le (rareCutoff Sample.out_of_order) (uncommonCutoff Sample.out_of_order) = true
   /\ JsNum.le (uncommonCutoff Sample.out_of_order) 1%float = true)
  /\ (rarity_rank (label (getCommonality Sample.out_of_order (Some 0.5%float)))
      <= rarity_rank (label (getCommonality Sample.out_of_order (Some 0.05%float))))%nat
  /\ label (getCommonality Sample.out_of_order (Some 0.5%float)) = Epic.
Proof.
  destruct (cutoffs_monotone_and_tiers_ordered Sample.out_of_order) as (Hc & Ht & Hm).
  split; [exact Hc|]. split.
  - apply Hm. reflexivity.
  - rewrite Ht by reflexivity. reflexivity.
Defined.

(** ** Rotation: the order of the ticks *)

Section RotationOrder.
Import JsNumFacts.

(** *** [Array.prototype.sort] with the comparator of [getTodayBirds] *)

Lemma insert_Permutation x l :
  Permutation (JsArray.insert by_occurrence x l) (x :: l).
Proof.
  induction l as [|y r IH]; simpl; [reflexivity|].
  destruct (JsNum.lt 0%float (by_occurrence x y)); [|reflexivity].
  rewrite IH. apply perm_swap.
Qed.

Lemma sort_Permutation l : Permutation (JsArray.sort by_occurrence l) l.
Proof.
  induction l as [|x l IH]; simpl; [reflexivity|].
  rewrite insert_Permutation. constructor. exact IH.
Qed.

Lemma insert_sorted x l :
  JsNum.isNaN (occ_key x) = false ->
  Forall (fun b => JsNum.isNaN (occ_key b) = false) l ->
  StronglySorted occ_le l ->
  StronglySorted occ_le (JsArray.insert by_occurrence x l).
Proof.
  intros Hx Hl Hs. induction Hs as [|y r Hs IH Hy]; simpl.
  - repeat constructor.
  - apply Forall_cons in Hl as [Ny Nr].
    unfold by_occurrence at 1. rewrite sub_gt0.
    destruct (JsNum.lt (occ_key y) (occ_key x)) eqn:E.
    + constructor; [apply IH; assumption|].
      eapply Permutation_Forall; [symmetry; apply insert_Permutation|].
      constructor; [apply lt_le; assumption | assumption].
    + assert (Hxy : occ_le x y) by (unfold occ_le; rewrite le_iff_not_lt, E by assumption; reflexivity).
      constructor; [constructor; assumption|].
      constructor; [assumption|].
      eapply List.Forall_impl; [|exact Hy]. intros z Hz. unfold occ_le in *.
      eapply le_trans; eassumption.
Qed.

Lemma sort_sorted l :
  Forall (fun b => JsNum.isNaN (occ_key b) = false) l ->
  StronglySorted occ_le (JsArray.sort by_occurrence l).
Proof.
  induction 1 as [|x l Hx Hl IH]; simpl; [constructor|].
  apply insert_sorted; [assumption| |assumption].
  eapply Permutation_Forall; [symmetry; apply sort_Permutation | assumption].
Qed.

(** *** One tick *)

Lemma getTodayBirds_same clock clock' w w' :
  todayKey clock' = todayKey clock -> dailyBirds w' = dailyBirds w ->
  getTodayBirds clock' w' = getTodayBirds clock w.
Proof. intros Hk Hd. unfold getTodayBirds. rewrite Hk, Hd. reflexivity. Qed.

Lemma start_index_lt state n : (0 < n)%nat -> (start_index state n < n)%nat.
Proof.
  unfold start_index. intros Hn. destruct (Nat.leb_spec n (index state)); lia.
Qed.

Lemma rotateOnce_shows clock context w state first rest :
  rotationState w !! context = Some state ->
  getTodayBirds clock w = first :: rest ->
  let birds := first :: rest in
  let i := start_index state (length birds) in
  exists w' state' n,
    rotateOnce clock context w =
      (w', [setImageTitle context
              (formatTitle (settings w) (Bird.name (nth i birds first))
                 (Bird.confidence (nth i birds first)) n (Bird.occurrence (nth i birds first)))
              "today"])
    /\ settings w' = settings w
    /\ dailyBirds w' = dailyBirds w
    /\ rotationState w' !! context = Some state'
    /\ index state' = S i
    /\ timer state' =
         Some (delayMs (settings w)
                 match Bird.occurrence (nth i birds first) with
                 | Some o => JsNum.le o (number_or (rareOccurrenceThreshold (settings w))
                                                   DEFAULTS.rareOccurrenceThreshold)
                 | None => false
                 end).
Proof.
  intros Hst Hb birds i. unfold rotateOnce. rewrite Hst, Hb.
  destruct (getDetectionsLastHour (Date_now clock) (detectionTimestamps w)) as [ts n].
  eexists _, _, n. split; [reflexivity|].
  cbn [settings dailyBirds rotationState with_rotation].
  rewrite lookup_insert_eq. repeat split; reflexivity.
Qed.

(** *** Consecutive ticks *)

Lemma cycle_S birds first k ticks :
  (k < length birds)%nat ->
  cycle birds first k (S ticks) =
    nth k birds first :: cycle birds first ((S k) mod length birds) ticks.
Proof.
  intros Hk. unfold cycle. simpl. rewrite Nat.add_0_r, Nat.mod_small by assumption.
  f_equal. rewrite <- seq_shift, List.map_map. apply List.map_ext. intros j.
  rewrite Nat.Div0.add_mod_idemp_l. do 2 f_equal. lia.
Qed.

Lemma start_index_next state' n i :
  (i < n)%nat -> index state' = S i -> start_index state' n = (S i mod n)%nat.
Proof.
  intros Hi Hs. unfold start_index. rewrite Hs.
  destruct (Nat.leb_spec n (S i)).
  - assert (S i = n) as -> by lia. rewrite Nat.Div0.mod_same. reflexivity.
  - rewrite Nat.mod_small by lia. reflexivity.
Qed.

Lemma run_ticks_shows clock context first rest clocks :
  Forall (fun c => todayKey c = todayKey clock) clocks ->
  forall w state,
    rotationState w !! context = Some state ->
    getTodayBirds clock w = first :: rest ->
    Forall2 (shows (settings w) context) (snd (run_ticks clocks context w))
            (cycle (first :: rest) first (start_index state (length (first :: rest)))
                   (length clocks)).
Proof.
  induction 1 as [|c clocks Hc Hcs IH]; intros w state Hst Hb.
  - simpl. constructor.
  - assert (Hb' : getTodayBirds c w = first :: rest)
      by (rewrite <- Hb; apply getTodayBirds_same; [assumption | reflexivity]).
    destruct (rotateOnce_shows c context w state first rest Hst Hb')
      as (w' & state' & n & Hr & Hset & Hdb & Hst' & Hidx & _).
    pose proof (start_index_lt state (length (first :: rest)) ltac:(simpl; lia)) as Hlt.
    cbn [run_ticks]. rewrite Hr.
    assert (Hb'' : getTodayBirds clock w' = first :: rest)
      by (rewrite <- Hb; apply getTodayBirds_same; [reflexivity | assumption]).
    specialize (IH w' state' Hst' Hb'').
    destruct (run_ticks clocks context w') as [w2 out2]. cbn [snd app] in *.
    cbn [length]. rewrite cycle_S by assumption.
    constructor.
    + exists n. reflexivity.
    + rewrite (start_index_next state' _ _ Hlt Hidx), Hset in IH. exact IH.
Qed.

(** Reading a list cyclically from [k] for its whole length is the list
    rotated by [k]. *)
Lemma cycle_rotate birds first k :
  (k < length birds)%nat ->
  cycle birds first k (length birds) = rotate_from k birds.
Proof.
  intros Hk. unfold cycle, rotate_from.
  apply (nth_ext _ _ first first).
  - rewrite length_map, length_seq, length_app, length_skipn, length_firstn. lia.
  - rewrite length_map, length_seq. intros j Hj.
    erewrite (nth_indep _ _ (nth ((k + 0) mod length birds) birds first)) by (rewrite length_map, length_seq; lia).
    change (nth ((k + 0) mod length birds) birds first)
      with ((fun j => nth ((k + j) mod length birds) birds first) 0%nat).
    rewrite List.map_nth, seq_nth by assumption. simpl.
    destruct (Nat.lt_ge_cases (k + j) (length birds)) as [Hlt|Hge].
    + rewrite Nat.mod_small by assumption.
      rewrite app_nth1 by (rewrite length_skipn; lia).
      rewrite nth_skipn. reflexivity.
    + rewrite app_nth2 by (rewrite length_skipn; lia).
      rewrite length_skipn, nth_firstn.
      destruct (Nat.ltb_spec (j - (length birds - k)) k); [|lia].
      f_equal. replace (k + j)%nat with ((j - (length birds - k)) + 1 * length birds)%nat by lia.
      rewrite Nat.Div0.mod_add. apply Nat.mod_small. lia.
Qed.

Lemma cycle_snoc birds first k ticks :
  cycle birds first k (S ticks) =
    cycle birds first k ticks ++ [nth ((k + ticks) mod length birds) birds first].
Proof. unfold cycle. rewrite seq_S, List.map_app. reflexivity. Qed.

Lemma cycle_length birds first k ticks : length (cycle birds first k ticks) = ticks.
Proof. unfold cycle. rewrite length_map, length_seq. reflexivity. Qed.

(** C1 (as amended): with a rotation state for the context, a fixed list of
    [N >= 1] species for today and unchanged settings, [N + 1] consecutive
    ticks show the sorted list read cyclically from the context's current
    index (wrapped to 0 when it has reached [N]): the first [N] ticks show
    every record of today's map exactly once, in ascending order of
    occurrence when the cycle starts at index 0, and tick [N + 1] shows what
    the first tick showed.  The sorted list itself ascends by occurrence, a
    missing occurrence counting as 1. *)
Theorem rotation_cycle (clock : Clock) (context : string) (w : World) (state : RotationState)
        (clocks : list Clock) :
  rotationState w !! context = Some state ->
  (1 <= length (getTodayBirds clock w))%nat ->
  length clocks = S (length (getTodayBirds clock w)) ->
  Forall (fun c => todayKey c = todayKey clock) clocks ->
  let birds := getTodayBirds clock w in
  let n := length birds in
  exists displayed,
    Forall2 (shows (settings w) context) (snd (run_ticks clocks context w)) displayed
    /\ firstn n displayed = rotate_from (start_index state n) birds
    /\ (forall dayMap, dailyBirds w !! todayKey clock = Some dayMap ->
         Permutation (firstn n displayed) (OrderedMap.values dayMap))
    /\ nth_error displayed n = nth_error displayed 0
    /\ (start_index state n = 0%nat -> firstn n displayed = birds)
    /\ (Forall (fun b => JsNum.isNaN (occ_key b) = false) birds -> StronglySorted occ_le birds).
Proof.
  intros Hst Hn Hlen Hclocks. cbv zeta.
  destruct (getTodayBirds clock w) as [|first rest] eqn:Hb; [simpl in Hn; lia|].
  set (n := length (first :: rest)) in *.
  pose proof (run_ticks_shows clock context first rest clocks Hclocks w state Hst Hb) as Hshow.
  rewrite Hlen in Hshow. fold n in Hshow.
  assert (Hk : (start_index state n < n)%nat) by (apply start_index_lt; unfold n; simpl; lia).
  assert (Hfirst : firstn n (cycle (first :: rest) first (start_index state n) (S n))
                   = rotate_from (start_index state n) (first :: rest)).
  { rewrite cycle_snoc, firstn_app, cycle_length, Nat.sub_diag, firstn_O, app_nil_r.
    rewrite firstn_all2 by (rewrite cycle_length; lia).
    apply cycle_rotate. exact Hk. }
  exists (cycle (first :: rest) first (start_index state n) (S n)).
  split; [exact Hshow|]. split; [exact Hfirst|]. split; [|split; [|split]].
  - intros dayMap Hday. rewrite Hfirst. unfold rotate_from.
    rewrite Permutation_app_comm, firstn_skipn.
    rewrite <- Hb. unfold getTodayBirds. rewrite Hday. apply sort_Permutation.
  - rewrite cycle_snoc at 1.
    rewrite nth_error_app2 by (rewrite cycle_length; lia).
    rewrite cycle_length, Nat.sub_diag. cbn [nth_error].
    rewrite cycle_S by exact Hk. cbn [nth_error].
    do 2 f_equal. fold n.
    replace (start_index state n + n)%nat with (start_index state n + 1 * n)%nat by lia.
    rewrite Nat.Div0.mod_add. apply Nat.mod_small. exact Hk.
  - intros H0. rewrite Hfirst, H0. unfold rotate_from. simpl. f_equal. apply app_nil_r.
  - intros Hnan. rewrite <- Hb in *. unfold getTodayBirds in *.
    destruct (dailyBirds w !! todayKey clock) as [dayMap|]; [|constructor].
    apply sort_sorted.
    eapply Permutation_Forall; [apply sort_Permutation | exact Hnan].
Qed.

End RotationOrder.

Lemma rotation_cycle_witness :
  let w := Sample.two_birds default_settings 1 in
  let birds := getTodayBirds Sample.clock w in
  exists displayed,
    Forall2 (shows (settings w) "tile") (snd (run_ticks (repeat Sample.clock 3) "tile" w)) displayed
    /\ firstn 2 displayed = rotate_from 1 birds
    /\ (forall dayMap, dailyBirds w !! "2023-11-14" = Some dayMap ->
         Permutation (firstn 2 displayed) (OrderedMap.values dayMap))
    /\ nth_error displayed 2 = nth_error displayed 0
    /\ (1%nat = 0%nat -> firstn 2 displayed = birds)
    /\ (Forall (fun b => JsNum.isNaN (occ_key b) = false) birds -> StronglySorted occ_le birds).
Proof.
  apply (rotation_cycle Sample.clock "tile" (Sample.two_birds default_settings 1)
           {| index := 1; timer := None; _lastRareHold := false |} (repeat Sample.clock 3)).
  - reflexivity.
  - vm_compute. lia.
  - reflexivity.
  - repeat constructor.
Defined.

(** C1 as stated fails for a context in the middle of its cycle: with
    Osprey (0.1) and Wren (0.5) seen today and the index at 1, the next two
    ticks show Wren and then Osprey, which is not ascending. *)
Lemma rotation_cycle_counterexample :
  ~ rotation_cycle_as_specified Sample.clock "tile" (Sample.two_birds default_settings 1).
Proof.
  unfold rotation_cycle_as_specified. intros Hc. cbv zeta in Hc.
  destruct (Hc ltac:(vm_compute; lia) ltac:(eexists; reflexivity)) as (_ & Hasc & _).
  vm_compute in Hasc.
  apply StronglySorted_inv in Hasc as [_ Hall].
  apply Forall_cons in Hall as [Hle _]. discriminate Hle.
Qed.

(** ** Rotation: the delay of the next tick *)

Section RotationDelay.
Import JsNumFacts.






End RotationDelay.




(** ** Daily aggregate *)

Section DailyAggregate.
Import JsNumFacts.

Lemma OrderedMap_get_set_eq {V} (m : list (string * V)) k v :
  OrderedMap.get (OrderedMap.set m k v) k = Some v.
Proof.
  induction m as [|[k' v'] r IH]; simpl.
  - rewrite String.eqb_refl. reflexivity.
  - destruct (String.eqb k' k) eqn:E; simpl.
    + rewrite String.eqb_refl. reflexivity.
    + rewrite E. exact IH.
Qed.

Lemma OrderedMap_get_set_ne {V} (m : list (string * V)) k k' v :
  k <> k' -> OrderedMap.get (OrderedMap.set m k v) k' = OrderedMap.get m k'.
Proof.
  intros Hne. induction m as [|[k0 v0] r IH]; simpl.
  - destruct (String.eqb_spec k k'); [contradiction | reflexivity].
  - destruct (String.eqb_spec k0 k) as [->|Hk]; simpl.
    + destruct (String.eqb_spec k k'); [contradiction | reflexivity].
    + destruct (String.eqb_spec k0 k'); [reflexivity | exact IH].
Qed.

Lemma scheduleCacheSave_dailyBirds w : dailyBirds (scheduleCacheSave w) = dailyBirds w.
Proof. unfold scheduleCacheSave. destruct (cacheSaveTimer w); reflexivity. Qed.

(** The aggregate after an upsert: the one day of the detection, holding
    that day's former map with the merged record set. *)
Lemma updateDailyBirds_dailyBirds clock d w :
  JsStr.nonempty (Detection.name d) = true ->
  dailyBirds (updateDailyBirds clock d w) =
    {[ dateKey_of clock d :=
         OrderedMap.set (default [] (dailyBirds w !! dateKey_of clock d)) (Detection.name d)
           (merged_record clock d (stored w (dateKey_of clock d) (Detection.name d))) ]}.
Proof.
  intros Hname. unfold updateDailyBirds. rewrite Hname. cbn [negb].
  rewrite scheduleCacheSave_dailyBirds. cbn [dailyBirds with_dailyBirds].
  set (k := dateKey_of clock d).
  assert (Hday : default [] (match dailyBirds w !! k with
                             | Some _ => dailyBirds w
                             | None => <[k := []]> (dailyBirds w)
                             end !! k) = default [] (dailyBirds w !! k)).
  { destruct (dailyBirds w !! k) eqn:E; [rewrite E; reflexivity|].
    rewrite lookup_insert_eq. reflexivity. }
  rewrite Hday.
  assert (Hst : OrderedMap.get (default [] (dailyBirds w !! k)) (Detection.name d)
                = stored w k (Detection.name d)).
  { unfold stored. destruct (dailyBirds w !! k); reflexivity. }
  rewrite Hst. unfold pruneOldDays.
  apply map_eq. intros i.
  destruct (decide (i = k)) as [->|Hne].
  - rewrite lookup_singleton_eq.
    apply map_lookup_filter_Some. split; [apply lookup_insert_eq | reflexivity].
  - rewrite lookup_singleton_ne by congruence.
    apply map_lookup_filter_None. right. intros x _. simpl. exact Hne.
Qed.

Lemma stored_updateDailyBirds clock d w :
  JsStr.nonempty (Detection.name d) = true ->
  stored (updateDailyBirds clock d w) (dateKey_of clock d) (Detection.name d) =
    Some (merged_record clock d (stored w (dateKey_of clock d) (Detection.name d))).
Proof.
  intros Hname. unfold stored at 1. rewrite updateDailyBirds_dailyBirds by assumption.
  rewrite lookup_singleton_eq. apply OrderedMap_get_set_eq.
Qed.

Lemma upsert_occurrence clock d w o :
  JsStr.nonempty (Detection.name d) = true ->
  Detection.occurrence d = Some o ->
  stored_occurrence (updateDailyBirds clock d w) (dateKey_of clock d) (Detection.name d) =
    Some (JsNum.Math_min o
            (match stored_occurrence w (dateKey_of clock d) (Detection.name d) with
             | Some e => e
             | None => o
             end)).
Proof.
  intros Hname Ho. unfold stored_occurrence at 1.
  rewrite stored_updateDailyBirds by assumption.
  unfold merged_record, stored_occurrence. cbn [Bird.occurrence]. rewrite Ho.
  destruct (stored w (dateKey_of clock d) (Detection.name d)); reflexivity.
Qed.

(** C2: two upserts of one species on one day leave, in either order, the
    same stored occurrence: the minimum of the two observed values and of
    the value stored before, if there was one.  An upsert without an
    occurrence leaves the stored occurrence as it was.  The confidence
    observed by the detection and the time of the upsert replace what was
    stored (a detection that observes no confidence leaves the stored one).
    [Math.min] of two numbers that are not NaN is one of them and is at or
    below both. *)
Theorem merge_law (c1 c2 : Clock) (d1 d2 : Detection.t) (w : World)
        (dateKey name : string) (o1 o2 : float) :
  JsStr.nonempty name = true ->
  Detection.name d1 = name -> Detection.name d2 = name ->
  dateKey_of c1 d1 = dateKey -> dateKey_of c2 d2 = dateKey ->
  Detection.occurrence d1 = Some o1 -> Detection.occurrence d2 = Some o2 ->
  let after12 := updateDailyBirds c2 d2 (updateDailyBirds c1 d1 w) in
  let after21 := updateDailyBirds c1 d1 (updateDailyBirds c2 d2 w) in
  stored_occurrence after12 dateKey name = stored_occurrence after21 dateKey name
  /\ stored_occurrence after12 dateKey name =
       Some (match stored_occurrence w dateKey name with
             | Some e => JsNum.Math_min (JsNum.Math_min o1 o2) e
             | None => JsNum.Math_min o1 o2
             end)
  /\ (forall (c : Clock) (d : Detection.t) (w0 : World),
        JsStr.nonempty (Detection.name d) = true ->
        Detection.occurrence d = None ->
        stored_occurrence (updateDailyBirds c d w0) (dateKey_of c d) (Detection.name d)
        = stored_occurrence w0 (dateKey_of c d) (Detection.name d))
  /\ (forall (c : Clock) (d : Detection.t) (w0 : World) (conf : float),
        JsStr.nonempty (Detection.name d) = true ->
        Detection.confidence d = Some conf ->
        exists b, stored (updateDailyBirds c d w0) (dateKey_of c d) (Detection.name d) = Some b
                  /\ Bird.confidence b = Some conf
                  /\ Bird.lastSeen b = Date_now c)
  /\ (forall (c : Clock) (d : Detection.t) (w0 : World),
        JsStr.nonempty (Detection.name d) = true ->
        Detection.confidence d = None ->
        exists b, stored (updateDailyBirds c d w0) (dateKey_of c d) (Detection.name d) = Some b
                  /\ Bird.confidence b =
                       match stored w0 (dateKey_of c d) (Detection.name d) with
                       | Some e => Bird.confidence e
                       | None => None
                       end
                  /\ Bird.lastSeen b = Date_now c)
  /\ (forall a b : float,
        JsNum.isNaN a = false -> JsNum.isNaN b = false ->
        JsNum.le (JsNum.Math_min a b) a = true
        /\ JsNum.le (JsNum.Math_min a b) b = true
        /\ (JsNum.Math_min a b = a \/ JsNum.Math_min a b = b)).
Proof.
  intros Hname Hn1 Hn2 Hk1 Hk2 Ho1 Ho2 after12 after21.
  assert (H12 : stored_occurrence after12 dateKey name =
                Some (JsNum.Math_min o2 (JsNum.Math_min o1
                        (match stored_occurrence w dateKey name with Some e => e | None => o1 end)))).
  { subst after12. rewrite <- Hk2 at 1. rewrite <- Hn2 at 1.
    rewrite (upsert_occurrence c2 d2 _ o2) by (rewrite ?Hn2; assumption).
    rewrite Hk2, Hn2, <- Hk1 at 1. rewrite <- Hn1 at 1.
    rewrite (upsert_occurrence c1 d1 _ o1) by (rewrite ?Hn1; assumption).
    rewrite Hk1, Hn1. reflexivity. }
  assert (H21 : stored_occurrence after21 dateKey name =
                Some (JsNum.Math_min o1 (JsNum.Math_min o2
                        (match stored_occurrence w dateKey name with Some e => e | None => o2 end)))).
  { subst after21. rewrite <- Hk1 at 1. rewrite <- Hn1 at 1.
    rewrite (upsert_occurrence c1 d1 _ o1) by (rewrite ?Hn1; assumption).
    rewrite Hk1, Hn1, <- Hk2 at 1. rewrite <- Hn2 at 1.
    rewrite (upsert_occurrence c2 d2 _ o2) by (rewrite ?Hn2; assumption).
    rewrite Hk2, Hn2. reflexivity. }
  assert (Heq : forall e : option float,
             JsNum.Math_min o2 (JsNum.Math_min o1 (match e with Some x => x | None => o1 end))
             = match e with
               | Some x => JsNum.Math_min (JsNum.Math_min o1 o2) x
               | None => JsNum.Math_min o1 o2
               end
             /\ JsNum.Math_min o1 (JsNum.Math_min o2 (match e with Some x => x | None => o2 end))
             = match e with
               | Some x => JsNum.Math_min (JsNum.Math_min o1 o2) x
               | None => JsNum.Math_min o1 o2
               end).
  { intros [x|].
    - split.
      + rewrite Math_min_assoc, (Math_min_comm o2 o1). reflexivity.
      + rewrite Math_min_assoc. reflexivity.
    - rewrite !Math_min_idem. split; [apply Math_min_comm | reflexivity]. }
  destruct (Heq (stored_occurrence w dateKey name)) as [E1 E2].
  split; [|split; [|split; [|split; [|split]]]].
  - rewrite H12, H21, E1, E2. reflexivity.
  - rewrite H12, E1. reflexivity.
  - intros c d w0 Hnm Hnone. unfold stored_occurrence at 1.
    rewrite stored_updateDailyBirds by assumption.
    unfold merged_record, stored_occurrence. cbn [Bird.occurrence]. rewrite Hnone.
    destruct (stored w0 (dateKey_of c d) (Detection.name d)) as [b|]; [|reflexivity].
    destruct (Bird.occurrence b) as [e|]; [|reflexivity].
    rewrite Math_min_idem. reflexivity.
  - intros c d w0 conf Hnm Hconf. eexists. split; [apply stored_updateDailyBirds; assumption|].
    unfold merged_record. cbn [Bird.confidence Bird.lastSeen]. rewrite Hconf. split; reflexivity.
  - intros c d w0 Hnm Hconf. eexists. split; [apply stored_updateDailyBirds; assumption|].
    unfold merged_record. cbn [Bird.confidence Bird.lastSeen]. rewrite Hconf. split; reflexivity.
  - intros a b Ha Hb. destruct (Math_min_le a b Ha Hb) as [L1 L2].
    split; [exact L1|]. split; [exact L2|]. apply Math_min_cases; assumption.
Qed.

(** C6: after an upsert of a detection (whose name, as everywhere in the
    pipeline, is not empty) with date key [k], the aggregate has the single
    key [k]; no record is stored under any other day; today's list is empty
    unless today is [k]; and when [k] was not the stored day, today's list
    on day [k] is the record of this detection alone. *)
Theorem single_day_retention (clock : Clock) (d : Detection.t) (w : World) :
  JsStr.nonempty (Detection.name d) = true ->
  let k := dateKey_of clock d in
  let w' := updateDailyBirds clock d w in
  dom (dailyBirds w') = {[ k ]}
  /\ (forall k' name, k' <> k -> stored w' k' name = None)
  /\ (forall c, todayKey c <> k -> getTodayBirds c w' = [])
  /\ (dailyBirds w !! k = None ->
      forall c, todayKey c = k -> getTodayBirds c w' = [merged_record clock d None]).
Proof.
  intros Hname k w'. subst w'.
  pose proof (updateDailyBirds_dailyBirds clock d w Hname) as Hdb. fold k in Hdb.
  split; [|split; [|split]].
  - rewrite Hdb. apply dom_singleton_L.
  - intros k' name Hne. unfold stored. rewrite Hdb, lookup_singleton_ne by congruence. reflexivity.
  - intros c Hne. unfold getTodayBirds. rewrite Hdb, lookup_singleton_ne by congruence. reflexivity.
  - intros Hnone c Hc. unfold getTodayBirds. rewrite Hdb, Hc, lookup_singleton_eq.
    unfold stored. rewrite Hnone. reflexivity.
Qed.

End DailyAggregate.

Lemma merge_law_witness :
  stored_occurrence
    (updateDailyBirds Sample.clock (Sample.detection "Wren" (Some 0.2%float) None)
       (updateDailyBirds Sample.clock (Sample.detection "Wren" (Some 0.5%float) None)
          Sample.empty_world)) "2023-11-14" "Wren"
  = Some 0.2%float
  /\ stored_occurrence
       (updateDailyBirds Sample.clock (Sample.detection "Wren" (Some 0.5%float) None)
          (updateDailyBirds Sample.clock (Sample.detection "Wren" (Some 0.2%float) None)
             Sample.empty_world)) "2023-11-14" "Wren"
     = Some 0.2%float.
Proof.
  destruct (merge_law Sample.clock Sample.clock
              (Sample.detection "Wren" (Some 0.5%float) None)
              (Sample.detection "Wren" (Some 0.2%float) None)
              Sample.empty_world "2023-11-14" "Wren" 0.5%float 0.2%float
              eq_refl eq_refl eq_refl eq_refl eq_refl eq_refl eq_refl) as (H1 & H2 & _).
  split.
  - rewrite H2. reflexivity.
  - rewrite <- H1, H2. reflexivity.
Defined.

Lemma single_day_retention_witness :
  dom (dailyBirds (updateDailyBirds Sample.clock
                     (Sample.detection "Wren" (Some 0.2%float) (Some "2023-11-15"))
                     (Sample.two_birds default_settings 0)))
  = {[ "2023-11-15" ]}.
Proof.
  apply (single_day_retention Sample.clock
           (Sample.detection "Wren" (Some 0.2%float) (Some "2023-11-15"))
           (Sample.two_birds default_settings 0) eq_refl).
Defined.

(** ** Image cache *)

Section ImageCache.

Lemma count_occ_snoc (l : list string) (x y : string) :
  count_occ string_dec (l ++ [x]) y =
    (count_occ string_dec l y + if string_dec x y then 1 else 0)%nat.
Proof. rewrite count_occ_app. simpl. destruct (string_dec x y); reflexivity. Qed.

(** While the request for [url] is in flight and nothing is cached for it,
    no event other than its completion changes that, and none calls [fetch]
    for [url]. *)
Lemma in_flight_stable avail url promise events :
  Forall (not_settling url) events ->
  forall st,
    imageInFlight st !! url = Some promise ->
    imageCache st !! url = None ->
    imageInFlight (image_run avail st events) !! url = Some promise
    /\ imageCache (image_run avail st events) !! url = None
    /\ requests_for url (image_run avail st events) = requests_for url st.
Proof.
  induction 1 as [|e events He _ IH]; intros st Hfl Hc; [simpl; auto|].
  unfold image_run in *. cbn [fold_left].
  assert (Hstep : imageInFlight (image_step avail st e) !! url = Some promise
                  /\ imageCache (image_step avail st e) !! url = None
                  /\ requests_for url (image_step avail st e) = requests_for url st).
  { destruct e as [u|u r]; cbn [image_step].
    - unfold fetchImageData.
      destruct (imageCache st !! u) as [v|] eqn:Ecu; [simpl; auto|].
      destruct (imageInFlight st !! u) as [p|] eqn:Efu; [simpl; auto|].
      destruct avail; cbn [negb snd]; [|simpl; auto].
      assert (u <> url) by congruence.
      cbn [imageInFlight imageCache]. rewrite lookup_insert_ne by assumption.
      unfold requests_for. cbn [requests]. rewrite count_occ_snoc.
      destruct (string_dec u url); [contradiction|]. auto with arith.
    - simpl in He. unfold settle.
      destruct (imageInFlight st !! u) as [p|] eqn:Efu; [|auto].
      cbn [imageInFlight imageCache]. rewrite lookup_delete_ne by assumption.
      unfold requests_for. cbn [requests].
      destruct (on_response r); rewrite ?lookup_insert_ne by assumption; auto. }
  destruct Hstep as (H1 & H2 & H3).
  destruct (IH _ H1 H2) as (I1 & I2 & I3).
  rewrite I3, H3. auto.
Qed.

(** C7: a fetch of a cached URL answers with the cached entry and calls the
    network for nothing; a second fetch made while the first one for the
    same URL has not settled returns the very promise of the first, so that
    one network call serves both callers and both see the one outcome; a
    fetch that fails leaves the cache as it was, and the next fetch of the
    URL calls the network again; and when the fetch settles the in-flight
    entry is gone, whatever the outcome. *)
Theorem image_fetch_dedup (url : string) :
  (forall avail st dataUri,
      imageCache st !! url = Some dataUri ->
      settled (snd (fetchImageData avail url st)) !! fst (fetchImageData avail url st)
        = Some (Fulfilled dataUri)
      /\ requests (snd (fetchImageData avail url st)) = requests st
      /\ imageCache (snd (fetchImageData avail url st)) = imageCache st
      /\ imageInFlight (snd (fetchImageData avail url st)) = imageInFlight st)
  /\ (forall st events,
        imageCache st !! url = None ->
        imageInFlight st !! url = None ->
        Forall (not_settling url) events ->
        let first := fetchImageData true url st in
        let second := fetchImageData true url (image_run true (snd first) events) in
        fst second = fst first
        /\ requests_for url (snd second) = S (requests_for url st)
        /\ forall r, settled (settle url r (snd second)) !! fst first = Some (on_response r))
  /\ (forall st promise r reason,
        imageInFlight st !! url = Some promise ->
        on_response r = Rejected reason ->
        imageCache (settle url r st) = imageCache st
        /\ settled (settle url r st) !! promise = Some (Rejected reason)
        /\ (imageCache st !! url = None ->
            requests (snd (fetchImageData true url (settle url r st))) = requests st ++ [url]))
  /\ (forall st r, imageInFlight (settle url r st) !! url = None).
Proof.
  split; [|split; [|split]].
  - intros avail st dataUri Hc. unfold fetchImageData. rewrite Hc.
    unfold settled_promise. cbn [fst snd settled requests imageCache imageInFlight].
    rewrite lookup_insert_eq. auto.
  - intros st events Hc Hf Hev first second.
    assert (Hfirst : first = (next_promise st,
                {| imageCache := imageCache st;
                   imageInFlight := <[url := next_promise st]> (imageInFlight st);
                   requests := requests st ++ [url];
                   settled := settled st;
                   next_promise := S (next_promise st) |})).
    { subst first. unfold fetchImageData. rewrite Hc, Hf. reflexivity. }
    destruct (in_flight_stable true url (next_promise st) events Hev (snd first))
      as (I1 & I2 & I3).
    { rewrite Hfirst. cbn [snd imageInFlight]. apply lookup_insert_eq. }
    { rewrite Hfirst. cbn [snd imageCache]. exact Hc. }
    assert (Hsecond : second = (next_promise st, image_run true (snd first) events)).
    { subst second. unfold fetchImageData at 1. rewrite I2, I1. reflexivity. }
    rewrite Hsecond. cbn [fst snd]. rewrite Hfirst at 1. cbn [fst].
    split; [reflexivity|]. split.
    + rewrite I3, Hfirst. unfold requests_for. cbn [snd requests]. rewrite count_occ_snoc.
      destruct (string_dec url url); [lia | contradiction].
    + intros r. unfold settle. rewrite I1. cbn [settled].
      rewrite Hfirst at 1. cbn [fst]. apply lookup_insert_eq.
  - intros st promise r reason Hf Hr. unfold settle. rewrite Hf, Hr.
    cbn [imageCache settled]. split; [reflexivity|]. split; [apply lookup_insert_eq|].
    intros Hc. unfold fetchImageData. cbn [imageCache imageInFlight].
    rewrite Hc, lookup_delete_eq. reflexivity.
  - intros st r. unfold settle.
    destruct (imageInFlight st !! url) as [p|] eqn:E; [|exact E].
    cbn [imageInFlight]. apply lookup_delete_eq.
Qed.

End ImageCache.

Lemma image_fetch_dedup_witness :
  fst (fetchImageData true "http://img/jay"
         (image_run true (snd (fetchImageData true "http://img/jay" Sample.no_images))
            [Call "http://img/wren"; Call "http://img/jay";
             Settle "http://img/wren" (NetworkError "reset")]))
  = fst (fetchImageData true "http://img/jay" Sample.no_images)
  /\ requests_for "http://img/jay"
       (snd (fetchImageData true "http://img/jay"
               (image_run true (snd (fetchImageData true "http://img/jay" Sample.no_images))
                  [Call "http://img/wren"; Call "http://img/jay";
                   Settle "http://img/wren" (NetworkError "reset")])))
     = 1%nat.
Proof.
  destruct (image_fetch_dedup "http://img/jay") as (_ & Hdedup & _).
  destruct (Hdedup Sample.no_images
              [Call "http://img/wren"; Call "http://img/jay";
               Settle "http://img/wren" (NetworkError "reset")]
              eq_refl eq_refl) as (H1 & H2 & _).
  - repeat constructor. simpl. discriminate.
  - split; [exact H1 | exact H2].
Defined.

(** ** Payload normalizer *)

Section Normalizer.
Context `{Host}.

(** Reading a property throws only on [undefined] and [null], and both are
    falsy. *)
Lemma get_truthy v k : Js.truthy v = true -> exists x, Js.get v k = Normal x.
Proof.
  destruct v; simpl; try discriminate; intros _; eauto.
  destruct (String.eqb k "length"); [eauto|].
  destruct (Js.array_index k) as [i|]; [|eauto].
  destruct (i <? Z.of_nat (length elems)); eauto.
Qed.

Lemma or_else_normal a b :
  (Js.truthy a = false -> exists x, b = Normal x) -> exists x, Js.or_else a b = Normal x.
Proof. unfold Js.or_else. destruct (Js.truthy a); eauto. Qed.

Lemma and_then_normal a b :
  (Js.truthy a = true -> exists x, b = Normal x) -> exists x, Js.and_then a b = Normal x.
Proof. unfold Js.and_then. destruct (Js.truthy a); eauto. Qed.

Lemma coalesce_normal a b :
  (exists x, b = Normal x) -> exists x, Js.coalesce a b = Normal x.
Proof. unfold Js.coalesce. destruct (Js.nullish a); eauto. Qed.

Lemma bind_normal {A B} (c : completion A) (f : A -> completion B) :
  (exists x, c = Normal x) -> (forall x, exists y, f x = Normal y) ->
  exists y, (c ≫= f) = Normal y.
Proof. intros [x ->] Hf. apply Hf. Qed.

(** The guarded reads of the extractors never throw. *)
Ltac normal :=
  repeat first
    [ solve [eexists; reflexivity]
    | apply bind_normal; [|intros ?]
    | apply coalesce_normal
    | apply or_else_normal; intros ?
    | apply and_then_normal; intros ?
    | apply get_truthy; assumption ].

Lemma nested_either_normal json outer k1 k2 :
  Js.truthy json = true -> exists x, nested_either json outer k1 k2 = Normal x.
Proof. intros Hj. unfold nested_either. normal. Qed.

Lemma object_guard json :
  negb (Js.truthy json) || negb (Js.typeof_object json) = false -> Js.truthy json = true.
Proof. destruct (Js.truthy json); simpl; [reflexivity | discriminate]. Qed.

Lemma extractConfidence_normal json : exists c, extractConfidence json = Normal c.
Proof.
  unfold extractConfidence.
  destruct (negb (Js.truthy json) || negb (Js.typeof_object json)) eqn:G; [eauto|].
  apply object_guard in G. normal; apply nested_either_normal; assumption.
Qed.

Lemma extractOccurrence_normal json : exists o, extractOccurrence json = Normal o.
Proof.
  unfold extractOccurrence.
  destruct (negb (Js.truthy json) || negb (Js.typeof_object json)) eqn:G; [eauto|].
  apply object_guard in G. normal.
Qed.

Lemma extractDate_normal json : exists d, extractDate json = Normal d.
Proof.
  unfold extractDate.
  destruct (negb (Js.truthy json) || negb (Js.typeof_object json)) eqn:G; [eauto|].
  apply object_guard in G. normal.
Qed.

Lemma extractImageUrl_normal json : exists u, extractImageUrl json = Normal u.
Proof.
  unfold extractImageUrl.
  destruct (negb (Js.truthy json) || negb (Js.typeof_object json)) eqn:G; [eauto|].
  apply object_guard in G. normal.
Qed.

Lemma parse_empty : Json.parse EmptyString = Throw.
Proof. reflexivity. Qed.

Lemma by_payloadKey_found s text json value name :
  Json.parse text = Normal json ->
  getJsonPath json (payloadKey s) = Normal value ->
  Js.truthy value = true ->
  String_ value = Normal name ->
  exists confidence imageUrl occurrence detectionDate,
    extractConfidence json = Normal confidence
    /\ extractImageUrl json = Normal imageUrl
    /\ extractOccurrence json = Normal occurrence
    /\ extractDate json = Normal detectionDate
    /\ by_payloadKey s text =
         Normal (Some (Detection.mk name confidence imageUrl occurrence detectionDate)).
Proof.
  intros Hp Hv Ht Hname.
  destruct (extractConfidence_normal json) as [c Hc].
  destruct (extractImageUrl_normal json) as [i Hi].
  destruct (extractOccurrence_normal json) as [o Ho].
  destruct (extractDate_normal json) as [d Hd].
  exists c, i, o, d. repeat (split; [assumption|]).
  unfold by_payloadKey. rewrite Hp. cbn [mbind completion_bind].
  rewrite Hv. cbn [mbind completion_bind]. rewrite Ht, Hc. cbn [mbind completion_bind].
  rewrite Hi. cbn [mbind completion_bind]. rewrite Ho. cbn [mbind completion_bind].
  rewrite Hd. cbn [mbind completion_bind]. rewrite Hname. reflexivity.
Qed.

(** C8: (a) when the body parses as JSON and the configured field path
    resolves to a truthy value, the detection has that value (itself when
    it is a string, [String(value)] otherwise) for name and the four
    auxiliary fields extracted from the same document; (b) an empty or white-space-only body yields no detection;
    (c) a non-empty body that is not JSON yields the trimmed body as name
    with the four auxiliary fields null.  The Blue Jay payload with the
    default field path [CommonName] yields name "Blue Jay", confidence 0.87
    and occurrence 0.05, which the default cutoffs classify as Epic; the
    body [American Robin] yields that name and nothing else. *)
Theorem normalizer_shapes (s : Settings) (payload : string) :
  (forall json value name,
      Js.scalar_truthy (payloadKey s) = true ->
      Json.parse (JsStr.trim payload) = Normal json ->
      getJsonPath json (payloadKey s) = Normal value ->
      Js.truthy value = true ->
      String_ value = Normal name ->
      exists confidence imageUrl occurrence detectionDate,
        extractConfidence json = Normal confidence
        /\ extractImageUrl json = Normal imageUrl
        /\ extractOccurrence json = Normal occurrence
        /\ extractDate json = Normal detectionDate
        /\ parsePayload s payload =
             Some (Detection.mk name confidence imageUrl occurrence detectionDate))
  /\ (forall str, String_ (JStr str) = Normal str)
  /\ (JsStr.nonempty (JsStr.trim payload) = false -> parsePayload s payload = None)
  /\ (JsStr.nonempty (JsStr.trim payload) = true ->
      Json.parse (JsStr.trim payload) = Throw ->
      parsePayload s payload = Some (Detection.mk (JsStr.trim payload) None None None None))
  /\ parsePayload default_settings Sample.blue_jay_payload =
       Some (Detection.mk "Blue Jay" (Some 0.87%float) None (Some 0.05%float) None)
  /\ label (getCommonality default_settings (Some 0.05%float)) = Epic
  /\ parsePayload default_settings EmptyString = None
  /\ parsePayload default_settings "American Robin" =
       Some (Detection.mk "American Robin" None None None None).
Proof.
  split; [|split; [|split; [|split; [|split; [|split; [|split]]]]]].
  5-8: vm_compute; reflexivity.
  - intros json value name Hkey Hp Hv Ht Hname.
    destruct (by_payloadKey_found s _ json value name Hp Hv Ht Hname)
      as (c & i & o & d & Hc & Hi & Ho & Hd & Hby).
    exists c, i, o, d. repeat (split; [assumption|]).
    unfold parsePayload.
    destruct (JsStr.nonempty (JsStr.trim payload)) eqn:Hne.
    + cbn [negb]. rewrite Hkey, Hby. reflexivity.
    + destruct (JsStr.trim payload); [|discriminate]. rewrite parse_empty in Hp. discriminate.
  - reflexivity.
  - intros Hne. unfold parsePayload. rewrite Hne. reflexivity.
  - intros Hne Hp. unfold parsePayload, by_payloadKey, by_aliases. rewrite Hne, Hp.
    cbn [negb mbind completion_bind try_catch].
    destruct (Js.scalar_truthy (payloadKey s)); reflexivity.
Qed.


End Normalizer.

Section NormalizerExamples.
#[local] Existing Instance NodeHost.host.

Lemma normalizer_shapes_witness :
  (exists confidence imageUrl occurrence detectionDate,
      extractConfidence
        (JObj [("CommonName", JStr "Blue Jay"); ("Confidence", JNum 0.87%float);
               ("occurrence", JNum 0.05%float)]) = Normal confidence
      /\ extractImageUrl
           (JObj [("CommonName", JStr "Blue Jay"); ("Confidence", JNum 0.87%float);
                  ("occurrence", JNum 0.05%float)]) = Normal imageUrl
      /\ extractOccurrence
           (JObj [("CommonName", JStr "Blue Jay"); ("Confidence", JNum 0.87%float);
                  ("occurrence", JNum 0.05%float)]) = Normal occurrence
      /\ extractDate
           (JObj [("CommonName", JStr "Blue Jay"); ("Confidence", JNum 0.87%float);
                  ("occurrence", JNum 0.05%float)]) = Normal detectionDate
      /\ parsePayload default_settings Sample.blue_jay_payload =
           Some (Detection.mk "Blue Jay" confidence imageUrl occurrence detectionDate))
  /\ parsePayload default_settings "  American Robin  " =
       Some (Detection.mk "American Robin" None None None None)
  /\ parsePayload default_settings "   " = None.
Proof.
  destruct (normalizer_shapes default_settings Sample.blue_jay_payload) as (Ha & _).
  destruct (normalizer_shapes default_settings "  American Robin  ") as (_ & _ & _ & Hc & _).
  destruct (normalizer_shapes default_settings "   ") as (_ & _ & Hb & _).
  split; [|split].
  - apply (Ha (JObj [("CommonName", JStr "Blue Jay"); ("Confidence", JNum 0.87%float);
                     ("occurrence", JNum 0.05%float)]) (JStr "Blue Jay") "Blue Jay");
      reflexivity.
  - apply Hc; reflexivity.
  - apply Hb; reflexivity.
Defined.


End NormalizerExamples.
(* ===================================================================== *)
(** * Part III: further properties                                        *)
(* ===================================================================== *)

(** ** White space at the ends of a string *)

Module TrimFacts.
Import JsStr.

Lemma trimStart_suffix l : exists pre, l = pre ++ trimStart_chars l.
Proof.
  induction l as [l IH] using (well_founded_induction (well_founded_ltof _ (@length ascii))).
  destruct l as [|a r]; [exists []; reflexivity|].
  cbn [trimStart_chars].
  destruct (ws1 a).
  { destruct (IH r) as [pre Hp]; [unfold ltof; simpl; lia|]. exists (a :: pre). simpl. f_equal. exact Hp. }
  destruct r as [|b r']; [exists []; reflexivity|].
  destruct (ws2 a b).
  { destruct (IH r') as [pre Hp]; [unfold ltof; simpl; lia|]. exists (a :: b :: pre). simpl. do 2 f_equal. exact Hp. }
  destruct r' as [|c r'']; [exists []; reflexivity|].
  destruct (ws3 a b c); [|exists []; reflexivity].
  destruct (IH r'') as [pre Hp]; [unfold ltof; simpl; lia|]. exists (a :: b :: c :: pre). simpl. do 3 f_equal. exact Hp.
Qed.

Lemma trimEnd_suffix l : exists pre, l = pre ++ trimEnd_rev l.
Proof.
  induction l as [l IH] using (well_founded_induction (well_founded_ltof _ (@length ascii))).
  destruct l as [|a r]; [exists []; reflexivity|].
  cbn [trimEnd_rev].
  destruct (ws1 a).
  { destruct (IH r) as [pre Hp]; [unfold ltof; simpl; lia|]. exists (a :: pre). simpl. f_equal. exact Hp. }
  destruct r as [|b r']; [exists []; reflexivity|].
  destruct (ws2 b a).
  { destruct (IH r') as [pre Hp]; [unfold ltof; simpl; lia|]. exists (a :: b :: pre). simpl. do 2 f_equal. exact Hp. }
  destruct r' as [|c r'']; [exists []; reflexivity|].
  destruct (ws3 c b a); [|exists []; reflexivity].
  destruct (IH r'') as [pre Hp]; [unfold ltof; simpl; lia|]. exists (a :: b :: c :: pre). simpl. do 3 f_equal. exact Hp.
Qed.

Lemma starts_clean_fixed l : starts_clean l -> trimStart_chars l = l.
Proof.
  destruct l as [|a [|b [|c r]]]; simpl; try reflexivity.
  - intros [-> _]. reflexivity.
  - intros (-> & -> & _). reflexivity.
  - intros (-> & -> & ->). reflexivity.
Qed.

Lemma trimStart_clean l : starts_clean (trimStart_chars l).
Proof.
  induction l as [l IH] using (well_founded_induction (well_founded_ltof _ (@length ascii))).
  destruct l as [|a r]; [exact I|].
  cbn [trimStart_chars].
  destruct (ws1 a) eqn:E1; [apply IH; unfold ltof; simpl; lia|].
  destruct r as [|b r']; [simpl; auto|].
  destruct (ws2 a b) eqn:E2; [apply IH; unfold ltof; simpl; lia|].
  destruct r' as [|c r'']; [simpl; auto|].
  destruct (ws3 a b c) eqn:E3; [apply IH; unfold ltof; simpl; lia|].
  simpl. auto.
Qed.

Lemma starts_clean_prefix r t : starts_clean (r ++ t) -> starts_clean r.
Proof.
  destruct r as [|a [|b [|c r]]]; simpl; auto.
  - intros [H _]. auto.
  - intros (H1 & H2 & _). auto.
Qed.

Lemma ends_clean_fixed l : ends_clean l -> trimEnd_rev l = l.
Proof.
  destruct l as [|a [|b [|c r]]]; simpl; try reflexivity.
  - intros [-> _]. reflexivity.
  - intros (-> & -> & _). reflexivity.
  - intros (-> & -> & ->). reflexivity.
Qed.

Lemma trimEnd_clean l : ends_clean (trimEnd_rev l).
Proof.
  induction l as [l IH] using (well_founded_induction (well_founded_ltof _ (@length ascii))).
  destruct l as [|a r]; [exact I|].
  cbn [trimEnd_rev].
  destruct (ws1 a) eqn:E1; [apply IH; unfold ltof; simpl; lia|].
  destruct r as [|b r']; [simpl; auto|].
  destruct (ws2 b a) eqn:E2; [apply IH; unfold ltof; simpl; lia|].
  destruct r' as [|c r'']; [simpl; auto|].
  destruct (ws3 c b a) eqn:E3; [apply IH; unfold ltof; simpl; lia|].
  simpl. auto.
Qed.

Lemma trim_chars_idem l : trim_chars (trim_chars l) = trim_chars l.
Proof.
  unfold trim_chars.
  set (s := trimStart_chars l). set (e := trimEnd_rev (List.rev s)).
  assert (Hs : trimStart_chars (List.rev e) = List.rev e).
  { apply starts_clean_fixed.
    destruct (trimEnd_suffix (List.rev s)) as [pre Hp]. fold e in Hp.
    apply (starts_clean_prefix _ (List.rev pre)).
    rewrite <- rev_app_distr, <- Hp, rev_involutive. apply trimStart_clean. }
  rewrite Hs, rev_involutive.
  rewrite (ends_clean_fixed e) by apply trimEnd_clean. reflexivity.
Qed.

Lemma chars_of_chars l : chars (of_chars l) = l.
Proof. apply list_ascii_of_string_of_list_ascii. Qed.

Lemma trim_idem s : trim (trim s) = trim s.
Proof. unfold trim. rewrite chars_of_chars, trim_chars_idem. reflexivity. Qed.

End TrimFacts.

(** ** Payload normalizer: names, paths and trimmed fields *)

Section NormalizerMore.
Context `{Host}.

Lemma trimmed_string_spec v u :
  trimmed_string v = Some u -> JsStr.nonempty u = true /\ JsStr.trim u = u.
Proof.
  destruct v; simpl; try discriminate.
  destruct (JsStr.nonempty (JsStr.trim s)) eqn:E; [|discriminate].
  intros [= <-]. split; [exact E | apply TrimFacts.trim_idem].
Qed.

Lemma bind_ret_inv {A B} (c : completion A) (f : A -> B) r :
  (c ≫= fun x => Normal (f x)) = Normal r -> exists x, r = f x.
Proof. destruct c; cbn; [intros [= <-]; eauto | discriminate]. Qed.

Lemma bind_inv {A B} (c : completion A) (k : A -> completion B) r :
  (c ≫= k) = Normal r -> exists x, c = Normal x /\ k x = Normal r.
Proof. destruct c; cbn; [eauto | discriminate]. Qed.

Lemma extractImageUrl_trimmed json r :
  extractImageUrl json = Normal r -> r = None \/ exists v, r = trimmed_string v.
Proof.
  unfold extractImageUrl.
  destruct (negb (Js.truthy json) || negb (Js.typeof_object json)); [intros [= <-]; auto|].
  intros Hr. apply bind_inv in Hr as (bi & _ & Hr). apply bind_inv in Hr as (u1 & _ & Hr).
  apply bind_ret_inv in Hr as [v ->]. eauto.
Qed.

Lemma extractDate_trimmed json r :
  extractDate json = Normal r -> r = None \/ exists v, r = trimmed_string v.
Proof.
  unfold extractDate.
  destruct (negb (Js.truthy json) || negb (Js.typeof_object json)); [intros [= <-]; auto|].
  intros Hr. apply bind_inv in Hr as (a & _ & Hr).
  apply bind_ret_inv in Hr as [v ->]. eauto.
Qed.

(** X4: [extractImageUrl] and [extractDate] never throw, whatever value
    [JSON.parse] produced; a URL or a date they return is not empty
    and [trim] leaves it as it is: it has no white space at either end. *)
Theorem extracted_strings_are_trimmed (json : JsVal) :
  (exists url, extractImageUrl json = Normal url
               /\ forall u, url = Some u -> JsStr.nonempty u = true /\ JsStr.trim u = u)
  /\ (exists date, extractDate json = Normal date
                   /\ forall d, date = Some d -> JsStr.nonempty d = true /\ JsStr.trim d = d).
Proof.
  split.
  - destruct (extractImageUrl_normal json) as [url Hu]. exists url. split; [exact Hu|].
    intros u ->. destruct (extractImageUrl_trimmed _ _ Hu) as [|[v Hv]]; [discriminate|].
    eapply trimmed_string_spec. symmetry. exact Hv.
  - destruct (extractDate_normal json) as [date Hd]. exists date. split; [exact Hd|].
    intros d ->. destruct (extractDate_trimmed _ _ Hd) as [|[v Hv]]; [discriminate|].
    eapply trimmed_string_spec. symmetry. exact Hv.
Qed.




Lemma nonempty_trim s : JsStr.nonempty (JsStr.trim s) = true -> JsStr.nonempty s = true.
Proof. destruct s; [discriminate | reflexivity]. Qed.

Lemma by_payloadKey_inv s text d :
  by_payloadKey s text = Normal (Some d) ->
  exists json value,
    Json.parse text = Normal json
    /\ getJsonPath json (payloadKey s) = Normal value
    /\ Js.truthy value = true
    /\ String_ value = Normal (Detection.name d).
Proof.
  unfold by_payloadKey. intros Hr.
  apply bind_inv in Hr as (json & Hj & Hr). apply bind_inv in Hr as (value & Hv & Hr).
  destruct (Js.truthy value) eqn:Ht; [|discriminate].
  apply bind_inv in Hr as (c & _ & Hr). apply bind_inv in Hr as (i & _ & Hr).
  apply bind_inv in Hr as (o & _ & Hr). apply bind_inv in Hr as (dd & _ & Hr).
  apply bind_inv in Hr as (name & Hn & Hr). injection Hr as <-.
  exists json, value. auto.
Qed.

Lemma by_aliases_inv text d :
  by_aliases text = Normal (Some d) ->
  exists json cs,
    Json.parse text = Normal json
    /\ candidates json = Normal cs
    /\ List.find usable_name cs = Some (JStr (Detection.name d)).
Proof.
  unfold by_aliases. intros Hr.
  apply bind_inv in Hr as (json & Hj & Hr).
  apply bind_inv in Hr as (c & _ & Hr). apply bind_inv in Hr as (i & _ & Hr).
  apply bind_inv in Hr as (o & _ & Hr). apply bind_inv in Hr as (dd & _ & Hr).
  apply bind_inv in Hr as (cs & Hcs & Hr).
  destruct (List.find usable_name cs) as [[| | | |found| |]|] eqn:Hf; try discriminate.
  injection Hr as <-. exists json, cs. auto.
Qed.

(** X1: a detection returned by [parsePayload] has a name that is not
    empty, with one exception: the configured field path resolved to a
    truthy value that is no string, and [String(value)] is the name
    (for an empty array that is the empty string, and the handler then
    drops the detection). *)
Theorem detection_name_is_not_empty (s : Settings) (payload : string) (d : Detection.t) :
  parsePayload s payload = Some d ->
  JsStr.nonempty (Detection.name d) = true
  \/ exists json value,
       Js.scalar_truthy (payloadKey s) = true
       /\ Json.parse (JsStr.trim payload) = Normal json
       /\ getJsonPath json (payloadKey s) = Normal value
       /\ Js.truthy value = true
       /\ Js.typeof_string value = false
       /\ String_ value = Normal (Detection.name d).
Proof.
  unfold parsePayload.
  destruct (JsStr.nonempty (JsStr.trim payload)) eqn:Htext; cbn [negb]; [|discriminate].
  destruct (Js.scalar_truthy (payloadKey s)) eqn:Hkey.
  - destruct (by_payloadKey s (JsStr.trim payload)) as [[d1|]|] eqn:Hp; cbn [try_catch].
    + intros [= <-]. destruct (by_payloadKey_inv _ _ _ Hp) as (json & value & Hj & Hv & Ht & Hn).
      destruct (Js.typeof_string value) eqn:Hs.
      * left. destruct value; try discriminate. simpl in Hn. injection Hn as <-. exact Ht.
      * right. exists json, value. auto 10.
    + destruct (by_aliases (JsStr.trim payload)) as [[d2|]|] eqn:Ha; cbn [try_catch];
        intros [= <-]; left; [|exact Htext|exact Htext].
      destruct (by_aliases_inv _ _ Ha) as (json & cs & _ & _ & Hf).
      apply find_some in Hf as [_ Hu]. simpl in Hu. apply nonempty_trim. exact Hu.
    + destruct (by_aliases (JsStr.trim payload)) as [[d2|]|] eqn:Ha; cbn [try_catch];
        intros [= <-]; left; [|exact Htext|exact Htext].
      destruct (by_aliases_inv _ _ Ha) as (json & cs & _ & _ & Hf).
      apply find_some in Hf as [_ Hu]. simpl in Hu. apply nonempty_trim. exact Hu.
  - destruct (by_aliases (JsStr.trim payload)) as [[d2|]|] eqn:Ha; cbn [try_catch];
      intros [= <-]; left; [|exact Htext|exact Htext].
    destruct (by_aliases_inv _ _ Ha) as (json & cs & _ & _ & Hf).
    apply find_some in Hf as [_ Hu]. simpl in Hu. apply nonempty_trim. exact Hu.
Qed.




End NormalizerMore.

Section NormalizerMoreExamples.
#[local] Existing Instance NodeHost.host.

Lemma detection_name_is_not_empty_witness :
  JsStr.nonempty EmptyString = true
  \/ exists json value,
       Js.scalar_truthy (payloadKey default_settings) = true
       /\ Json.parse (JsStr.trim (Sample.json "{'CommonName':[]}")) = Normal json
       /\ getJsonPath json (payloadKey default_settings) = Normal value
       /\ Js.truthy value = true
       /\ Js.typeof_string value = false
       /\ String_ value = Normal EmptyString.
Proof.
  apply (detection_name_is_not_empty default_settings (Sample.json "{'CommonName':[]}")
           (Detection.mk EmptyString None None None None)).
  vm_compute. reflexivity.
Defined.


End NormalizerMoreExamples.

(** ** Rolling counter: what a record guarantees, how pruning composes *)

Section CounterMore.




(** X6: pruning at two times, in either order, is pruning once at the
    later of the two; in particular pruning twice at one time is pruning
    once. *)
Theorem pruneDetections_compose (a b : Z) (ts : list Z) :
  pruneDetections b (pruneDetections a ts) = pruneDetections (Z.max a b) ts.
Proof.
  induction ts as [|t r IH]; [reflexivity|]. simpl.
  destruct (Z.ltb_spec t (a - hour_ms)) as [Ha|Ha].
  - rewrite IH. destruct (Z.ltb_spec t (Z.max a b - hour_ms)); [reflexivity | lia].
  - simpl. destruct (Z.ltb_spec t (b - hour_ms)) as [Hb|Hb];
      destruct (Z.ltb_spec t (Z.max a b - hour_ms)) as [Hm|Hm]; try reflexivity; try lia.
    replace (Z.max a b) with b by lia. reflexivity.
Qed.

End CounterMore.


(** ** Rarity classifier: the two ends of the scale *)

Section ClassifierMore.
Import JsNumFacts.

(** X7: whatever the three thresholds are set to, an occurrence at or
    below 0 is Epic and an occurrence above 1 is Common (the cutoffs lie
    between 0 and 1); an occurrence that is NaN or missing is Unknown. *)
Theorem tiers_at_the_extremes (s : Settings) (o : float) :
  (JsNum.le o 0%float = true -> label (getCommonality s (Some o)) = Epic)
  /\ (JsNum.lt 1%float o = true -> label (getCommonality s (Some o)) = Common)
  /\ (JsNum.isNaN o = true -> label (getCommonality s (Some o)) = Unknown)
  /\ label (getCommonality s None) = Unknown.
Proof.
  destruct (epicCutoff_bounds s) as [E0 E1].
  destruct (rareCutoff_bounds s) as [R0 R1].
  destruct (uncommonCutoff_bounds s) as [U0 U1].
  split; [|split; [|split]].
  - intros Ho. unfold getCommonality.
    destruct (le_not_nan _ _ Ho) as [Hn _]. rewrite Hn.
    rewrite (le_trans _ _ _ Ho E0). reflexivity.
  - intros Ho. unfold getCommonality.
    destruct (lt_not_nan _ _ Ho) as [_ Hn]. rewrite Hn.
    assert (Hgt : forall c, JsNum.le c 1%float = true -> JsNum.le o c = false).
    { intros c Hc. destruct (JsNum.le o c) eqn:E; [|reflexivity].
      pose proof (le_trans _ _ _ E Hc) as H1.
      destruct (le_not_nan _ _ H1) as [Ha Hb].
      rewrite (le_iff_not_lt _ _ Ha Hb), Ho in H1. discriminate. }
    rewrite (Hgt _ E1), (Hgt _ R1), (Hgt _ U1). reflexivity.
  - intros Hn. unfold getCommonality. rewrite Hn. reflexivity.
  - reflexivity.
Qed.

End ClassifierMore.

Lemma tiers_at_the_extremes_witness :
  label (getCommonality Sample.out_of_order (Some 0%float)) = Epic
  /\ label (getCommonality Sample.out_of_order (Some 1.5%float)) = Common.
Proof.
  split.
  - apply (tiers_at_the_extremes Sample.out_of_order 0%float). reflexivity.
  - apply (tiers_at_the_extremes Sample.out_of_order 1.5%float). reflexivity.
Defined.

(** ** Daily aggregate: one record per species, the minimum over any history *)

Section AggregateMore.
Import JsNumFacts.

Lemma OrderedMap_set_keys {V} (m : list (string * V)) k v :
  List.map fst (OrderedMap.set m k v) =
    if existsb (String.eqb k) (List.map fst m) then List.map fst m else List.map fst m ++ [k].
Proof.
  induction m as [|[k' v'] r IH]; [reflexivity|]. simpl.
  destruct (String.eqb_spec k' k) as [->|Hne]; simpl.
  - rewrite String.eqb_refl. reflexivity.
  - rewrite IH. destruct (String.eqb_spec k k'); [congruence|]. simpl.
    destruct (existsb (String.eqb k) (List.map fst r)); reflexivity.
Qed.

Lemma OrderedMap_set_In {V} (m : list (string * V)) k v kv :
  In kv (OrderedMap.set m k v) -> kv = (k, v) \/ In kv m.
Proof.
  induction m as [|[k' v'] r IH]; simpl.
  - intros [<-|[]]. auto.
  - destruct (String.eqb k' k); simpl; intros [<-|H]; auto.
    destruct (IH H); auto.
Qed.

Lemma day_wf_set dayMap k b :
  day_wf dayMap -> Bird.name b = k -> JsStr.nonempty k = true ->
  day_wf (OrderedMap.set dayMap k b).
Proof.
  intros [Hnd Hall] Hb Hk. split.
  - rewrite OrderedMap_set_keys.
    destruct (existsb (String.eqb k) (List.map fst dayMap)) eqn:E; [exact Hnd|].
    apply NoDup_app. split; [exact Hnd|]. split; [|apply NoDup_singleton].
    intros x Hx Hx'. apply list_elem_of_singleton in Hx'. subst x.
    assert (existsb (String.eqb k) (List.map fst dayMap) = true); [|congruence].
    apply existsb_exists. exists k. split; [apply list_elem_of_In; exact Hx | apply String.eqb_refl].
  - apply List.Forall_forall. intros kv Hin.
    destruct (OrderedMap_set_In _ _ _ _ Hin) as [->|Hin'].
    + simpl. auto.
    + rewrite List.Forall_forall in Hall. auto.
Qed.

Lemma day_wf_nil : day_wf [].
Proof. split; [constructor | constructor]. Qed.

Lemma updateDailyBirds_wf clock d w :
  aggregate_wf w -> aggregate_wf (updateDailyBirds clock d w).
Proof.
  intros Hw. destruct (JsStr.nonempty (Detection.name d)) eqn:Hname.
  - intros k dayMap. rewrite updateDailyBirds_dailyBirds by assumption.
    intros Hl. apply lookup_singleton_Some in Hl as [_ <-].
    apply day_wf_set; [|reflexivity|assumption].
    destruct (dailyBirds w !! dateKey_of clock d) eqn:E; [eapply Hw; eassumption | apply day_wf_nil].
  - unfold updateDailyBirds. rewrite Hname. cbn [negb]. intros k dayMap. cbn [dailyBirds with_dailyBirds].
    destruct (dailyBirds w !! dateKey_of clock d) eqn:E; [apply Hw|].
    intros Hl. apply lookup_insert_Some in Hl as [[_ <-]|[_ Hl]]; [apply day_wf_nil | eapply Hw; eassumption].
Qed.

Lemma upserts_wf run : forall w, aggregate_wf w -> aggregate_wf (upserts w run).
Proof.
  induction run as [|cd run IH]; intros w Hw; [exact Hw|].
  unfold upserts. cbn [fold_left]. apply IH. apply updateDailyBirds_wf. exact Hw.
Qed.

Lemma getTodayBirds_wf clock w :
  aggregate_wf w ->
  NoDup (List.map Bird.name (getTodayBirds clock w))
  /\ Forall (fun b => JsStr.nonempty (Bird.name b) = true) (getTodayBirds clock w).
Proof.
  intros Hw. unfold getTodayBirds.
  destruct (dailyBirds w !! todayKey clock) as [dayMap|] eqn:E; [|split; constructor].
  destruct (Hw _ _ E) as [Hnd Hall].
  assert (Hnames : List.map Bird.name (OrderedMap.values dayMap) = List.map fst dayMap).
  { unfold OrderedMap.values. rewrite List.map_map. apply List.map_ext_in.
    intros kv Hin. rewrite List.Forall_forall in Hall. apply Hall. exact Hin. }
  pose proof (sort_Permutation (OrderedMap.values dayMap)) as Hp.
  split.
  - rewrite Hp, Hnames. exact Hnd.
  - eapply Permutation_Forall; [apply Permutation_sym, Hp|].
    unfold OrderedMap.values. apply List.Forall_forall. intros b Hb.
    apply in_map_iff in Hb as (kv & <- & Hin). rewrite List.Forall_forall in Hall.
    destruct (Hall kv Hin) as [-> H2]. exact H2.
Qed.

(** X8: starting from an empty aggregate, after any history of upserts
    and on any day, the list of today's species holds each name once, and
    no name in it is empty. *)
Theorem one_record_per_species (w : World) (run : list (Clock * Detection.t)) (clock : Clock) :
  dailyBirds w = ∅ ->
  let birds := getTodayBirds clock (upserts w run) in
  NoDup (List.map Bird.name birds)
  /\ Forall (fun b => JsStr.nonempty (Bird.name b) = true) birds.
Proof.
  intros Hempty. apply getTodayBirds_wf, upserts_wf.
  intros k dayMap. rewrite Hempty, lookup_empty. discriminate.
Qed.

Lemma min_step_comm acc a b : min_step (min_step acc a) b = min_step (min_step acc b) a.
Proof.
  unfold min_step. f_equal. destruct acc as [e|].
  - rewrite (Math_min_assoc b a e), (Math_min_assoc a b e), (Math_min_comm a b). reflexivity.
  - rewrite !Math_min_idem. apply Math_min_comm.
Qed.

Lemma running_min_Permutation os os' :
  Permutation os os' -> forall prior, running_min prior os = running_min prior os'.
Proof.
  unfold running_min.
  induction 1 as [|x l l' _ IH|x y l|l l' l'' _ IH1 _ IH2]; intros prior; cbn [fold_left].
  - reflexivity.
  - apply IH.
  - rewrite min_step_comm. reflexivity.
  - rewrite IH1. apply IH2.
Qed.

Lemma upserts_stored_occurrence k name run :
  JsStr.nonempty name = true ->
  Forall (sighting_of k name) run ->
  forall w, stored_occurrence (upserts w run) k name
            = running_min (stored_occurrence w k name) (observed run).
Proof.
  intros Hname. induction 1 as [|[c d] run [Hn Hk] _ IH]; intros w; [reflexivity|].
  unfold upserts. cbn [fold_left fst snd]. fold (upserts (updateDailyBirds c d w) run).
  rewrite IH. cbn [fst snd] in Hn, Hk.
  assert (Hne : JsStr.nonempty (Detection.name d) = true) by (rewrite Hn; exact Hname).
  unfold observed. cbn [flat_map snd].
  destruct (Detection.occurrence d) as [o|] eqn:Ho.
  - unfold running_min. cbn [app fold_left]. f_equal.
    rewrite <- Hk, <- Hn. apply upsert_occurrence; assumption.
  - cbn [app]. f_equal. unfold stored_occurrence.
    rewrite <- Hk at 1. rewrite <- Hn at 1. rewrite stored_updateDailyBirds by assumption.
    unfold merged_record. cbn [Bird.occurrence]. rewrite Ho, Hk, Hn.
    destruct (stored w k name) as [b|]; [|reflexivity].
    destruct (Bird.occurrence b) as [e|]; [|reflexivity].
    rewrite Math_min_idem. reflexivity.
Qed.

(** X9: after any number of upserts of one species under one date key,
    the stored occurrence is the running [Math.min] of what was stored
    before and of the occurrences observed (an upsert that observes none
    changes nothing), and it is the same for every order of the
    upserts. *)
Theorem stored_occurrence_is_running_min (w : World) (k name : string)
        (run run' : list (Clock * Detection.t)) :
  JsStr.nonempty name = true ->
  Forall (sighting_of k name) run ->
  Permutation run run' ->
  stored_occurrence (upserts w run) k name
    = running_min (stored_occurrence w k name) (observed run)
  /\ stored_occurrence (upserts w run') k name = stored_occurrence (upserts w run) k name.
Proof.
  intros Hname Hall Hp.
  assert (Hall' : Forall (sighting_of k name) run').
  { eapply Permutation_Forall; eassumption. }
  rewrite !upserts_stored_occurrence by assumption.
  split; [reflexivity|]. symmetry. apply running_min_Permutation.
  unfold observed. apply Permutation_flat_map. exact Hp.
Qed.

Lemma insert_least x l :
  Forall (occ_le x) l -> JsArray.insert by_occurrence x l = x :: l.
Proof.
  destruct l as [|y r]; [reflexivity|]. intros Hall. inversion Hall as [|? ? Hxy _]; subst.
  cbn [JsArray.insert]. unfold by_occurrence. rewrite sub_gt0.
  unfold occ_le in Hxy. destruct (le_not_nan _ _ Hxy) as [Hx Hy].
  rewrite (le_iff_not_lt _ _ Hx Hy) in Hxy. apply negb_true_iff in Hxy. rewrite Hxy. reflexivity.
Qed.

Lemma sort_sorted_id l : StronglySorted occ_le l -> JsArray.sort by_occurrence l = l.
Proof.
  induction 1 as [|x l Hl IH Hx]; [reflexivity|].
  unfold JsArray.sort in *. cbn [fold_right]. rewrite IH. apply insert_least. exact Hx.
Qed.

(** X26: an upsert of one species leaves the record of every other
    species under that date key as it was, when the key already had a day map
    (otherwise the day starts afresh and holds no other species); and it
    keeps the order of the day's names, adding a new name at the end. *)
Theorem upsert_leaves_other_species (clock : Clock) (d : Detection.t) (w : World)
        (other : string) :
  JsStr.nonempty (Detection.name d) = true ->
  other <> Detection.name d ->
  stored (updateDailyBirds clock d w) (dateKey_of clock d) other
    = match dailyBirds w !! dateKey_of clock d with
      | Some _ => stored w (dateKey_of clock d) other
      | None => None
      end
  /\ day_names (updateDailyBirds clock d w) (dateKey_of clock d)
     = if existsb (String.eqb (Detection.name d)) (day_names w (dateKey_of clock d))
       then day_names w (dateKey_of clock d)
       else day_names w (dateKey_of clock d) ++ [Detection.name d].
Proof.
  intros Hname Hother. unfold stored, day_names.
  rewrite (updateDailyBirds_dailyBirds clock d w Hname).
  rewrite lookup_singleton_eq. cbn [default]. split.
  - rewrite OrderedMap_get_set_ne by congruence.
    destruct (dailyBirds w !! dateKey_of clock d); reflexivity.
  - apply OrderedMap_set_keys.
Qed.

(** X27: the sort of today's list moves nothing that is already in
    place: when the records of the day, in the order they were first
    stored, have ascending sort keys (equal keys included; a record
    without occurrence has key 1), today's list is that very order, so
    species with equal occurrence are shown in the order they were first
    seen. *)
Theorem today_list_keeps_first_seen_order (clock : Clock) (w : World)
        (dayMap : list (string * Bird.t)) :
  dailyBirds w !! todayKey clock = Some dayMap ->
  StronglySorted occ_le (OrderedMap.values dayMap) ->
  getTodayBirds clock w = OrderedMap.values dayMap.
Proof.
  intros Hday Hs. unfold getTodayBirds. rewrite Hday. apply sort_sorted_id. exact Hs.
Qed.

End AggregateMore.

Lemma one_record_per_species_witness :
  NoDup (List.map Bird.name
           (getTodayBirds Sample.clock
              (upserts Sample.empty_world
                 [(Sample.clock, Sample.detection "Wren" (Some 0.5%float) None);
                  (Sample.clock, Sample.detection "Osprey" (Some 0.1%float) None);
                  (Sample.clock, Sample.detection "Wren" None None)])))
  /\ Forall (fun b => JsStr.nonempty (Bird.name b) = true)
            (getTodayBirds Sample.clock
               (upserts Sample.empty_world
                  [(Sample.clock, Sample.detection "Wren" (Some 0.5%float) None);
                   (Sample.clock, Sample.detection "Osprey" (Some 0.1%float) None);
                   (Sample.clock, Sample.detection "Wren" None None)])).
Proof.
  apply (one_record_per_species Sample.empty_world
           [(Sample.clock, Sample.detection "Wren" (Some 0.5%float) None);
            (Sample.clock, Sample.detection "Osprey" (Some 0.1%float) None);
            (Sample.clock, Sample.detection "Wren" None None)] Sample.clock).
  reflexivity.
Defined.

Lemma stored_occurrence_is_running_min_witness :
  stored_occurrence
    (upserts Sample.empty_world
       [(Sample.clock, Sample.detection "Wren" (Some 0.5%float) None);
        (Sample.clock, Sample.detection "Wren" (Some 0.2%float) None)]) "2023-11-14" "Wren"
  = running_min (stored_occurrence Sample.empty_world "2023-11-14" "Wren")
      (observed [(Sample.clock, Sample.detection "Wren" (Some 0.5%float) None);
                 (Sample.clock, Sample.detection "Wren" (Some 0.2%float) None)])
  /\ stored_occurrence
       (upserts Sample.empty_world
          [(Sample.clock, Sample.detection "Wren" (Some 0.2%float) None);
           (Sample.clock, Sample.detection "Wren" (Some 0.5%float) None)]) "2023-11-14" "Wren"
     = stored_occurrence
         (upserts Sample.empty_world
            [(Sample.clock, Sample.detection "Wren" (Some 0.5%float) None);
             (Sample.clock, Sample.detection "Wren" (Some 0.2%float) None)]) "2023-11-14" "Wren".
Proof.
  apply (stored_occurrence_is_running_min Sample.empty_world "2023-11-14" "Wren"
           [(Sample.clock, Sample.detection "Wren" (Some 0.5%float) None);
            (Sample.clock, Sample.detection "Wren" (Some 0.2%float) None)]
           [(Sample.clock, Sample.detection "Wren" (Some 0.2%float) None);
            (Sample.clock, Sample.detection "Wren" (Some 0.5%float) None)]).
  - reflexivity.
  - repeat constructor.
  - apply perm_swap.
Defined.

Lemma upsert_leaves_other_species_witness :
  stored (updateDailyBirds Sample.clock (Sample.detection "Wren" (Some 0.25%float) None)
            (upserts Sample.empty_world
               [(Sample.clock, Sample.detection "Osprey" (Some 0.125%float) None)]))
         (dateKey_of Sample.clock (Sample.detection "Wren" (Some 0.25%float) None)) "Osprey"
    = match dailyBirds (upserts Sample.empty_world
                          [(Sample.clock, Sample.detection "Osprey" (Some 0.125%float) None)])
            !! dateKey_of Sample.clock (Sample.detection "Wren" (Some 0.25%float) None) with
      | Some _ =>
          stored (upserts Sample.empty_world
                    [(Sample.clock, Sample.detection "Osprey" (Some 0.125%float) None)])
                 (dateKey_of Sample.clock (Sample.detection "Wren" (Some 0.25%float) None))
                 "Osprey"
      | None => None
      end
  /\ day_names (updateDailyBirds Sample.clock (Sample.detection "Wren" (Some 0.25%float) None)
                  (upserts Sample.empty_world
                     [(Sample.clock, Sample.detection "Osprey" (Some 0.125%float) None)]))
               (dateKey_of Sample.clock (Sample.detection "Wren" (Some 0.25%float) None))
     = if existsb (String.eqb (Detection.name (Sample.detection "Wren" (Some 0.25%float) None)))
                  (day_names (upserts Sample.empty_world
                                [(Sample.clock,
                                  Sample.detection "Osprey" (Some 0.125%float) None)])
                             (dateKey_of Sample.clock
                                (Sample.detection "Wren" (Some 0.25%float) None)))
       then day_names (upserts Sample.empty_world
                         [(Sample.clock, Sample.detection "Osprey" (Some 0.125%float) None)])
                      (dateKey_of Sample.clock (Sample.detection "Wren" (Some 0.25%float) None))
       else day_names (upserts Sample.empty_world
                         [(Sample.clock, Sample.detection "Osprey" (Some 0.125%float) None)])
                      (dateKey_of Sample.clock (Sample.detection "Wren" (Some 0.25%float) None))
            ++ [Detection.name (Sample.detection "Wren" (Some 0.25%float) None)].
Proof.
  apply (upsert_leaves_other_species Sample.clock
           (Sample.detection "Wren" (Some 0.25%float) None)
           (upserts Sample.empty_world
              [(Sample.clock, Sample.detection "Osprey" (Some 0.125%float) None)])
           "Osprey").
  - reflexivity.
  - discriminate.
Defined.

Lemma today_list_keeps_first_seen_order_witness :
  getTodayBirds Sample.clock
    (upserts Sample.empty_world
       [(Sample.clock, Sample.detection "Wren" None None);
        (Sample.clock, Sample.detection "Osprey" None None);
        (Sample.clock, Sample.detection "Crow" (Some 1%float) None)])
  = OrderedMap.values
      (default []
         (dailyBirds
            (upserts Sample.empty_world
               [(Sample.clock, Sample.detection "Wren" None None);
                (Sample.clock, Sample.detection "Osprey" None None);
                (Sample.clock, Sample.detection "Crow" (Some 1%float) None)])
          !! todayKey Sample.clock)).
Proof.
  apply today_list_keeps_first_seen_order.
  - vm_compute. reflexivity.
  - vm_compute. repeat constructor.
Defined.

(** ** Rotation: tiles apart, starts, stops and bounds *)

Section RotationMore.
Import JsNumFacts.

Lemma rotateOnce_frame clock c w :
  settings (fst (rotateOnce clock c w)) = settings w
  /\ dailyBirds (fst (rotateOnce clock c w)) = dailyBirds w
  /\ (forall c', c' <> c ->
        rotationState (fst (rotateOnce clock c w)) !! c' = rotationState w !! c')
  /\ Forall (fun o => output_context o = c) (snd (rotateOnce clock c w)).
Proof.
  unfold rotateOnce. destruct (rotationState w !! c) as [state|]; [|simpl; auto].
  destruct (getTodayBirds clock w) as [|first rest].
  - cbn. split; [reflexivity|]. split; [reflexivity|]. split; [|repeat constructor].
    intros c' Hne. apply lookup_insert_ne. congruence.
  - destruct (getDetectionsLastHour _ _) as [ts n]. cbn.
    split; [reflexivity|]. split; [reflexivity|]. split; [|repeat constructor].
    intros c' Hne. apply lookup_insert_ne. congruence.
Qed.

(** X10: a tick, a start and a stop of one tile leave the rotation state
    of every other tile as it was, address their display calls to that
    tile only, and leave the daily aggregate alone. *)
Theorem rotation_is_per_context (clock : Clock) (c c' : string) (immediate : bool) (w : World) :
  c' <> c ->
  rotationState (fst (rotateOnce clock c w)) !! c' = rotationState w !! c'
  /\ rotationState (fst (startRotation clock c immediate w)) !! c' = rotationState w !! c'
  /\ rotationState (stopRotation c w) !! c' = rotationState w !! c'
  /\ Forall (fun o => output_context o = c)
            (snd (rotateOnce clock c w) ++ snd (startRotation clock c immediate w))
  /\ dailyBirds (fst (rotateOnce clock c w)) = dailyBirds w
  /\ dailyBirds (fst (startRotation clock c immediate w)) = dailyBirds w
  /\ dailyBirds (stopRotation c w) = dailyBirds w.
Proof.
  intros Hne.
  destruct (rotateOnce_frame clock c w) as (_ & R2 & R3 & R4).
  assert (Hstart : rotationState (fst (startRotation clock c immediate w)) !! c'
                   = rotationState w !! c'
                   /\ Forall (fun o => output_context o = c) (snd (startRotation clock c immediate w))
                   /\ dailyBirds (fst (startRotation clock c immediate w)) = dailyBirds w).
  { unfold startRotation. destruct (JsStr.nonempty c); cbn [negb]; [|simpl; auto].
    destruct immediate.
    - match goal with |- context [rotateOnce clock c ?w1] =>
        destruct (rotateOnce_frame clock c w1) as (_ & S2 & S3 & S4) end.
      rewrite S3 by exact Hne. rewrite S2. cbn [rotationState dailyBirds with_rotation].
      rewrite lookup_insert_ne by congruence. auto.
    - cbn. rewrite lookup_insert_ne by congruence. auto. }
  destruct Hstart as (T1 & T2 & T3).
  split; [apply R3; exact Hne|]. split; [exact T1|].
  split; [unfold stopRotation; cbn; apply lookup_delete_ne; congruence|].
  split; [apply Forall_app; split; assumption|].
  split; [exact R2|]. split; [exact T3|]. reflexivity.
Qed.


Lemma run_ticks_stopped clocks c w :
  rotationState w !! c = None -> run_ticks clocks c w = (w, []).
Proof.
  intros Hn. induction clocks as [|clock rest IH]; [reflexivity|].
  cbn [run_ticks]. unfold rotateOnce at 1. rewrite Hn. rewrite IH. reflexivity.
Qed.

(** X12: after [stopRotation] the ticks of that tile do nothing, however
    many follow: no display call, no change of state.  Started again at
    once, the tile shows the first species of today's list. *)
Theorem stopped_tile_is_silent (clocks : list Clock) (clock : Clock) (c : string) (w : World) :
  run_ticks clocks c (stopRotation c w) = (stopRotation c w, [])
  /\ (JsStr.nonempty c = true ->
      forall first rest,
        getTodayBirds clock w = first :: rest ->
        exists n,
          snd (startRotation clock c true (stopRotation c w)) =
            [setImageTitle c (formatTitle (settings w) (Bird.name first) (Bird.confidence first)
                                n (Bird.occurrence first)) "today"]).
Proof.
  split.
  - apply run_ticks_stopped. unfold stopRotation. cbn. apply lookup_delete_eq.
  - intros Hc first rest Hb.
    assert (Hw0 : rotationState (stopRotation c w) !! c = None).
    { unfold stopRotation. cbn. apply lookup_delete_eq. }
    assert (Hb0 : getTodayBirds clock (stopRotation c w) = first :: rest) by exact Hb.
    assert (Hs0 : settings (stopRotation c w) = settings w) by reflexivity.
    revert Hw0 Hb0 Hs0. generalize (stopRotation c w). intros w0 Hw0 Hb0 Hs0.
    unfold startRotation. rewrite Hc, Hw0. cbn [negb index]. rewrite <- Hs0.
    set (w1 := with_rotation _ _ _).
    assert (Hb1 : getTodayBirds clock w1 = first :: rest) by exact Hb0.
    destruct (rotateOnce_shows clock c w1 _ first rest (lookup_insert_eq _ _ _) Hb1)
      as (w' & state' & n & Hr & _).
    rewrite Hr. cbn [snd]. exists n. reflexivity.
Qed.

(** X13: a tick on a list that is not empty reads the list within its
    bounds, whatever index the state held (a list that has shrunk
    included): afterwards the index lies between 1 and the length, and the
    species shown is the one just before it. *)
Theorem rotation_index_in_range (clock : Clock) (c : string) (w : World)
        (state : RotationState) (first : Bird.t) (rest : list Bird.t) :
  rotationState w !! c = Some state ->
  getTodayBirds clock w = first :: rest ->
  exists state' n,
    rotationState (fst (rotateOnce clock c w)) !! c = Some state'
    /\ (1 <= index state' <= length (first :: rest))%nat
    /\ nth_error (first :: rest) (index state' - 1) = Some (nth (index state' - 1) (first :: rest) first)
    /\ snd (rotateOnce clock c w) =
         [setImageTitle c
            (formatTitle (settings w)
               (Bird.name (nth (index state' - 1) (first :: rest) first))
               (Bird.confidence (nth (index state' - 1) (first :: rest) first)) n
               (Bird.occurrence (nth (index state' - 1) (first :: rest) first))) "today"].
Proof.
  intros Hst Hb. unfold rotateOnce. rewrite Hst, Hb.
  destruct (getDetectionsLastHour _ _) as [ts n].
  cbn [fst snd rotationState with_rotation]. rewrite lookup_insert_eq.
  eexists. exists n. split; [reflexivity|]. cbn [index].
  set (birds := first :: rest).
  assert (Hi : ((if (length birds <=? index state)%nat then 0 else index state) < length birds)%nat).
  { destruct (Nat.leb_spec (length birds) (index state)); [simpl; lia | lia]. }
  set (i := if (length birds <=? index state)%nat then 0%nat else index state) in *.
  replace (S i - 1)%nat with i by lia.
  split; [lia|]. split; [|reflexivity].
  apply nth_error_nth'. exact Hi.
Qed.


End RotationMore.

Lemma rotation_is_per_context_witness :
  rotationState (fst (rotateOnce Sample.clock "tile" (Sample.two_birds default_settings 0)))
    !! "other"
  = rotationState (Sample.two_birds default_settings 0) !! "other".
Proof.
  apply (rotation_is_per_context Sample.clock "tile" "other" true
           (Sample.two_birds default_settings 0)).
  discriminate.
Defined.


Lemma rotation_index_in_range_witness :
  exists state' n,
    rotationState (fst (rotateOnce Sample.clock "tile" (Sample.two_birds default_settings 7)))
      !! "tile" = Some state'
    /\ (1 <= index state' <= length [Sample.bird "Osprey" 0.1%float; Sample.bird "Wren" 0.5%float])%nat
    /\ nth_error [Sample.bird "Osprey" 0.1%float; Sample.bird "Wren" 0.5%float] (index state' - 1)
       = Some (nth (index state' - 1)
                   [Sample.bird "Osprey" 0.1%float; Sample.bird "Wren" 0.5%float]
                   (Sample.bird "Osprey" 0.1%float))
    /\ snd (rotateOnce Sample.clock "tile" (Sample.two_birds default_settings 7)) =
         [setImageTitle "tile"
            (formatTitle (settings (Sample.two_birds default_settings 7))
               (Bird.name (nth (index state' - 1)
                             [Sample.bird "Osprey" 0.1%float; Sample.bird "Wren" 0.5%float]
                             (Sample.bird "Osprey" 0.1%float)))
               (Bird.confidence (nth (index state' - 1)
                                   [Sample.bird "Osprey" 0.1%float; Sample.bird "Wren" 0.5%float]
                                   (Sample.bird "Osprey" 0.1%float))) n
               (Bird.occurrence (nth (index state' - 1)
                                   [Sample.bird "Osprey" 0.1%float; Sample.bird "Wren" 0.5%float]
                                   (Sample.bird "Osprey" 0.1%float)))) "today"].
Proof.
  apply (rotation_index_in_range Sample.clock "tile" (Sample.two_birds default_settings 7)
           {| index := 7; timer := None; _lastRareHold := false |}
           (Sample.bird "Osprey" 0.1%float) [Sample.bird "Wren" 0.5%float]).
  - apply lookup_singleton_eq.
  - vm_compute. reflexivity.
Defined.


(** ** Image cache: what every history keeps *)

Section ImageCacheMore.

Lemma settled_promise_inv r st :
  image_inv st -> image_inv (snd (settled_promise r st)).
Proof.
  intros (I1 & I2 & I3 & I4). unfold settled_promise. cbn [snd].
  split; [exact I1|]. split; [|split; [exact I3|]]; cbn [imageInFlight settled next_promise].
  - intros url p Hp. destruct (I2 _ _ Hp) as [Hs Hlt].
    rewrite lookup_insert_ne by lia. split; [exact Hs | lia].
  - intros p r' Hp. apply lookup_insert_Some in Hp as [[<- _]|[_ Hp]]; [lia|].
    apply I4 in Hp. lia.
Qed.

Lemma image_step_inv avail st e :
  image_inv st ->
  image_inv (image_step avail st e)
  /\ forall url dataUri, imageCache st !! url = Some dataUri ->
                         imageCache (image_step avail st e) !! url = Some dataUri.
Proof.
  intros Hinv. pose proof Hinv as (I1 & I2 & I3 & I4).
  destruct e as [u|u r]; cbn [image_step].
  - unfold fetchImageData.
    destruct (imageCache st !! u) as [v|] eqn:Ec.
    { split; [apply settled_promise_inv; exact Hinv | auto]. }
    destruct (imageInFlight st !! u) as [p|] eqn:Ef; [cbn [snd]; auto|].
    destruct avail; cbn [negb].
    2:{ split; [apply settled_promise_inv; exact Hinv | auto]. }
    cbn [snd]. split; [|auto].
    split; [|split; [|split]]; cbn [imageCache imageInFlight settled next_promise].
    + intros url d Hd. rewrite lookup_insert_ne by congruence. eauto.
    + intros url p Hp. apply lookup_insert_Some in Hp as [[<- <-]|[_ Hp]].
      * split; [|lia]. destruct (settled st !! next_promise st) eqn:E; [|reflexivity].
        apply I4 in E. lia.
      * destruct (I2 _ _ Hp). split; [assumption | lia].
    + intros u1 u2 p H1 H2.
      apply lookup_insert_Some in H1 as [[<- <-]|[N1 H1]];
        apply lookup_insert_Some in H2 as [[<- E2]|[N2 H2]]; try reflexivity.
      * destruct (I2 _ _ H2). lia.
      * destruct (I2 _ _ H1). lia.
      * eauto.
    + intros p r Hp. apply I4 in Hp. lia.
  - unfold settle. destruct (imageInFlight st !! u) as [p|] eqn:Ef; [|auto].
    assert (Hcu : imageCache st !! u = None).
    { destruct (imageCache st !! u) eqn:E; [|reflexivity]. apply I1 in E. congruence. }
    split.
    + split; [|split; [|split]]; cbn [imageCache imageInFlight settled next_promise].
      * intros url d Hd. destruct (decide (url = u)) as [->|Hne]; [apply lookup_delete_eq|].
        rewrite lookup_delete_ne by congruence.
        destruct (on_response r); [rewrite lookup_insert_ne in Hd by congruence|]; eauto.
      * intros url q Hq. apply lookup_delete_Some in Hq as [Hne Hq].
        destruct (I2 _ _ Hq) as [Hs Hlt]. split; [|exact Hlt].
        rewrite lookup_insert_ne; [exact Hs|]. intros <-. apply Hne. eapply I3; eassumption.
      * intros u1 u2 q H1 H2. apply lookup_delete_Some in H1 as [_ H1].
        apply lookup_delete_Some in H2 as [_ H2]. eauto.
      * intros q r' Hq. apply lookup_insert_Some in Hq as [[<- _]|[_ Hq]]; [|eauto].
        apply (I2 _ _ Ef).
    + intros url d Hd. cbn [imageCache].
      destruct (on_response r); [|exact Hd].
      rewrite lookup_insert_ne; [exact Hd | congruence].
Qed.

Lemma image_run_inv avail events : forall st,
  image_inv st ->
  image_inv (image_run avail st events)
  /\ forall url dataUri, imageCache st !! url = Some dataUri ->
                         imageCache (image_run avail st events) !! url = Some dataUri.
Proof.
  induction events as [|e events IH]; intros st Hinv; [simpl; auto|].
  unfold image_run. cbn [fold_left]. fold (image_run avail (image_step avail st e) events).
  destruct (image_step_inv avail st e Hinv) as [H1 H2].
  destruct (IH _ H1) as [H3 H4]. split; [exact H3 | auto].
Qed.

(** X15: starting with nothing in flight and no promise settled, after
    any interleaving of calls and completions: what is cached for a URL is
    never replaced or removed by what follows; a URL in flight is not in
    the cache, and its promise is still pending; distinct URLs in flight
    have distinct promises. *)
Theorem image_cache_only_grows (avail : bool) (st : ImageState) (before after : list ImageEvent) :
  imageInFlight st = ∅ ->
  settled st = ∅ ->
  let mid := image_run avail st before in
  let fin := image_run avail st (before ++ after) in
  image_inv fin
  /\ (forall url dataUri, imageCache mid !! url = Some dataUri ->
                          imageCache fin !! url = Some dataUri)
  /\ (forall url p, imageInFlight fin !! url = Some p ->
                    imageCache fin !! url = None /\ settled fin !! p = None).
Proof.
  intros Hfl Hs mid fin.
  assert (H0 : image_inv st).
  { split; [|split; [|split]]; try (intros *; rewrite Hfl, lookup_empty; try discriminate; auto).
    intros p r. rewrite Hs, lookup_empty. discriminate. }
  destruct (image_run_inv avail before st H0) as [Hmid _]. fold mid in Hmid.
  assert (Hfin : fin = image_run avail mid after).
  { unfold fin, mid, image_run. apply fold_left_app. }
  destruct (image_run_inv avail after mid Hmid) as [Hinv Hmono]. rewrite <- Hfin in *.
  split; [exact Hinv|]. split; [exact Hmono|].
  intros url p Hp. destruct Hinv as (I1 & I2 & _). split; [|apply (I2 _ _ Hp)].
  destruct (imageCache fin !! url) eqn:E; [|reflexivity]. apply I1 in E. congruence.
Qed.

End ImageCacheMore.

Lemma image_cache_only_grows_witness :
  image_inv (image_run true Sample.no_images
               ([Call "a"; Settle "a" (Http true "200" None (Bytes "AAAA"))]
                ++ [Call "b"; Call "a"; Settle "b" (NetworkError "down")]))
  /\ (forall url dataUri,
        imageCache (image_run true Sample.no_images
                      [Call "a"; Settle "a" (Http true "200" None (Bytes "AAAA"))]) !! url
        = Some dataUri ->
        imageCache (image_run true Sample.no_images
                      ([Call "a"; Settle "a" (Http true "200" None (Bytes "AAAA"))]
                       ++ [Call "b"; Call "a"; Settle "b" (NetworkError "down")])) !! url
        = Some dataUri)
  /\ (forall url p,
        imageInFlight (image_run true Sample.no_images
                         ([Call "a"; Settle "a" (Http true "200" None (Bytes "AAAA"))]
                          ++ [Call "b"; Call "a"; Settle "b" (NetworkError "down")])) !! url
        = Some p ->
        imageCache (image_run true Sample.no_images
                      ([Call "a"; Settle "a" (Http true "200" None (Bytes "AAAA"))]
                       ++ [Call "b"; Call "a"; Settle "b" (NetworkError "down")])) !! url = None
        /\ settled (image_run true Sample.no_images
                      ([Call "a"; Settle "a" (Http true "200" None (Bytes "AAAA"))]
                       ++ [Call "b"; Call "a"; Settle "b" (NetworkError "down")])) !! p = None).
Proof.
  apply (image_cache_only_grows true Sample.no_images
           [Call "a"; Settle "a" (Http true "200" None (Bytes "AAAA"))]
           [Call "b"; Call "a"; Settle "b" (NetworkError "down")]);
    reflexivity.
Defined.

(** ** Title layout: lines that fit, words in order *)

Section LayoutFacts.
Import U16.

Lemma slice0_length {A} (l : list A) e :
  0 <= e -> Z.of_nat (List.length (slice0 l e)) = Z.min e (Z.of_nat (List.length l)).
Proof.
  intros He. unfold slice0. destruct (Z.ltb_spec e 0); [lia|].
  rewrite length_firstn. lia.
Qed.

Lemma truncateToFit_length text maxLen :
  0 <= maxLen -> U16.length (truncateToFit text maxLen) = Z.min (U16.length text) maxLen.
Proof.
  intros Hm. unfold truncateToFit, U16.length.
  destruct (Z.leb_spec (Z.of_nat (List.length text)) maxLen) as [Hl|Hl]; [lia|].
  destruct (Z.leb_spec maxLen 3).
  - rewrite slice0_length by lia. lia.
  - rewrite length_app, Nat2Z.inj_add, slice0_length by lia. simpl. lia.
Qed.

Lemma truncateToFit_fits text maxLen : U16.length text <= maxLen -> truncateToFit text maxLen = text.
Proof.
  intros Hl. unfold truncateToFit. destruct (Z.leb_spec (U16.length text) maxLen); [reflexivity | lia].
Qed.

(** X16: for a bound that is not negative, [truncateToFit] returns a text
    of [min(length, maxLen)] code units and applying it twice changes
    nothing more; a text that fits is returned as it is; a longer one is
    cut to its first [maxLen - 3] units followed by three dots, or, when
    the bound is 3 or less, to its first [maxLen] units without dots. *)
Theorem truncateToFit_spec (text : U16.t) (maxLen : Z) :
  0 <= maxLen ->
  U16.length (truncateToFit text maxLen) = Z.min (U16.length text) maxLen
  /\ truncateToFit (truncateToFit text maxLen) maxLen = truncateToFit text maxLen
  /\ (U16.length text <= maxLen -> truncateToFit text maxLen = text)
  /\ (maxLen < U16.length text -> 3 < maxLen ->
      truncateToFit text maxLen = firstn (Z.to_nat (maxLen - 3)) text ++ of_ascii "...")
  /\ (maxLen < U16.length text -> maxLen <= 3 ->
      truncateToFit text maxLen = firstn (Z.to_nat maxLen) text).
Proof.
  intros Hm. split; [apply truncateToFit_length; exact Hm|].
  split; [apply truncateToFit_fits; rewrite truncateToFit_length by exact Hm; lia|].
  split; [apply truncateToFit_fits|].
  unfold truncateToFit, slice0, U16.length.
  split; intros Hl H3.
  - destruct (Z.leb_spec (Z.of_nat (List.length text)) maxLen); [lia|].
    destruct (Z.leb_spec maxLen 3); [lia|].
    destruct (Z.ltb_spec (maxLen - 3) 0); [lia|].
    rewrite Z.min_l by (unfold U16.length in Hl; lia). reflexivity.
  - destruct (Z.leb_spec (Z.of_nat (List.length text)) maxLen); [lia|].
    destruct (Z.leb_spec maxLen 3); [|lia].
    destruct (Z.ltb_spec maxLen 0); [lia|].
    rewrite Z.min_l by (unfold U16.length in Hl; lia). reflexivity.
Qed.

Lemma nonempty_length s : nonempty s = true <-> 1 <= U16.length s.
Proof. unfold U16.length. destruct s; simpl; split; try discriminate; try reflexivity; lia. Qed.

Lemma place_word_fits maxLen lines current word :
  1 <= maxLen ->
  Forall (fits maxLen) lines -> U16.length current <= maxLen ->
  Forall (fits maxLen) (fst (place_word maxLen lines current word))
  /\ U16.length (snd (place_word maxLen lines current word)) <= maxLen
  /\ (List.length (fst (place_word maxLen lines current word)) <= S (List.length lines))%nat.
Proof.
  intros Hm Hl Hc. unfold place_word.
  destruct (Z.leb_spec (U16.length (trim (current ++ of_ascii " " ++ word))) maxLen) as [Hn|Hn].
  { cbn [fst snd]. split; [exact Hl|]. split; [exact Hn | lia]. }
  destruct (nonempty current) eqn:Ec; cbn [fst snd].
  - split; [|split].
    + apply Forall_app. split; [exact Hl|]. constructor; [|constructor].
      split; [apply nonempty_length; exact Ec | exact Hc].
    + destruct (Z.leb_spec (U16.length word) maxLen); [assumption|].
      rewrite truncateToFit_length by lia. lia.
    + rewrite length_app. simpl. lia.
  - split; [|split].
    + apply Forall_app. split; [exact Hl|]. constructor; [|constructor].
      assert (Hcur : current = []) by (destruct current; [reflexivity | discriminate]).
      subst current.
      assert (Hw : maxLen < U16.length word).
      { destruct (Z.ltb_spec maxLen (U16.length word)) as [|Hle]; [assumption|]. exfalso.
        assert (U16.length (trim ([] ++ of_ascii " " ++ word)) <= U16.length word); [|lia].
        cbn [app of_ascii List.map JsStr.chars list_ascii_of_string]. unfold trim.
        change (JsStr.code " ") with 32. cbn [trimStart is_ws]. cbn.
        unfold U16.length. rewrite length_rev.
        assert (Hts : forall s, (List.length (trimStart s) <= List.length s)%nat).
        { induction s as [|u r IH]; simpl; [lia|]. destruct (is_ws u); simpl; lia. }
        pose proof (Hts (List.rev (trimStart word))) as H1. rewrite length_rev in H1.
        pose proof (Hts word). lia. }
      unfold fits. rewrite truncateToFit_length by lia. lia.
    + unfold U16.length. simpl. lia.
    + rewrite length_app. simpl. lia.
Qed.

Lemma split_loop_fits maxLen maxLines words : forall lines current,
  1 <= maxLen ->
  Forall (fits maxLen) lines -> U16.length current <= maxLen ->
  Z.of_nat (List.length lines) < maxLines ->
  let r := split_loop maxLen maxLines words lines current in
  Forall (fits maxLen) (fst r) /\ U16.length (snd r) <= maxLen
  /\ Z.of_nat (List.length (fst r)) <= maxLines.
Proof.
  induction words as [|word rest IH]; intros lines current Hm Hl Hc Hn; cbn [split_loop].
  - cbn. split; [exact Hl|]. split; [exact Hc | lia].
  - destruct (place_word_fits maxLen lines current word Hm Hl Hc) as (P1 & P2 & P3).
    destruct (place_word maxLen lines current word) as [lines' current']. cbn [fst snd] in *.
    destruct (Z.eqb_spec (Z.of_nat (List.length lines')) maxLines) as [He|He].
    + cbn. split; [exact P1|]. split; [exact P2 | lia].
    + apply IH; try assumption. lia.
Qed.

(** After the loop nothing more happens: [lines.slice] has nothing to cut,
    and the last line, which fits, is not truncated. *)
Lemma splitName_result (text : U16.t) (maxLen maxLines : Z) :
  1 <= maxLen -> 1 <= maxLines -> nonempty text = true ->
  let r := split_loop maxLen maxLines (split_ws text) [] [] in
  let lines := if (Z.of_nat (List.length (fst r)) <? maxLines) && nonempty (snd r)
               then fst r ++ [snd r] else fst r in
  splitName text maxLen maxLines = Normal lines
  /\ Forall (fits maxLen) lines
  /\ Z.of_nat (List.length lines) <= maxLines.
Proof.
  intros Hm Hn Ht. cbv zeta. unfold splitName. rewrite Ht. cbn [negb].
  destruct (split_loop_fits maxLen maxLines (split_ws text) [] [] Hm) as (L1 & L2 & L3);
    [constructor | unfold U16.length; simpl; lia | simpl; lia|].
  destruct (split_loop maxLen maxLines (split_ws text) [] []) as [lines0 current].
  cbn [fst snd] in *.
  set (lines := if (Z.of_nat (List.length lines0) <? maxLines) && nonempty current
                then lines0 ++ [current] else lines0).
  assert (Hlines : Forall (fits maxLen) lines /\ Z.of_nat (List.length lines) <= maxLines).
  { subst lines. destruct (Z.ltb_spec (Z.of_nat (List.length lines0)) maxLines) as [Hlt|Hge];
      [|simpl; auto].
    destruct (nonempty current) eqn:Ec; cbn [andb]; [|auto].
    split.
    - apply Forall_app. split; [exact L1|]. constructor; [|constructor].
      split; [apply nonempty_length; exact Ec | exact L2].
    - rewrite length_app. simpl. lia. }
  destruct Hlines as [F1 F2]. split; [|auto].
  destruct (Z.ltb_spec maxLines (Z.of_nat (List.length lines))); [lia|].
  destruct ((Z.of_nat (List.length lines) =? maxLines) && _) eqn:Elast; [|reflexivity].
  destruct (U16.length (join (of_ascii " ") lines) <? U16.length text); [|reflexivity].
  apply andb_true_iff in Elast as [Elen _]. apply Z.eqb_eq in Elen.
  destruct (Z.leb_spec 0 (maxLines - 1)); [|lia].
  destruct (lines !! Z.to_nat (maxLines - 1)) as [last|] eqn:En.
  2:{ apply lookup_ge_None in En. lia. }
  f_equal. assert (Hlast : fits maxLen last) by (eapply Forall_lookup_1; eassumption).
  rewrite truncateToFit_fits by apply Hlast.
  apply list_insert_id. exact En.
Qed.

Lemma trimStart_head u r : is_ws u = false -> trimStart (u :: r) = u :: r.
Proof. intros E. simpl. rewrite E. reflexivity. Qed.

Lemma tight_trim s : tight s -> trim s = s.
Proof.
  intros [->|[(u & r & -> & Hu) (r' & u' & E & Hu')]]; [reflexivity|].
  unfold trim. rewrite trimStart_head by exact Hu. rewrite E, rev_app_distr. simpl.
  rewrite Hu'. simpl. rewrite rev_involutive. reflexivity.
Qed.

Lemma word_tight w : word_ok w -> tight w.
Proof.
  intros [Hne Hall]. right. split.
  - destruct w as [|u r]; [contradiction|]. inversion Hall; subst. eauto.
  - destruct (exists_last Hne) as (r & u & ->). exists r, u. split; [reflexivity|].
    apply Forall_app in Hall as [_ Hu]. inversion Hu; subst. assumption.
Qed.

Lemma join_snoc (g : list U16.t) (w : U16.t) : g <> [] -> join (of_ascii " ") (g ++ [w]) = join (of_ascii " ") g ++ (of_ascii " ") ++ w.
Proof.
  destruct g as [|x r]; [contradiction|]. intros _. unfold join. cbn [app].
  rewrite fold_left_app. reflexivity.
Qed.

Lemma join_tight g : Forall word_ok g -> tight (join (of_ascii " ") g) /\ (g <> [] -> join (of_ascii " ") g <> []).
Proof.
  induction g as [|w g IH] using rev_ind; intros Hall.
  - split; [left; reflexivity | contradiction].
  - apply Forall_app in Hall as [Hg Hw]. inversion Hw as [|? ? Hw1 _]; subst.
    destruct g as [|x g'].
    + cbn. split; [apply word_tight; exact Hw1 | intros _; apply Hw1].
    + rewrite join_snoc by discriminate.
      destruct (IH Hg) as [Ht Hne]. specialize (Hne ltac:(discriminate)).
      destruct Ht as [Ht|[(u & r & E & Hu) _]]; [contradiction|].
      split.
      * right. split.
        -- rewrite E. exists u, (r ++ (of_ascii " ") ++ w). split; [reflexivity | exact Hu].
        -- destruct (word_tight w Hw1) as [->|[_ (r' & u' & -> & Hu')]]; [destruct Hw1; contradiction|].
           exists (join (of_ascii " ") (x :: g') ++ (of_ascii " ") ++ r'), u'. split; [|exact Hu'].
           rewrite <- !app_assoc. reflexivity.
      * rewrite E. discriminate.
Qed.

Lemma trim_join_word (g : list U16.t) (w : U16.t) :
  Forall word_ok g -> word_ok w ->
  trim (join (of_ascii " ") g ++ (of_ascii " ") ++ w) = join (of_ascii " ") (g ++ [w]).
Proof.
  intros Hg Hw. destruct g as [|x g'].
  - cbn [join app]. unfold trim.
    assert (H1 : trimStart (of_ascii " " ++ w) = trimStart w) by reflexivity.
    rewrite H1. fold (trim w). apply tight_trim, word_tight, Hw.
  - rewrite <- join_snoc by discriminate. apply tight_trim.
    apply join_tight. apply Forall_app. split; [exact Hg | constructor; [exact Hw | constructor]].
Qed.

Lemma trim_join_empty g : Forall word_ok g -> trim (join (of_ascii " ") g ++ (of_ascii " ") ++ []) = join (of_ascii " ") g.
Proof.
  intros Hg. rewrite app_nil_r.
  destruct (join_tight g Hg) as [Ht _]. revert Ht. generalize (join (of_ascii " ") g). intros j Ht.
  change (of_ascii " ") with [32].
  destruct Ht as [->|[(u & r & E & Hu) (r' & u' & E' & Hu')]]; [reflexivity|].
  unfold trim. assert (H1 : trimStart (j ++ [32]) = j ++ [32]).
  { rewrite E. cbn [app]. apply trimStart_head. exact Hu. }
  rewrite H1, rev_app_distr. cbn [List.rev app trimStart]. change (is_ws 32) with true. cbn iota.
  rewrite E' at 1. rewrite rev_app_distr. cbn [List.rev app]. rewrite trimStart_head by exact Hu'.
  change (u' :: List.rev r') with (List.rev [u'] ++ List.rev r').
  rewrite <- rev_app_distr, rev_involutive. symmetry. exact E'.
Qed.

Lemma split_ws_from_pieces s : forall gap cur,
  Forall (fun u => is_ws u = false) cur ->
  Forall (fun w => Forall (fun u => is_ws u = false) w) (split_ws_from gap cur s).
Proof.
  induction s as [|u r IH]; intros gap cur Hcur; cbn [split_ws_from].
  - constructor; [|constructor]. apply Forall_rev. exact Hcur.
  - destruct (is_ws u) eqn:E.
    + destruct gap; [apply IH; constructor|].
      constructor; [apply Forall_rev; exact Hcur | apply IH; constructor].
    + apply IH. constructor; assumption.
Qed.

Lemma words_ok text : Forall word_ok (List.filter nonempty (split_ws text)).
Proof.
  pose proof (split_ws_from_pieces text false [] ltac:(constructor)) as Hp.
  fold (split_ws text) in Hp. induction Hp as [|w ws Hw _ IH]; [constructor|].
  cbn [List.filter]. destruct w as [|u r]; [exact IH|].
  cbn [nonempty]. constructor; [|exact IH]. split; [discriminate | exact Hw].
Qed.

Lemma truncateToFit_word w maxLen : 1 <= maxLen -> word_ok w -> word_ok (truncateToFit w maxLen).
Proof.
  intros Hm [Hne Hall]. split.
  - intros E. pose proof (truncateToFit_length w maxLen ltac:(lia)) as Hl. rewrite E in Hl.
    assert (1 <= U16.length w); [|unfold U16.length in *; simpl in Hl; lia].
    destruct w; [contradiction|]. unfold U16.length. simpl. lia.
  - unfold truncateToFit. destruct (U16.length w <=? maxLen); [exact Hall|].
    destruct (maxLen <=? 3); unfold slice0.
    + apply Forall_take. exact Hall.
    + apply Forall_app. split; [apply Forall_take; exact Hall|].
      repeat constructor.
Qed.

Lemma length_trim_le s : U16.length (trim s) <= U16.length s.
Proof.
  assert (Hts : forall s, (List.length (trimStart s) <= List.length s)%nat).
  { induction s0 as [|u r IH]; simpl; [lia|]. destruct (is_ws u); simpl; lia. }
  unfold trim, U16.length. rewrite length_rev.
  pose proof (Hts (List.rev (trimStart s))) as H1. rewrite length_rev in H1.
  pose proof (Hts s). lia.
Qed.

Lemma place_word_packed maxLen (done lines : list U16.t) (current word : U16.t) :
  1 <= maxLen ->
  (word = [] \/ word_ok word) ->
  packed maxLen done lines current ->
  packed maxLen (done ++ [word])
         (fst (place_word maxLen lines current word)) (snd (place_word maxLen lines current word)).
Proof.
  intros Hm Hword (groups & g & Hl & Hne & Hc & Hcl & Hok & Hall).
  apply Forall_app in Hok as Hok2. destruct Hok2 as [Hgs Hg].
  destruct Hword as [->|Hw].
  - (* an empty piece changes nothing *)
    unfold place_word. rewrite Hc, trim_join_empty by exact Hg. rewrite <- Hc.
    destruct (U16.length current <=? maxLen) eqn:Hfit; [|apply Z.leb_gt in Hfit; lia].
    cbn [fst snd]. exists groups, g.
    rewrite List.filter_app. cbn [List.filter nonempty]. rewrite app_nil_r. auto 10.
  - assert (Hdone : List.filter nonempty (done ++ [word]) = List.filter nonempty done ++ [word]).
    { rewrite List.filter_app. cbn. destruct word; [destruct Hw; contradiction | reflexivity]. }
    unfold place_word. rewrite Hc, trim_join_word by assumption.
    match goal with |- context [Z.leb (U16.length (join ?a ?b)) maxLen] =>
      destruct (Z.leb (U16.length (join a b)) maxLen) eqn:Hfit end;
      [apply Z.leb_le in Hfit | apply Z.leb_gt in Hfit].
    + cbn [fst snd]. exists groups, (g ++ [word]). rewrite Hdone, List.map_app. cbn [List.map].
      assert (Hwfit : U16.length word <= maxLen).
      { assert (U16.length word <= U16.length (join (of_ascii " ") (g ++ [word])));
          [|eapply Z.le_trans; [eassumption | exact Hfit]].
        destruct g as [|x g']; [apply Z.le_refl|].
        rewrite join_snoc by discriminate. unfold U16.length. rewrite !length_app. lia. }
      rewrite (truncateToFit_fits word) by exact Hwfit.
      split; [exact Hl|]. split; [exact Hne|]. split; [reflexivity|]. split; [exact Hfit|].
      rewrite app_assoc. split; [|rewrite Hall; reflexivity].
      apply Forall_app. split; [exact Hok | constructor; [exact Hw | constructor]].
    + assert (Htw : (if U16.length word <=? maxLen then word else truncateToFit word maxLen)
                    = truncateToFit word maxLen).
      { destruct (Z.leb_spec (U16.length word) maxLen); [|reflexivity].
        rewrite truncateToFit_fits; [reflexivity | assumption]. }
      pose proof (truncateToFit_word word maxLen Hm Hw) as Htok.
      destruct (nonempty (join (of_ascii " ") g)) eqn:Ec; cbn [fst snd].
      * rewrite Htw. exists (groups ++ [g]), [truncateToFit word maxLen].
        assert (g <> []) by (intros ->; discriminate).
        rewrite Hdone, !List.map_app. cbn [List.map].
        split; [rewrite Hl; reflexivity|].
        split; [apply Forall_app; split; [exact Hne | constructor; [assumption | constructor]]|].
        split; [reflexivity|].
        split; [cbn [join fold_left]; rewrite truncateToFit_length by lia; lia|].
        rewrite concat_app. cbn [concat]. rewrite app_nil_r.
        split; [|rewrite Hall; reflexivity].
        apply Forall_app. split; [exact Hok | constructor; [exact Htok | constructor]].
      * assert (g = []).
        { destruct g as [|x g']; [reflexivity|].
          destruct (join_tight (x :: g') Hg) as [_ Hn]. specialize (Hn ltac:(discriminate)).
          destruct (join (of_ascii " ") (x :: g')); [contradiction | discriminate]. }
        subst g. exists (groups ++ [[truncateToFit word maxLen]]), [].
        rewrite Hdone, !List.map_app. cbn [List.map].
        split; [rewrite Hl; reflexivity|].
        split; [apply Forall_app; split; [exact Hne | constructor; [discriminate | constructor]]|].
        split; [reflexivity|].
        split; [unfold U16.length; simpl; lia|].
        rewrite concat_app. cbn [concat]. rewrite !app_nil_r in *.
        split; [|rewrite Hall; reflexivity].
        apply Forall_app. split; [exact Hok | constructor; [exact Htok | constructor]].
Qed.

Lemma split_loop_packed maxLen maxLines (words : list U16.t) :
  forall (done lines : list U16.t) (current : U16.t),
  1 <= maxLen ->
  Forall (fun w => w = [] \/ word_ok w) words ->
  packed maxLen done lines current ->
  Z.of_nat (List.length lines) < maxLines ->
  let r := split_loop maxLen maxLines words lines current in
  exists done' rest,
    done ++ words = done' ++ rest
    /\ packed maxLen done' (fst r) (snd r)
    /\ Z.of_nat (List.length (fst r)) <= maxLines
    /\ (Z.of_nat (List.length (fst r)) < maxLines -> rest = []).
Proof.
  induction words as [|word rest IH]; intros done lines current Hm Hw Hp Hn; cbn [split_loop].
  - exists done, []. cbn. split; [reflexivity|]. split; [exact Hp|]. split; [lia | reflexivity].
  - inversion Hw as [|? ? Hw1 Hw2]; subst.
    pose proof (place_word_packed maxLen done lines current word Hm Hw1 Hp) as Hp'.
    assert (Hlen : (List.length (fst (place_word maxLen lines current word))
                    <= S (List.length lines))%nat).
    { unfold place_word. destruct (_ <=? maxLen); [cbn; lia|].
      destruct (nonempty current); cbn; rewrite length_app; simpl; lia. }
    destruct (place_word maxLen lines current word) as [lines' current']. cbn [fst snd] in *.
    destruct (Z.eqb_spec (Z.of_nat (List.length lines')) maxLines) as [He|He].
    + exists (done ++ [word]), rest. cbn [fst snd].
      split; [rewrite <- app_assoc; reflexivity|]. split; [exact Hp'|]. split; lia.
    + destruct (IH (done ++ [word]) lines' current' Hm Hw2 Hp' ltac:(lia))
        as (done' & rest' & E & P & L & R).
      exists done', rest'. rewrite <- E, <- app_assoc. auto.
Qed.

(** What [splitName] returns: groups of words, each joined by single
    spaces into a line that fits. *)
Lemma splitName_structure (text : U16.t) (maxLen maxLines : Z) :
  1 <= maxLen -> 1 <= maxLines ->
  let words := List.map (fun w => truncateToFit w maxLen) (List.filter nonempty (split_ws text)) in
  exists groups,
    splitName text maxLen maxLines = Normal (List.map (join (of_ascii " ")) groups)
    /\ Forall (fun g => g <> []) groups
    /\ concat groups `prefix_of` words
    /\ (Z.of_nat (List.length groups) < maxLines -> concat groups = words)
    /\ Forall (fits maxLen) (List.map (join (of_ascii " ")) groups)
    /\ Z.of_nat (List.length groups) <= maxLines.
Proof.
  intros Hm Hn words. destruct (nonempty text) eqn:Et.
  2:{ exists []. unfold splitName. rewrite Et. destruct text; [|discriminate].
      split; [reflexivity|]. split; [constructor|]. split; [exists []; reflexivity|].
      split; [reflexivity|]. split; [constructor | simpl; lia]. }
  destruct (splitName_result text maxLen maxLines Hm Hn Et) as (Hr & Hfits & Hcount). rewrite Hr.
  assert (Hfin : forall groups,
             (if (Z.of_nat (List.length (fst (split_loop maxLen maxLines (split_ws text) [] [])))
                  <? maxLines)
                 && nonempty (snd (split_loop maxLen maxLines (split_ws text) [] []))
              then fst (split_loop maxLen maxLines (split_ws text) [] [])
                   ++ [snd (split_loop maxLen maxLines (split_ws text) [] [])]
              else fst (split_loop maxLen maxLines (split_ws text) [] []))
             = List.map (join (of_ascii " ")) groups ->
             Forall (fits maxLen) (List.map (join (of_ascii " ")) groups)
             /\ Z.of_nat (List.length groups) <= maxLines).
  { intros groups E. rewrite <- E. split; [exact Hfits|].
    rewrite <- (length_map (join (of_ascii " ")) groups), <- E. exact Hcount. }
  revert Hfin.
  destruct (split_loop_packed maxLen maxLines (split_ws text) [] [] [] Hm)
    as (done' & rest & Hsplit & Hp & Hlen & Hrest).
  { pose proof (split_ws_from_pieces text false [] ltac:(constructor)) as Hpc.
    fold (split_ws text) in Hpc. eapply List.Forall_impl; [|exact Hpc].
    intros w Hw. destruct w; [left; reflexivity | right; split; [discriminate | exact Hw]]. }
  { exists [], []. cbn. repeat split; try constructor. unfold U16.length. simpl. lia. }
  { simpl. lia. }
  cbn [app] in Hsplit.
  destruct (split_loop maxLen maxLines (split_ws text) [] []) as [lines0 current].
  cbn [fst snd] in *. intros Hfin.
  destruct Hp as (groups0 & g0 & Hl & Hne & Hc & _ & Hok & Hall).
  assert (Hlen0 : List.length lines0 = List.length groups0) by (rewrite Hl, length_map; reflexivity).
  assert (Hpre : List.map (fun w => truncateToFit w maxLen) (List.filter nonempty done')
                 `prefix_of` words).
  { unfold words. rewrite Hsplit, List.filter_app, List.map_app. eexists. reflexivity. }
  destruct (Z.ltb_spec (Z.of_nat (List.length lines0)) maxLines) as [Hlt|Hge]; cbn [andb].
  - assert (Hdone : done' = split_ws text) by (rewrite Hsplit, (Hrest Hlt), app_nil_r; reflexivity).
    assert (Hwords : concat groups0 ++ g0 = words) by (rewrite Hall, Hdone; reflexivity).
    destruct (nonempty current) eqn:Ec.
    + exists (groups0 ++ [g0]).
      assert (Hg : lines0 ++ [current] = List.map (join (of_ascii " ")) (groups0 ++ [g0])).
      { rewrite List.map_app, Hl, Hc. reflexivity. }
      rewrite Hg. split; [reflexivity|]. split.
      { apply Forall_app. split; [exact Hne|]. constructor; [|constructor].
        intros ->. rewrite Hc in Ec. discriminate. }
      rewrite concat_app. cbn [concat]. rewrite app_nil_r, Hwords.
      split; [exists []; symmetry; apply app_nil_r|]. split; [reflexivity|].
      apply Hfin. cbn [andb]. exact Hg.
    + assert (g0 = []).
      { destruct g0 as [|x g']; [reflexivity|].
        apply Forall_app in Hok as [_ Hg].
        destruct (join_tight (x :: g') Hg) as [_ Hnn]. specialize (Hnn ltac:(discriminate)).
        rewrite <- Hc in Hnn. destruct current; [contradiction | discriminate]. }
      subst g0. rewrite app_nil_r in Hwords. exists groups0. rewrite Hwords.
      split; [rewrite Hl; reflexivity|]. split; [exact Hne|].
      split; [exists []; symmetry; apply app_nil_r|]. split; [reflexivity|].
      apply Hfin. cbn [andb]. exact Hl.
  - exists groups0. split; [rewrite Hl; reflexivity|]. split; [exact Hne|]. split.
    + destruct Hpre as [k Hk]. exists (g0 ++ k). rewrite Hk, <- Hall, <- app_assoc. reflexivity.
    + split; [lia|]. apply Hfin. exact Hl.
Qed.

(** X17: for bounds of at least 1, [splitName] returns (it does not
    throw) at most [maxLines] lines, none empty and none longer than
    [maxLen] code units. *)
Theorem splitName_lines_fit (text : U16.t) (maxLen maxLines : Z) :
  1 <= maxLen -> 1 <= maxLines ->
  exists lines,
    splitName text maxLen maxLines = Normal lines
    /\ Z.of_nat (List.length lines) <= maxLines
    /\ Forall (fun line => 1 <= U16.length line <= maxLen) lines.
Proof.
  intros Hm Hn.
  destruct (splitName_structure text maxLen maxLines Hm Hn) as (groups & Hr & _ & _ & _ & Hf & Hc).
  exists (List.map (join (of_ascii " ")) groups).
  split; [exact Hr|]. split; [|exact Hf].
  rewrite length_map. exact Hc.
Qed.

(** X18: for bounds of at least 1, the lines [splitName] returns are the
    words of the text (its pieces between runs of white space), each cut
    by [truncateToFit] when longer than [maxLen], taken in order and joined
    by single spaces: every line is one or more consecutive words.  Words
    are left out only at the end, and only when all [maxLines] lines are
    used: with fewer lines, every word is there.  No line is marked when
    words are left out. *)
Theorem splitName_keeps_words (text : U16.t) (maxLen maxLines : Z) :
  1 <= maxLen -> 1 <= maxLines ->
  let words := List.map (fun w => truncateToFit w maxLen) (List.filter nonempty (split_ws text)) in
  exists groups,
    splitName text maxLen maxLines = Normal (List.map (join (of_ascii " ")) groups)
    /\ Forall (fun g => g <> []) groups
    /\ concat groups `prefix_of` words
    /\ (Z.of_nat (List.length groups) < maxLines -> concat groups = words).
Proof.
  intros Hm Hn words.
  destruct (splitName_structure text maxLen maxLines Hm Hn) as (groups & Hr & Hne & Hp & Ha & _).
  exists groups. split; [exact Hr|]. split; [exact Hne|]. split; [exact Hp | exact Ha].
Qed.

Lemma trimStart_suffix_of (s : U16.t) : exists pre, s = pre ++ trimStart s.
Proof.
  induction s as [|u r [pre IH]]; [exists []; reflexivity|].
  simpl. destruct (is_ws u); [exists (u :: pre); simpl; f_equal; exact IH | exists []; reflexivity].
Qed.

Lemma trimStart_head_ok (s : U16.t) u r : trimStart s = u :: r -> is_ws u = false.
Proof.
  induction s as [|v s IH]; [discriminate|]. simpl.
  destruct (is_ws v) eqn:E; [exact IH|]. intros [= <- _]. exact E.
Qed.

Lemma trim_head_ok (s : U16.t) u r : trim s = u :: r -> is_ws u = false.
Proof.
  unfold trim. intros E.
  destruct (trimStart_suffix_of (List.rev (trimStart s))) as [pre Hp].
  apply (f_equal (@List.rev Z)) in Hp. rewrite rev_involutive, rev_app_distr, E in Hp.
  cbn [app] in Hp. eapply trimStart_head_ok. exact Hp.
Qed.

Lemma split_ws_from_first (s : U16.t) : forall cur,
  cur <> [] -> exists w rest, split_ws_from false cur s = w :: rest /\ w <> [].
Proof.
  induction s as [|u r IH]; intros cur Hc; cbn [split_ws_from].
  - exists (List.rev cur), []. split; [reflexivity|]. intros E.
    apply (f_equal (@List.rev Z)) in E. rewrite rev_involutive in E. contradiction.
  - destruct (is_ws u).
    + eexists _, _. split; [reflexivity|]. intros E.
      apply (f_equal (@List.rev Z)) in E. rewrite rev_involutive in E. contradiction.
    + apply IH. discriminate.
Qed.

Lemma words_of_trimmed (name : U16.t) :
  trim name <> [] -> List.filter nonempty (split_ws (trim name)) <> [].
Proof.
  intros Hne. destruct (trim name) as [|u r] eqn:E; [contradiction|].
  pose proof (trim_head_ok _ _ _ E) as Hu.
  unfold split_ws. cbn [split_ws_from]. rewrite Hu.
  destruct (split_ws_from_first r [u] ltac:(discriminate)) as (w & rest & -> & Hw).
  cbn [List.filter]. destruct w; [contradiction|]. discriminate.
Qed.

(** X19: for every name, [formatTitle] obtains three lines of at most 12
    code units each (it does not throw); the first line is empty exactly
    when the name is empty or white space, and a line is empty only when
    the lines after it are. *)
Theorem title_has_three_short_lines (name : U16.t) :
  exists line1 line2 line3,
    formatTitle_lines name = Normal (line1, line2, line3)
    /\ U16.length line1 <= 12 /\ U16.length line2 <= 12 /\ U16.length line3 <= 12
    /\ (line1 = [] <-> trim name = [])
    /\ (line2 = [] -> line3 = []).
Proof.
  unfold formatTitle_lines.
  destruct (splitName_structure (trim name) 12 3 ltac:(lia) ltac:(lia))
    as (groups & Hr & Hne & Hpre & Hall & Hfit & Hlen).
  pose proof Hr as Hr'. revert Hr' Hfit.
  generalize (eq_refl (List.map (join (of_ascii " ")) groups)).
  generalize (List.map (join (of_ascii " ")) groups) at 2 3 4. intros lines Hlines Hr' Hfit.
  rewrite Hr'. cbn [mbind completion_bind].
  do 3 eexists. split; [reflexivity|].
  assert (Hnth : forall i, U16.length (nth i lines []) <= 12
                           /\ (nth i lines [] = [] -> (List.length lines <= i)%nat)).
  { intros i. destruct (Nat.lt_ge_cases i (List.length lines)) as [Hi|Hi].
    - rewrite List.Forall_forall in Hfit. pose proof (Hfit _ (nth_In lines [] Hi)) as Hf.
      unfold fits in Hf. split; [lia|]. intros E. rewrite E in Hf. unfold U16.length in Hf. simpl in Hf. lia.
    - rewrite nth_overflow by exact Hi. unfold U16.length. simpl. split; [lia | auto]. }
  split; [apply Hnth|]. split; [apply Hnth|]. split; [apply Hnth|]. split.
  - split.
    + intros E. apply Hnth in E.
      assert (lines = []) by (destruct lines; [reflexivity | simpl in E; lia]).
      subst lines. destruct groups; [|discriminate].
      specialize (Hall ltac:(simpl; lia)). cbn [concat] in Hall.
      destruct (decide (trim name = [])) as [|Hn]; [assumption|].
      apply words_of_trimmed in Hn. symmetry in Hall. apply map_eq_nil in Hall. contradiction.
    + intros E. unfold splitName in Hr'. rewrite E in Hr'. cbn [nonempty negb] in Hr'.
      injection Hr' as <-. reflexivity.
  - intros E. apply Hnth in E. apply nth_overflow. unfold U16.t in *. lia.
Qed.

End LayoutFacts.

Lemma truncateToFit_spec_witness :
  U16.length (truncateToFit (U16.of_ascii "Yellow-bellied") 12)
  = Z.min (U16.length (U16.of_ascii "Yellow-bellied")) 12
  /\ truncateToFit (U16.of_ascii "Yellow-bellied") 12 = U16.of_ascii "Yellow-be...".
Proof.
  destruct (truncateToFit_spec (U16.of_ascii "Yellow-bellied") 12 ltac:(discriminate))
    as (H1 & _ & _ & H2 & _).
  split; [exact H1|]. apply H2; reflexivity.
Defined.

Lemma splitName_lines_fit_witness :
  exists lines,
    splitName (U16.of_ascii "Yellow-bellied Sapsucker") 12 3 = Normal lines
    /\ Z.of_nat (List.length lines) <= 3
    /\ Forall (fun line => 1 <= U16.length line <= 12) lines.
Proof.
  apply (splitName_lines_fit (U16.of_ascii "Yellow-bellied Sapsucker") 12 3); discriminate.
Defined.

Lemma splitName_keeps_words_witness :
  exists groups,
    splitName (U16.of_ascii "Black-capped Chickadee of the Northern Woods") 12 3
    = Normal (List.map (U16.join (U16.of_ascii " ")) groups)
    /\ Forall (fun g => g <> []) groups
    /\ concat groups `prefix_of`
         List.map (fun w => truncateToFit w 12)
           (List.filter U16.nonempty
              (U16.split_ws (U16.of_ascii "Black-capped Chickadee of the Northern Woods")))
    /\ (Z.of_nat (List.length groups) < 3 ->
        concat groups =
          List.map (fun w => truncateToFit w 12)
            (List.filter U16.nonempty
               (U16.split_ws (U16.of_ascii "Black-capped Chickadee of the Northern Woods")))).
Proof.
  apply (splitName_keeps_words (U16.of_ascii "Black-capped Chickadee of the Northern Woods") 12 3);
    discriminate.
Defined.

(** ** Escaping for SVG text *)

Section XmlFacts.
Import U16.

Lemma replace_all_flat_map c by_ (f : Z -> U16.t) s :
  replace_all c by_ (flat_map f s) = flat_map (fun u => replace_all c by_ (f u)) s.
Proof.
  unfold replace_all. induction s as [|u r IH]; [reflexivity|].
  cbn [flat_map]. rewrite flat_map_app, IH. reflexivity.
Qed.

Lemma escapeXml_unit u : escapeXml [u] = escaped_unit u.
Proof.
  unfold escapeXml, escaped_unit, replace_all. cbn [flat_map app].
  destruct (Z.eqb_spec u 38) as [->|H38]; [reflexivity|].
  cbn [flat_map app]. destruct (Z.eqb_spec u 60) as [->|H60]; [reflexivity|].
  cbn [flat_map app]. destruct (Z.eqb_spec u 62) as [->|H62]; [reflexivity|].
  cbn [flat_map app]. destruct (Z.eqb_spec u 34) as [->|H34]; [reflexivity|].
  cbn [flat_map app]. destruct (Z.eqb_spec u 39) as [->|H39]; reflexivity.
Qed.

Lemma escapeXml_one_pass text : escapeXml text = flat_map escaped_unit text.
Proof.
  unfold escapeXml.
  assert (Hid : text = flat_map (fun u => [u]) text).
  { induction text as [|u r IH]; [reflexivity|]. cbn. f_equal. exact IH. }
  rewrite Hid at 1. rewrite !replace_all_flat_map.
  apply flat_map_ext. intros u. apply (escapeXml_unit u).
Qed.

Lemma escaped_unit_cases u :
  (u = 38 /\ escaped_unit u = [38; 97; 109; 112; 59])
  \/ (u = 60 /\ escaped_unit u = [38; 108; 116; 59])
  \/ (u = 62 /\ escaped_unit u = [38; 103; 116; 59])
  \/ (u = 34 /\ escaped_unit u = [38; 113; 117; 111; 116; 59])
  \/ (u = 39 /\ escaped_unit u = [38; 97; 112; 111; 115; 59])
  \/ (u <> 38 /\ markup u = false /\ escaped_unit u = [u]).
Proof.
  unfold escaped_unit, markup.
  destruct (Z.eqb_spec u 38); [left; split; [assumption | reflexivity]|].
  destruct (Z.eqb_spec u 60); [right; left; split; [assumption | reflexivity]|].
  destruct (Z.eqb_spec u 62); [right; right; left; split; [assumption | reflexivity]|].
  destruct (Z.eqb_spec u 34); [right; right; right; left; split; [assumption | reflexivity]|].
  destruct (Z.eqb_spec u 39); [right; right; right; right; left; split; [assumption | reflexivity]|].
  right; right; right; right; right. auto.
Qed.

Lemma escaped_unit_inj u v a b :
  escaped_unit u ++ a = escaped_unit v ++ b -> u = v /\ a = b.
Proof.
  destruct (escaped_unit_cases u) as [[-> ->]|[[-> ->]|[[-> ->]|[[-> ->]|[[-> ->]|(Hu & _ & ->)]]]]];
    destruct (escaped_unit_cases v) as [[-> ->]|[[-> ->]|[[-> ->]|[[-> ->]|[[-> ->]|(Hv & _ & ->)]]]]];
    cbn [app]; intros E; try discriminate E;
    try (injection E; intros; subst; try contradiction; auto; fail).
Qed.

(** X20: the text [escapeXml] returns holds no [<], [>], double quote or
    apostrophe; escaping goes unit by unit (the text of a concatenation is
    the concatenation of the texts: what an earlier replacement wrote is
    not replaced again by a later one); different texts are escaped to
    different texts; and a text without any of the five characters is
    returned as it is. *)
Theorem escapeXml_is_safe_and_lossless (text text' : U16.t) :
  Forall (fun u => markup u = false) (escapeXml text)
  /\ escapeXml (text ++ text') = escapeXml text ++ escapeXml text'
  /\ (escapeXml text = escapeXml text' -> text = text')
  /\ (Forall (fun u => u <> 38 /\ markup u = false) text -> escapeXml text = text).
Proof.
  split; [|split; [|split]].
  - rewrite escapeXml_one_pass. induction text as [|u r IH]; [constructor|].
    cbn [flat_map]. apply Forall_app. split; [|exact IH].
    destruct (escaped_unit_cases u) as [[_ ->]|[[_ ->]|[[_ ->]|[[_ ->]|[[_ ->]|(_ & Hm & ->)]]]]];
      repeat constructor. exact Hm.
  - rewrite !escapeXml_one_pass. apply flat_map_app.
  - rewrite !escapeXml_one_pass. revert text'.
    induction text as [|u r IH]; intros [|v r']; cbn [flat_map]; intros E.
    + reflexivity.
    + destruct (escaped_unit_cases v) as [[_ Hv]|[[_ Hv]|[[_ Hv]|[[_ Hv]|[[_ Hv]|(_ & _ & Hv)]]]]];
        rewrite Hv in E; discriminate E.
    + destruct (escaped_unit_cases u) as [[_ Hv]|[[_ Hv]|[[_ Hv]|[[_ Hv]|[[_ Hv]|(_ & _ & Hv)]]]]];
        rewrite Hv in E; discriminate E.
    + apply escaped_unit_inj in E as [-> E]. f_equal. apply IH. exact E.
  - rewrite escapeXml_one_pass. induction 1 as [|u r [H38 Hm] _ IH]; [reflexivity|].
    cbn [flat_map]. rewrite IH.
    destruct (escaped_unit_cases u) as [[-> _]|[[-> _]|[[-> _]|[[-> _]|[[-> _]|(_ & _ & ->)]]]]];
      try discriminate Hm; try contradiction. reflexivity.
Qed.

End XmlFacts.

Lemma escapeXml_is_safe_and_lossless_witness :
  escapeXml (U16.of_ascii "Grouse") = U16.of_ascii "Grouse".
Proof.
  destruct (escapeXml_is_safe_and_lossless (U16.of_ascii "Grouse") []) as (_ & _ & _ & H).
  apply H. repeat constructor; discriminate.
Defined.

(** ** The broker URL *)

Section MqttFacts.
Context `{Host}.
Import JsStr.

Lemma split_chars_first sep l : forall cur,
  Forall (fun a => a <> sep) cur ->
  exists w rest, split_chars sep cur l = w :: rest /\ Forall (fun a => a <> sep) w.
Proof.
  induction l as [|c r IH]; intros cur Hcur; cbn [split_chars].
  - eexists _, _. split; [reflexivity|]. apply Forall_rev. exact Hcur.
  - destruct (Ascii.eqb_spec c sep) as [->|Hne].
    + eexists _, _. split; [reflexivity|]. apply Forall_rev. exact Hcur.
    + apply IH. constructor; assumption.
Qed.

Lemma first_piece_free sep s : free_of sep (first_piece sep s).
Proof.
  unfold first_piece, split, free_of.
  destruct (split_chars_first sep (chars s) [] ltac:(constructor)) as (w & rest & -> & Hw).
  cbn [List.map hd]. rewrite TrimFacts.chars_of_chars. exact Hw.
Qed.

Lemma split_chars_first_prefix sep l : forall cur,
  exists w rest tail, split_chars sep cur l = w :: rest /\ List.rev cur ++ l = w ++ tail.
Proof.
  induction l as [|c r IH]; intros cur; cbn [split_chars].
  - eexists _, _, []. split; reflexivity.
  - destruct (Ascii.eqb c sep).
    + eexists _, _, _. split; reflexivity.
    + destruct (IH (c :: cur)) as (w & rest & tail & E & Hp).
      exists w, rest, tail. split; [exact E|]. rewrite <- Hp. cbn [List.rev]. rewrite <- app_assoc. reflexivity.
Qed.

Lemma first_piece_sub sep a s : free_of a s -> free_of a (first_piece sep s).
Proof.
  unfold first_piece, split, free_of. intros Hs.
  destruct (split_chars_first_prefix sep (chars s) []) as (w & rest & tail & -> & Hp).
  cbn [List.map hd]. rewrite TrimFacts.chars_of_chars. cbn [List.rev app] in Hp.
  rewrite Hp in Hs. apply Forall_app in Hs as [Hw _]. exact Hw.
Qed.

(** X21: when the host setting is a string, or is falsy (taken as the
    empty string), [buildMqttUrl] returns [protocol://host:port] where the
    port is [String(mqttPort)], the protocol is [mqtt] or [mqtts], and the
    host is not empty and holds neither [/] nor [:], so that a path or a
    port typed into the host field is dropped.  A scheme typed into the
    host field decides the protocol, the TLS setting being read only when
    there is none: with [mqtt://] in front, as in the default host, the
    protocol is [mqtt] even when TLS is set.  A host field with nothing
    after the scheme gives [localhost]. *)
Theorem broker_url_shape (currentSettings : MqttSettings) (host : string) :
  mqttHost currentSettings = SStr host \/
  (Js.scalar_truthy (mqttHost currentSettings) = false /\ host = EmptyString) ->
  exists protocol hostOnly port,
    buildMqttUrl currentSettings =
      Normal (String.append protocol
                (String.append "://" (String.append hostOnly (String.append ":" port))))
    /\ String_ (scalar_value (mqttPort currentSettings)) = Normal port
    /\ (protocol = "mqtt" \/ protocol = "mqtts")
    /\ nonempty hostOnly = true
    /\ free_of "/" hostOnly /\ free_of ":" hostOnly
    /\ (startsWith (trim host) "mqtts://" = true -> protocol = "mqtts")
    /\ (startsWith (trim host) "mqtt://" = true -> protocol = "mqtt")
    /\ (startsWith (trim host) "mqtts://" = false -> startsWith (trim host) "mqtt://" = false ->
        protocol = if Js.scalar_truthy (mqttTls currentSettings) then "mqtts" else "mqtt")
    /\ (without_scheme (trim host) = EmptyString -> hostOnly = "localhost").
Proof.
  intros Hhost. unfold buildMqttUrl.
  assert (Hraw : match mqttHost currentSettings with
                 | SStr s => Normal (trim s)
                 | v => if Js.scalar_truthy v then Throw else Normal EmptyString
                 end = Normal (trim host)).
  { destruct Hhost as [->|[Hf ->]]; [reflexivity|].
    destruct (mqttHost currentSettings); simpl in Hf |- *; try rewrite Hf; try reflexivity.
    destruct s; [reflexivity | discriminate]. }
  rewrite Hraw. cbn [mbind completion_bind].
  assert (Hport : exists port, String_ (scalar_value (mqttPort currentSettings)) = Normal port).
  { destruct (mqttPort currentSettings); simpl; eauto. }
  destruct Hport as [port Hport]. rewrite Hport. cbn [mbind completion_bind].
  set (first := first_piece ":" (first_piece "/" (without_scheme (trim host)))).
  eexists _, (if nonempty first then first else "localhost"), port.
  split; [reflexivity|]. split; [reflexivity|].
  split.
  { destruct (startsWith (trim host) "mqtts://"); [auto|].
    destruct (startsWith (trim host) "mqtt://"); [auto|].
    destruct (Js.scalar_truthy (mqttTls currentSettings)); auto. }
  split; [destruct (nonempty first) eqn:E; [exact E | reflexivity]|].
  split.
  { destruct (nonempty first); [|unfold free_of; repeat constructor; discriminate].
    apply first_piece_sub, first_piece_free. }
  split.
  { destruct (nonempty first); [|unfold free_of; repeat constructor; discriminate].
    apply first_piece_free. }
  split; [intros ->; reflexivity|].
  split.
  { intros Hs. destruct (startsWith (trim host) "mqtts://") eqn:E; [|rewrite Hs; reflexivity].
    exfalso. unfold startsWith in *.
    apply prefix_correct in E. apply prefix_correct in Hs.
    destruct (trim host) as [|c0 [|c1 [|c2 [|c3 [|c4 r]]]]]; try discriminate.
    cbn in E, Hs. congruence. }
  split; [intros -> ->; reflexivity|].
  intros Hw. subst first. rewrite Hw. reflexivity.
Qed.

End MqttFacts.

Section MqttExamples.
#[local] Existing Instance NodeHost.host.

Lemma broker_url_shape_witness :
  exists protocol hostOnly port,
    buildMqttUrl {| mqttHost := SStr " mqtt://broker.local:8883/ws ";
                    mqttPort := SNum 1883%float; mqttTls := SBool true |} =
      Normal (String.append protocol
                (String.append "://" (String.append hostOnly (String.append ":" port))))
    /\ String_ (scalar_value (SNum 1883%float)) = Normal port
    /\ (protocol = "mqtt" \/ protocol = "mqtts")
    /\ JsStr.nonempty hostOnly = true
    /\ free_of "/" hostOnly /\ free_of ":" hostOnly
    /\ (startsWith (JsStr.trim " mqtt://broker.local:8883/ws ") "mqtts://" = true ->
        protocol = "mqtts")
    /\ (startsWith (JsStr.trim " mqtt://broker.local:8883/ws ") "mqtt://" = true ->
        protocol = "mqtt")
    /\ (startsWith (JsStr.trim " mqtt://broker.local:8883/ws ") "mqtts://" = false ->
        startsWith (JsStr.trim " mqtt://broker.local:8883/ws ") "mqtt://" = false ->
        protocol = if Js.scalar_truthy (SBool true) then "mqtts" else "mqtt")
    /\ (without_scheme (JsStr.trim " mqtt://broker.local:8883/ws ") = EmptyString ->
        hostOnly = "localhost").
Proof.
  apply (broker_url_shape
           {| mqttHost := SStr " mqtt://broker.local:8883/ws ";
              mqttPort := SNum 1883%float; mqttTls := SBool true |}
           " mqtt://broker.local:8883/ws ").
  left. reflexivity.
Defined.

End MqttExamples.

(** ** The message handler *)

Section HandlerFacts.
Context `{Host}.

Lemma updateDailyBirds_frame clock d w :
  settings (updateDailyBirds clock d w) = settings w
  /\ detectionTimestamps (updateDailyBirds clock d w) = detectionTimestamps w
  /\ rotationState (updateDailyBirds clock d w) = rotationState w.
Proof.
  unfold updateDailyBirds. destruct (negb _); [cbn; auto|].
  unfold scheduleCacheSave. destruct (cacheSaveTimer _); cbn; auto.
Qed.

Lemma startRotation_immediate clock c w :
  List.map output_context (snd (startRotation clock c true w))
    = (if JsStr.nonempty c then [c] else [])
  /\ settings (fst (startRotation clock c true w)) = settings w
  /\ dailyBirds (fst (startRotation clock c true w)) = dailyBirds w.
Proof.
  unfold startRotation. destruct (JsStr.nonempty c); cbn [negb]; [|cbn; auto].
  unfold rotateOnce. cbn [rotationState with_rotation]. rewrite lookup_insert_eq.
  match goal with |- context [getTodayBirds clock ?w1] =>
    change (getTodayBirds clock w1) with (getTodayBirds clock w) end.
  destruct (getTodayBirds clock w) as [|first rest]; [cbn; auto|].
  destruct (getDetectionsLastHour _ _) as [ts n]. cbn. auto.
Qed.

Lemma start_all_outputs reads cs : forall w,
  List.map output_context (snd (start_all reads cs w)) = List.filter JsStr.nonempty cs
  /\ settings (fst (start_all reads cs w)) = settings w
  /\ dailyBirds (fst (start_all reads cs w)) = dailyBirds w.
Proof.
  induction cs as [|c rest IH]; intros w; [cbn; auto|].
  cbn [start_all].
  destruct (startRotation_immediate (at_tick reads c) c w) as (S1 & S2 & S3).
  destruct (startRotation (at_tick reads c) c true w) as [w1 out1]. cbn [fst snd] in *.
  destruct (IH w1) as (I1 & I2 & I3).
  destruct (start_all reads rest w1) as [w2 out2]. cbn [fst snd] in *.
  rewrite List.map_app, S1, I1, I2, I3, S2, S3. cbn [List.filter].
  destruct (JsStr.nonempty c); auto.
Qed.

Lemma forEachContext_action action (p : Plugin) :
  JsStr.nonempty action = true ->
  List.map fst (forEachContext (Some action) (contexts p)) = tiles action p.
Proof. intros Ha. unfold tiles, forEachContext. rewrite Ha. reflexivity. Qed.

Lemma on_detection_spec reads isRetained d p :
  let display :=
    formatTitle (settings (world p)) (Detection.name d) (Detection.confidence d)
                (count_shown reads isRetained p) (Detection.occurrence d) in
  exists today_out,
    snd (on_detection reads isRetained d p) =
      List.map (fun c => setImageTitle c display "text") (tiles ACTION_TEXT p)
      ++ List.map (fun c => setImageTitle c display "border") (tiles ACTION_BORDER p)
      ++ today_out
    /\ List.map output_context today_out =
         (if isRetained then [] else List.filter JsStr.nonempty (tiles ACTION_TODAY p))
    /\ contexts (fst (on_detection reads isRetained d p)) = contexts p
    /\ latestDetection (fst (on_detection reads isRetained d p)) = Some d
    /\ images (fst (on_detection reads isRetained d p)) = images p
    /\ image_jobs (fst (on_detection reads isRetained d p)) = image_jobs p
    /\ dailyBirds (world (fst (on_detection reads isRetained d p)))
         = dailyBirds (updateDailyBirds (at_update reads) d (world p))
    /\ (isRetained = true ->
        detectionTimestamps (world (fst (on_detection reads isRetained d p)))
          = pruneDetections (at_count reads) (detectionTimestamps (world p))
        /\ rotationState (world (fst (on_detection reads isRetained d p)))
           = rotationState (world p)).
Proof.
  intros display. subst display. unfold on_detection, count_shown.
  destruct (updateDailyBirds_frame (at_update reads) d (world p)) as (F1 & F2 & F3).
  rewrite F2.
  destruct (getDetectionsLastHour (at_count reads) _) as [ts3 n] eqn:Ecount.
  set (w3 := with_rotation _ ts3 _).
  assert (Hs3 : settings w3 = settings (world p)) by exact F1.
  rewrite Hs3.
  assert (Hmap : forall variant disp (l : list (string * string)),
             List.map (fun ca => setImageTitle (fst ca) disp variant) l
             = List.map (fun c => setImageTitle c disp variant) (List.map fst l)).
  { intros. rewrite List.map_map. reflexivity. }
  rewrite !Hmap, !forEachContext_action by reflexivity.
  destruct isRetained.
  - exists []. cbn [fst snd world contexts latestDetection images image_jobs].
    split; [reflexivity|]. split; [reflexivity|]. repeat (split; [reflexivity|]).
    intros _. subst w3. cbn [detectionTimestamps rotationState with_rotation].
    unfold getDetectionsLastHour in Ecount. injection Ecount as <- _. auto.
  - destruct (start_all_outputs reads (tiles ACTION_TODAY p) w3) as (S1 & S2 & S3).
    destruct (start_all reads (tiles ACTION_TODAY p) w3) as [w4 out_today].
    cbn [fst snd world contexts latestDetection images image_jobs] in *.
    exists out_today. split; [reflexivity|]. split; [exact S1|]. repeat (split; [reflexivity|]).
    split; [rewrite S3; reflexivity | discriminate].
Qed.



(** X23: a retained message, whatever its body, adds nothing to the
    detections of the last hour (the array only loses old entries at its
    front), leaves the rotation state of every tile as it was, fetches no
    image and attaches no callback; the display calls it makes go to text
    and border tiles. *)
Theorem retained_message_is_quiet (reads : Reads) (avail : bool)
        (payload : string) (p : Plugin) :
  let r := on_message reads avail true payload p in
  (exists old, detectionTimestamps (world p) = old ++ detectionTimestamps (world (fst r)))
  /\ rotationState (world (fst r)) = rotationState (world p)
  /\ images (fst r) = images p
  /\ image_jobs (fst r) = image_jobs p
  /\ Forall (fun o => exists c display variant,
                 o = setImageTitle c display variant /\ variant <> "today") (snd r).
Proof.
  intros r. subst r. unfold on_message.
  destruct (parsePayload (settings (world p)) payload) as [d|];
    [|cbn; repeat split; try (exists []; reflexivity); constructor].
  assert (Hp2 : match Detection.imageUrl d with
                | Some u => if JsStr.nonempty u && negb true
                            then updateImageContexts avail u None (Detection.occurrence d)
                            else fun p1 => p1
                | None => fun p1 => p1
                end = fun p1 => p1).
  { destruct (Detection.imageUrl d) as [u|]; [|reflexivity]. rewrite andb_false_r. reflexivity. }
  destruct (JsStr.nonempty (Detection.name d)).
  2:{ destruct (Detection.imageUrl d) as [u|]; [rewrite andb_false_r|];
        cbn; repeat split; try (exists []; reflexivity); constructor. }
  destruct (on_detection_spec reads true d p)
    as (today_out & O1 & O2 & O3 & O4 & O5 & O6 & O7 & O8).
  destruct (O8 eq_refl) as [T1 T2].
  destruct (on_detection reads true d p) as [p1 out]. cbn [fst snd] in *.
  assert (Hfin : (match Detection.imageUrl d with
                  | Some u => if JsStr.nonempty u && negb true
                              then updateImageContexts avail u None (Detection.occurrence d) p1
                              else p1
                  | None => p1
                  end) = p1).
  { destruct (Detection.imageUrl d) as [u|]; [rewrite andb_false_r|]; reflexivity. }
  rewrite Hfin. split.
  { rewrite T1. destruct (pruneDetections_split (at_count reads) (detectionTimestamps (world p)))
      as (old & Hold & _). exists old. exact Hold. }
  split; [exact T2|]. split; [exact O5|]. split; [exact O6|].
  destruct today_out; [|discriminate]. rewrite O1, app_nil_r.
  apply Forall_app. split; apply List.Forall_forall; intros o Ho;
    apply in_map_iff in Ho as (c & <- & _); eexists _, _, _; (split; [reflexivity | discriminate]).
Qed.

Lemma on_message_images reads avail isRetained payload p :
  images (fst (on_message reads avail isRetained payload p)) = images p
  \/ exists d u promise st,
       isRetained = false
       /\ parsePayload (settings (world p)) payload = Some d
       /\ Detection.imageUrl d = Some u
       /\ JsStr.nonempty u = true
       /\ tiles ACTION_IMAGE p <> []
       /\ fetchImageData avail u (images p) = (promise, st)
       /\ images (fst (on_message reads avail isRetained payload p)) = st
       /\ image_jobs (fst (on_message reads avail isRetained payload p))
          = image_jobs p ++ [(promise, None, Detection.occurrence d)].
Proof.
  unfold on_message.
  destruct (parsePayload (settings (world p)) payload) as [d|]; [|left; reflexivity].
  set (p1o := if JsStr.nonempty (Detection.name d) then on_detection reads isRetained d p else (p, [])).
  assert (H1 : images (fst p1o) = images p /\ image_jobs (fst p1o) = image_jobs p
               /\ contexts (fst p1o) = contexts p).
  { subst p1o. destruct (JsStr.nonempty (Detection.name d)); [|auto].
    destruct (on_detection_spec reads isRetained d p) as (t & _ & _ & O3 & _ & O5 & O6 & _). auto. }
  destruct p1o as [p1 out]. cbn [fst snd] in *. destruct H1 as (I1 & I2 & I3).
  destruct (Detection.imageUrl d) as [u|] eqn:Eu; [|left; exact I1].
  destruct (JsStr.nonempty u) eqn:En; cbn [andb]; [|left; exact I1].
  destruct isRetained; cbn [negb]; [left; exact I1|].
  unfold updateImageContexts. rewrite En. cbn [negb andb].
  destruct (forEachContext (Some ACTION_IMAGE) (contexts p1)) as [|ca rest] eqn:Ef;
    cbn [negb]; [left; exact I1|].
  right. rewrite I1, I2.
  destruct (fetchImageData avail u (images p)) as [promise st] eqn:Efetch.
  exists d, u, promise, st. cbn [images image_jobs fst].
  split; [reflexivity|]. split; [reflexivity|]. split; [exact Eu|]. split; [exact En|].
  split; [|auto].
  rewrite <- forEachContext_action by reflexivity. rewrite <- I3, Ef. discriminate.
Qed.

(** X24: the handler calls the network for an image only when the message
    is not retained, [fetch] exists, there is an image tile, and the body
    yields a detection with an image URL that is neither cached nor in
    flight; then it makes exactly one call, for that URL, puts its
    promise in flight and attaches one callback to it. *)
Theorem image_fetch_needs_live_message_and_tile (reads : Reads) (avail isRetained : bool)
        (payload : string) (p : Plugin) :
  let r := on_message reads avail isRetained payload p in
  requests (images (fst r)) <> requests (images p) ->
  isRetained = false
  /\ avail = true
  /\ tiles ACTION_IMAGE p <> []
  /\ exists d u,
       parsePayload (settings (world p)) payload = Some d
       /\ Detection.imageUrl d = Some u
       /\ imageCache (images p) !! u = None
       /\ imageInFlight (images p) !! u = None
       /\ requests (images (fst r)) = requests (images p) ++ [u]
       /\ imageInFlight (images (fst r)) !! u = Some (next_promise (images p))
       /\ image_jobs (fst r)
          = image_jobs p ++ [(next_promise (images p), None, Detection.occurrence d)].
Proof.
  intros r Hreq. subst r.
  destruct (on_message_images reads avail isRetained payload p)
    as [E|(d & u & promise & st & Hr & Hp & Hu & Hn & Ht & Hf & Hi & Hj)].
  { rewrite E in Hreq. contradiction. }
  rewrite Hi in Hreq |- *. rewrite Hj. unfold fetchImageData in Hf.
  destruct (imageCache (images p) !! u) eqn:Ec.
  { injection Hf as _ <-. contradiction. }
  destruct (imageInFlight (images p) !! u) eqn:Efl.
  { injection Hf as _ <-. contradiction. }
  destruct avail; cbn [negb] in Hf.
  2:{ injection Hf as _ <-. contradiction. }
  injection Hf as <- <-. cbn [requests imageInFlight].
  split; [exact Hr|]. split; [reflexivity|]. split; [exact Ht|].
  exists d, u. rewrite lookup_insert_eq. auto 10.
Qed.

End HandlerFacts.

Section HandlerExamples.
#[local] Existing Instance NodeHost.host.


Lemma image_fetch_needs_live_message_and_tile_witness :
  requests (images (fst (on_message SampleDeck.reads true false SampleDeck.payload
                           SampleDeck.plugin)))
  = ["http://x/o.jpg"].
Proof.
  destruct (image_fetch_needs_live_message_and_tile SampleDeck.reads true false
              SampleDeck.payload SampleDeck.plugin)
    as (_ & _ & _ & d & u & Hd & Hu & _ & _ & Hreq & _).
  - vm_compute. discriminate.
  - rewrite Hreq. vm_compute in Hd. injection Hd as <-. cbn in Hu. injection Hu as <-.
    reflexivity.
Defined.

End HandlerExamples.

(** ** The queue of log lines *)

Section LogFacts.

Lemma flush_loop_spec pending : forall sent,
  flush_loop pending sent = {| pendingLogs := []; sentLogs := sent ++ pending |}.
Proof.
  induction pending as [|m rest IH]; intros sent; cbn [flush_loop].
  - rewrite app_nil_r. reflexivity.
  - rewrite IH, <- app_assoc. reflexivity.
Qed.

Lemma log_step_keeps st e all :
  Permutation (sentLogs st ++ pendingLogs st) all ->
  sublist (pendingLogs st) all ->
  Permutation (sentLogs (log_step st e) ++ pendingLogs (log_step st e))
              (all ++ match e with Log _ m => [m] | Flush _ => [] end)
  /\ sublist (pendingLogs (log_step st e))
             (all ++ match e with Log _ m => [m] | Flush _ => [] end).
Proof.
  intros Hp Hs. destruct e as [[] m|[]]; cbn [log_step sendLogMessage flushPendingLogs negb];
    rewrite ?flush_loop_spec; cbn [sentLogs pendingLogs]; rewrite ?app_nil_r.
  - split; [|apply sublist_inserts_r; exact Hs].
    rewrite <- Hp. rewrite <- !app_assoc. apply Permutation_app_head, Permutation_app_comm.
  - split; [|apply sublist_app; [exact Hs | reflexivity]].
    rewrite app_assoc. apply Permutation_app_tail. exact Hp.
  - split; [exact Hp | apply sublist_nil_l].
  - split; [exact Hp | exact Hs].
Qed.

Lemma log_run_keeps es : forall st all,
  Permutation (sentLogs st ++ pendingLogs st) all ->
  sublist (pendingLogs st) all ->
  Permutation (sentLogs (fold_left log_step es st) ++ pendingLogs (fold_left log_step es st))
              (all ++ logged es)
  /\ sublist (pendingLogs (fold_left log_step es st)) (all ++ logged es).
Proof.
  induction es as [|e es IH]; intros st all Hp Hs; cbn [fold_left logged flat_map].
  - rewrite app_nil_r. auto.
  - destruct (log_step_keeps st e all Hp Hs) as [Hp' Hs'].
    destruct (IH _ _ Hp' Hs') as [H1 H2].
    rewrite <- !app_assoc in H1, H2. auto.
Qed.

(** X25: whatever the order of log calls and flushes, and whatever the
    state of the socket at each, every line logged is either sent or still
    pending, once: the lines sent and the lines pending are a permutation
    of the lines logged.  The pending lines keep the order they were
    logged in.  (The lines sent need not: a line logged while the socket
    is open goes out before the pending ones.)  A flush with the socket
    open sends all pending lines, in their order, and leaves none. *)
Theorem log_lines_are_never_lost (es : list LogEvent) :
  Permutation (sentLogs (log_run es) ++ pendingLogs (log_run es)) (logged es)
  /\ sublist (pendingLogs (log_run es)) (logged es)
  /\ pendingLogs (log_run (es ++ [Flush true])) = []
  /\ sentLogs (log_run (es ++ [Flush true])) = sentLogs (log_run es) ++ pendingLogs (log_run es).
Proof.
  destruct (log_run_keeps es {| pendingLogs := []; sentLogs := [] |} []) as [H1 H2];
    [reflexivity | constructor|].
  split; [exact H1|]. split; [exact H2|].
  unfold log_run. rewrite fold_left_app. cbn [fold_left log_step flushPendingLogs negb].
  rewrite flush_loop_spec. auto.
Qed.

End LogFacts.
